(** * Bubble autonomous agent: tag-based re-routing loop

    A shallow embedding of [src/services/semanticRouter.ts]:
    [BubbleSemanticRouter.route] and [runAutonomousAgent].

    JavaScript strings are sequences of UTF-16 code units; they are
    modelled as lists of [N].  The mutable locals of [runAutonomousAgent],
    the console and the stream callback are threaded through a state monad
    with exceptions.  The hosted services (model endpoint, memory, research,
    image generation, file reader) are an oracle record [Env]. *)

From Stdlib Require Import List NArith Lia String Ascii Bool Arith.
Import ListNotations.


(* ================================================================= *)
(** ** JavaScript strings *)

Module JS.

Definition char := N.
Definition jsstring := list char.

(** An ASCII literal of the source, as code units. *)
Definition lit (s : string) : jsstring :=
List.map N_of_ascii (list_ascii_of_string s).

Definition LF : char := 10%N.
Definition nl : jsstring := [LF].

Fixpoint str_eqb (a b : jsstring) : bool :=
match a, b with
| [], [] => true
| x :: a', y :: b' => N.eqb x y && str_eqb a' b'
| _, _ => false
end.

(** [ECMAScript LineTerminator]: LF, CR, LS, PS. *)
Definition isLineTerminator (c : char) : bool :=
(N.eqb c 10 || N.eqb c 13 || N.eqb c 8232 || N.eqb c 8233)%N.

(** [ECMAScript WhiteSpace]: TAB, VT, FF, SP, NBSP, ZWNBSP and the
  space separators (category Zs). *)
Definition isWhiteSpace (c : char) : bool :=
(N.eqb c 9 || N.eqb c 11 || N.eqb c 12 || N.eqb c 32 || N.eqb c 160
 || N.eqb c 5760 || (N.leb 8192 c && N.leb c 8202)
 || N.eqb c 8239 || N.eqb c 8287 || N.eqb c 12288 || N.eqb c 65279)%N.

(** What [String.prototype.trim] strips and what the regular expression
  class [\s] matches: WhiteSpace or LineTerminator. *)
Definition isSpace (c : char) : bool := isWhiteSpace c || isLineTerminator c.

Fixpoint trimStart (s : jsstring) : jsstring :=
match s with
| c :: s' => if isSpace c then trimStart s' else s
| [] => []
end.

Definition trimEnd (s : jsstring) : jsstring := rev (trimStart (rev s)).

Definition trim (s : jsstring) : jsstring := trimEnd (trimStart s).

(** Truthiness of a string value: the empty string is falsy. *)
Definition truthy (s : jsstring) : bool :=
match s with [] => false | _ :: _ => true end.

(** [strip_prefix eq p s]: when [s] starts with [p] up to [eq], the
  consumed characters of [s] and the rest. *)
Fixpoint strip_prefix (eq : char -> char -> bool) (p s : jsstring)
: option (jsstring * jsstring) :=
match p with
| [] => Some ([], s)
| a :: p' =>
    match s with
    | [] => None
    | b :: s' =>
        if eq a b then
          match strip_prefix eq p' s' with
          | Some (m, rest) => Some (b :: m, rest)
          | None => None
          end
        else None
    end
end.

(** [s.replace(pat, repl)] with a string pattern: the first occurrence of
  [pat] is replaced.  [repl] is taken literally (the source only passes
  the empty string, which has no [$] patterns). *)
Fixpoint replace (pat repl s : jsstring) : jsstring :=
match strip_prefix N.eqb pat s with
| Some (_, rest) => repl ++ rest
| None =>
    match s with
    | [] => []
    | c :: s' => c :: replace pat repl s'
    end
end.

(** [arr.join(sep)] on an array of strings. *)
Fixpoint join (sep : jsstring) (l : list jsstring) : jsstring :=
match l with
| [] => []
| [x] => x
| x :: l' => x ++ sep ++ join sep l'
end.

(* ----------------------------------------------------------------- *)
(** *** Regular expressions

  The patterns of the source are sequences of literal characters, one
  greedy [\s+] and one lazy capturing [(.*?)].  The matcher below is the
  backtracking matcher of ECMAScript restricted to these atoms. *)

Inductive atom :=
| Lit (s : jsstring)   (* literal characters *)
| Spaces1              (* \s+    greedy, at least one *)
| CaptureLazyDot.      (* (.*?)  lazy, captured; [.] excludes line terminators *)

Record regex := { atoms : list atom; ignoreCase : bool }.

(** [Canonicalize] of a code unit under the [i] flag (no [u] flag).  The
  patterns only contain ASCII characters, and a code unit of 128 or more
  never canonicalizes to one below 128, so comparing after mapping
  [a-z] to [A-Z] decides the match exactly. *)
Definition canonicalize (c : char) : char :=
if (N.leb 97 c && N.leb c 122)%N then (c - 32)%N else c.

Definition char_eq (ic : bool) (a b : char) : bool :=
if ic then N.eqb (canonicalize a) (canonicalize b) else N.eqb a b.

Definition isDot (c : char) : bool := negb (isLineTerminator c).

Section Loops.
(** The rest of the pattern, as a matcher on the remaining input. *)
Variable k : jsstring -> option (jsstring * list jsstring).

(** [\s+]: take one white-space character, then prefer taking more
  before trying the rest of the pattern. *)
Fixpoint greedy_spaces (s : jsstring) : option (jsstring * list jsstring) :=
match s with
| [] => None
| c :: s' =>
    if isSpace c then
      match greedy_spaces s' with
      | Some (m, gs) => Some (c :: m, gs)
      | None =>
          match k s' with
          | Some (m, gs) => Some (c :: m, gs)
          | None => None
          end
      end
    else None
end.

(** [(.*?)]: try the rest of the pattern first, and take one more
  character only when it fails.  Returns the capture, the text matched
  by the rest, and the later groups. *)
Fixpoint lazy_dots (s : jsstring)
: option (jsstring * jsstring * list jsstring) :=
match k s with
| Some (m, gs) => Some ([], m, gs)
| None =>
    match s with
    | [] => None
    | c :: s' =>
        if isDot c then
          match lazy_dots s' with
          | Some (cap, m, gs) => Some (c :: cap, m, gs)
          | None => None
          end
        else None
    end
end.
End Loops.

(** [match_here ic r s]: match the atoms [r] at the start of [s]; on
  success the matched text and the captured groups, in order. *)
Fixpoint match_here (ic : bool) (r : list atom) (s : jsstring) {struct r}
: option (jsstring * list jsstring) :=
match r with
| [] => Some ([], [])
| Lit p :: r' =>
    match strip_prefix (char_eq ic) p s with
    | Some (m, rest) =>
        match match_here ic r' rest with
        | Some (m', gs) => Some (m ++ m', gs)
        | None => None
        end
    | None => None
    end
| Spaces1 :: r' => greedy_spaces (match_here ic r') s
| CaptureLazyDot :: r' =>
    match lazy_dots (match_here ic r') s with
    | Some (cap, m, gs) => Some (cap ++ m, cap :: gs)
    | None => None
    end
end.

(** The array returned by a successful [match]: [match0] is element 0,
  [groups] are the elements from 1 on, [index] the position. *)
Record MatchResult := {
index : nat;
match0 : jsstring;
groups : list jsstring
}.

(** The leftmost position at which the pattern matches. *)
Fixpoint exec_from (r : regex) (s : jsstring) (i : nat) : option MatchResult :=
match match_here (ignoreCase r) (atoms r) s with
| Some (m, gs) => Some {| index := i; match0 := m; groups := gs |}
| None =>
    match s with
    | [] => None
    | _ :: s' => exec_from r s' (S i)
    end
end.

(** [s.match(r)] for a regular expression without the [g] flag. *)
Definition String_match (s : jsstring) (r : regex) : option MatchResult :=
exec_from r s 0.

(** Element 1 of a match array; [undefined] when the pattern has no group. *)
Definition group1 (m : MatchResult) : option jsstring := nth_error (groups m) 0.

End JS.

Import JS.

(* ================================================================= *)
(** ** The router *)

Inductive RouterAction :=
| SEARCH | DEEP_SEARCH | THINK | IMAGE | CANVAS | PROJECT | STUDY | SIMPLE.

Definition RouterAction_eqb (a b : RouterAction) : bool :=
  match a, b with
  | SEARCH, SEARCH | DEEP_SEARCH, DEEP_SEARCH | THINK, THINK | IMAGE, IMAGE
  | CANVAS, CANVAS | PROJECT, PROJECT | STUDY, STUDY | SIMPLE, SIMPLE => true
  | _, _ => false
  end.

(** [parameters: any]: the object is either [{}] or [{ prompt }]. *)
Record Parameters := { param_prompt : option jsstring }.

Record RoutingDecision := {
  action : RouterAction;
  parameters : Parameters;
  confidence : nat;
  memoryLayers : list jsstring;
  quotaOK : bool;
  reasoning : jsstring
}.

Definition allLayers : list jsstring :=
  [lit "inner_personal"; lit "outer_personal"; lit "interests";
   lit "preferences"; lit "custom"; lit "codebase"; lit "aesthetic";
   lit "project"].

(** [BubbleSemanticRouter.route]; [fileCount] defaults to 0 at the call. *)
Definition route (query userId apiKey : jsstring) (fileCount : nat)
  : RoutingDecision :=
  {| action := SIMPLE;
     parameters := {| param_prompt := None |};
     confidence := 1;
     memoryLayers := allLayers;
     quotaOK := true;
     reasoning :=
       lit "Defaulting to conversation. Tags will trigger specific actions." |}.

(* ================================================================= *)
(** ** Data of the agent *)

(** A thrown value: an [Error] instance with its message, or anything else. *)
Inductive Exn :=
| ErrorObject (message : jsstring)
| Thrown (value : jsstring).

Inductive Completion (A : Type) :=
| Normal (a : A)
| Throw (e : Exn).
Arguments Normal {A} a.
Arguments Throw {A} e.

(** A citation chunk of the SDK; opaque to this code. *)
Definition GroundingChunk := jsstring.

Record GroundingMetadata := { groundingChunks : option (list GroundingChunk) }.
Record Candidate := { candidate_groundingMetadata : option GroundingMetadata }.

Record Chunk := {
  chunk_text : option jsstring;
  candidates : option (list Candidate)
}.

(** The async iterable returned by [generateContentStream]: the chunks it
    yields, and the error that ends the iteration if it fails. *)
Record Stream := { chunks : list Chunk; failure : option Exn }.

Inductive Role := RoleUser | RoleModel.   (* 'user' | 'model' *)
Inductive Part :=
| TextPart (t : jsstring)
| InlineData (data mimeType : jsstring).
Record Content := { role : Role; parts : list Part }.

Inductive Contents :=
| ContentsText (s : jsstring)
| ContentsList (l : list Content).

Record Config := {
  systemInstruction : option jsstring;
  googleSearch : bool;
  responseModalities : list jsstring;
  responseMimeType : option jsstring
}.

Record Request := {
  model : jsstring;
  contents : Contents;
  config : option Config
}.

Record MemoryEntry := { layer : jsstring; key : jsstring; value : jsstring }.

Record Message := {
  project_id : jsstring;
  chat_id : jsstring;
  sender : jsstring;
  text : jsstring;
  image_base64 : option jsstring;
  imageStatus : option jsstring;
  groundingMetadata : option (list GroundingChunk);
  memoryToCreate : option (list MemoryEntry)
}.

Record AgentExecutionResult := { messages : list Message }.

Record File := { file_name : jsstring; file_type : jsstring }.
Record Profile := { preferred_image_model : option jsstring }.
Record ResearchResult := { answer : jsstring; sources : list jsstring }.

(** [project], [chat] and [user]: only their [id] is read. *)
Record Identified := { id : jsstring }.

Record AgentInput := {
  prompt : jsstring;
  files : option (list File);
  apiKey : jsstring;
  project : Identified;
  chat : Identified;
  history : list Message;
  user : Identified;
  profile : option Profile;
  (** [onStreamChunk]: absent, or a callback that may throw. *)
  onStreamChunk : option (jsstring -> option Exn)
}.

(** The collaborators that are not part of this file: the hosted services
    and the imported helpers.  Each call either completes or throws. *)
Record Env := {
  autonomousInstruction : jsstring;
  formatTimestamp : jsstring;
  getUserFriendlyError : Exn -> jsstring;
  (** [JSON.stringify(await memory.getContext(layers))] *)
  getContext : list jsstring -> Completion jsstring;
  (** [JSON.stringify] of a string value *)
  JSON_quote : jsstring -> jsstring;
  generateContentStream : Request -> Completion Stream;
  (** [ai.models.generateContent]: the [text] of the response *)
  generateContent : Request -> Completion (option jsstring);
  (** [researchService.deepResearch]: the progress messages it reports
      through its callback, then its result *)
  deepResearch : jsstring -> list jsstring * Completion ResearchResult;
  incrementThinkingCount : jsstring -> Completion unit;
  generateImage : jsstring -> jsstring -> option jsstring -> Completion jsstring;
  (** the [FileReader] promise: the base64 payload of the data URL *)
  readAsBase64 : File -> Completion jsstring
}.

(** [metadataPayload]: the keys the code ever sets on it. *)
Record Payload := {
  payload_groundingMetadata : option (list GroundingChunk);
  payload_memoryToCreate : option (list MemoryEntry)
}.

Inductive ConsoleEntry :=
| LogLoop (n : nat) (a : RouterAction)   (* [Autonomous Loop n] Action: a *)
| LogError (e : Exn).

(** The mutable locals of [runAutonomousAgent], the console and the
    chunks handed to [onStreamChunk]. *)
Record State := {
  routing : RoutingDecision;
  finalResponseText : jsstring;
  metadataPayload : Payload;
  currentAction : RouterAction;
  currentPrompt : jsstring;
  loopCount : nat;
  generatedThisLoop : jsstring;
  console : list ConsoleEntry;
  streamed : list jsstring
}.

(** The state when the function is called: nothing logged or streamed yet.
    The locals are placeholders until their declarations run. *)
Definition state0 : State :=
  {| routing := route [] [] [] 0;
     finalResponseText := [];
     metadataPayload := {| payload_groundingMetadata := None;
                           payload_memoryToCreate := None |};
     currentAction := SIMPLE;
     currentPrompt := [];
     loopCount := 0;
     generatedThisLoop := [];
     console := [];
     streamed := [] |}.

Definition set_routing v (st : State) : State :=
  {| routing := v; finalResponseText := finalResponseText st;
     metadataPayload := metadataPayload st; currentAction := currentAction st;
     currentPrompt := currentPrompt st; loopCount := loopCount st;
     generatedThisLoop := generatedThisLoop st; console := console st;
     streamed := streamed st |}.
Definition set_finalResponseText v (st : State) : State :=
  {| routing := routing st; finalResponseText := v;
     metadataPayload := metadataPayload st; currentAction := currentAction st;
     currentPrompt := currentPrompt st; loopCount := loopCount st;
     generatedThisLoop := generatedThisLoop st; console := console st;
     streamed := streamed st |}.
Definition set_metadataPayload v (st : State) : State :=
  {| routing := routing st; finalResponseText := finalResponseText st;
     metadataPayload := v; currentAction := currentAction st;
     currentPrompt := currentPrompt st; loopCount := loopCount st;
     generatedThisLoop := generatedThisLoop st; console := console st;
     streamed := streamed st |}.
Definition set_currentAction v (st : State) : State :=
  {| routing := routing st; finalResponseText := finalResponseText st;
     metadataPayload := metadataPayload st; currentAction := v;
     currentPrompt := currentPrompt st; loopCount := loopCount st;
     generatedThisLoop := generatedThisLoop st; console := console st;
     streamed := streamed st |}.
Definition set_currentPrompt v (st : State) : State :=
  {| routing := routing st; finalResponseText := finalResponseText st;
     metadataPayload := metadataPayload st; currentAction := currentAction st;
     currentPrompt := v; loopCount := loopCount st;
     generatedThisLoop := generatedThisLoop st; console := console st;
     streamed := streamed st |}.
Definition set_loopCount v (st : State) : State :=
  {| routing := routing st; finalResponseText := finalResponseText st;
     metadataPayload := metadataPayload st; currentAction := currentAction st;
     currentPrompt := currentPrompt st; loopCount := v;
     generatedThisLoop := generatedThisLoop st; console := console st;
     streamed := streamed st |}.
Definition set_generatedThisLoop v (st : State) : State :=
  {| routing := routing st; finalResponseText := finalResponseText st;
     metadataPayload := metadataPayload st; currentAction := currentAction st;
     currentPrompt := currentPrompt st; loopCount := loopCount st;
     generatedThisLoop := v; console := console st;
     streamed := streamed st |}.
Definition set_console v (st : State) : State :=
  {| routing := routing st; finalResponseText := finalResponseText st;
     metadataPayload := metadataPayload st; currentAction := currentAction st;
     currentPrompt := currentPrompt st; loopCount := loopCount st;
     generatedThisLoop := generatedThisLoop st; console := v;
     streamed := streamed st |}.
Definition set_streamed v (st : State) : State :=
  {| routing := routing st; finalResponseText := finalResponseText st;
     metadataPayload := metadataPayload st; currentAction := currentAction st;
     currentPrompt := currentPrompt st; loopCount := loopCount st;
     generatedThisLoop := generatedThisLoop st; console := console st;
     streamed := v |}.

(* ================================================================= *)
(** ** State and exceptions *)

Definition M (A : Type) : Type := State -> State * Completion A.

Definition ret {A} (a : A) : M A := fun st => (st, Normal a).

Definition bind {A B} (m : M A) (f : A -> M B) : M B :=
  fun st =>
    match m st with
    | (st', Normal a) => f a st'
    | (st', Throw e) => (st', Throw e)
    end.

Definition throw {A} (e : Exn) : M A := fun st => (st, Throw e).

Definition get : M State := fun st => (st, Normal st).

Definition modify (f : State -> State) : M unit := fun st => (f st, Normal tt).

(** [await] of a promise that settled as [c]. *)
Definition await {A} (c : Completion A) : M A := fun st => (st, c).

(** [try { body } catch (e) { handler e }] *)
Definition try_catch {A} (body : M A) (handler : Exn -> M A) : M A :=
  fun st =>
    match body st with
    | (st', Normal a) => (st', Normal a)
    | (st', Throw e) => handler e st'
    end.

Declare Scope agent_scope.
Delimit Scope agent_scope with agent.
Notation "x <- c1 ;; c2" := (bind c1 (fun x => c2))
  (at level 61, c1 at next level, right associativity) : agent_scope.
Notation "c1 ;; c2" := (bind c1 (fun _ => c2))
  (at level 61, right associativity) : agent_scope.
Open Scope agent_scope.

(** [for (const x of l) body(x)] *)
Fixpoint for_of {A} (l : list A) (body : A -> M unit) : M unit :=
  match l with
  | [] => ret tt
  | x :: l' => body x ;; for_of l' body
  end.

(** [for await (const chunk of response) body(chunk)] *)
Definition for_await (s : Stream) (body : Chunk -> M unit) : M unit :=
  for_of (chunks s) body ;;
  match failure s with
  | Some e => throw e
  | None => ret tt
  end.

(* ================================================================= *)
(** ** runAutonomousAgent *)

Definition MAX_LOOPS : nat := 2.

Definition spaces (n : nat) : jsstring := repeat 32%N n.
Definition dquote : jsstring := [34%N].

(** [String(x)] of a value that may be [undefined]. *)
Definition String_of (o : option jsstring) : jsstring :=
  match o with
  | Some s => s
  | None => lit "undefined"
  end.

(** [a || b] on two match results ([null] is falsy, an array truthy). *)
Definition orElse {A} (a b : option A) : option A :=
  match a with
  | Some _ => a
  | None => b
  end.

(** [onStreamChunk?.(x)] *)
Definition emit (input : AgentInput) (x : jsstring) : M unit :=
  match onStreamChunk input with
  | None => ret tt
  | Some callback =>
      modify (fun st => set_streamed (streamed st ++ [x]) st) ;;
      match callback x with
      | Some e => throw e
      | None => ret tt
      end
  end.

Definition console_log (entry : ConsoleEntry) : M unit :=
  modify (fun st => set_console (console st ++ [entry]) st).

(** [finalResponseText += x] *)
Definition append_finalResponseText (x : jsstring) : M unit :=
  modify (fun st => set_finalResponseText (finalResponseText st ++ x) st).

(** The object literal of every non-exceptional [return] but the one with
    an image:
    [{ project_id: project.id, chat_id: chat.id, sender: 'ai',
       text: finalResponseText, ...metadataPayload }]. *)
Definition textMessage (input : AgentInput) (st : State) : Message :=
  {| project_id := id (project input);
     chat_id := id (chat input);
     sender := lit "ai";
     text := finalResponseText st;
     image_base64 := None;
     imageStatus := None;
     groundingMetadata := payload_groundingMetadata (metadataPayload st);
     memoryToCreate := payload_memoryToCreate (metadataPayload st) |}.

Inductive Control :=
| Continue
| Return (r : AgentExecutionResult).

Definition return_text (input : AgentInput) : M Control :=
  st <- get ;;
  ret (Return {| messages := [textMessage input st] |}).

(** [chunk.candidates?.[0]] *)
Definition candidate0 (chunk : Chunk) : option Candidate :=
  match candidates chunk with
  | Some l => nth_error l 0
  | None => None
  end.

(** The citation capture, written twice in the source (SEARCH and SIMPLE):
    [if (candidate && candidate.groundingMetadata)
       if (groundingMetadata.groundingChunks) {
         if (!metadataPayload.groundingMetadata) metadataPayload.groundingMetadata = [];
         metadataPayload.groundingMetadata.push(...groundingMetadata.groundingChunks) }] *)
Definition captureGrounding (chunk : Chunk) : M unit :=
  match candidate0 chunk with
  | Some candidate =>
      match candidate_groundingMetadata candidate with
      | Some gm =>
          match groundingChunks gm with
          | Some gcs =>
              modify (fun st =>
                let mp := metadataPayload st in
                let old := match payload_groundingMetadata mp with
                           | Some l => l
                           | None => []
                           end in
                set_metadataPayload
                  {| payload_groundingMetadata := Some (old ++ gcs);
                     payload_memoryToCreate := payload_memoryToCreate mp |} st)
          | None => ret tt
          end
      | None => ret tt
      end
  | None => ret tt
  end.

(** [history.map(msg => ({ role: msg.sender === 'user' ? 'user' : 'model',
                          parts: [{ text: msg.text }] }))
            .filter(msg => msg.parts[0].text.trim() !== '')] *)
Definition toContent (msg : Message) : Content :=
  {| role := if str_eqb (sender msg) (lit "user") then RoleUser else RoleModel;
     parts := [TextPart (text msg)] |}.

Definition hasText (c : Content) : bool :=
  match parts c with
  | TextPart t :: _ => negb (str_eqb (trim t) [])
  | _ => false   (* not reached: [toContent] builds one text part *)
  end.

Definition geminiHistory (h : list Message) : list Content :=
  filter hasText (List.map toContent h).

(** The body of [for (const file of files)]: each file is read and put in
    front of [userParts] ([unshift]). *)
Fixpoint readFiles (env : Env) (fs : list File) (userParts : list Part)
  : M (list Part) :=
  match fs with
  | [] => ret userParts
  | file :: fs' =>
      base64EncodedData <- await (readAsBase64 env file) ;;
      readFiles env fs' (InlineData base64EncodedData (file_type file) :: userParts)
  end.

(** A streaming loop that only accumulates text (THINK, CANVAS, STUDY). *)
Definition streamText (input : AgentInput) (response : Stream) : M unit :=
  for_await response (fun chunk =>
    match chunk_text chunk with
    | Some t =>
        if truthy t then append_finalResponseText t ;; emit input t
        else ret tt
    | None => ret tt
    end).

(* ----------------------------------------------------------------- *)
(** *** The tag patterns *)

Definition tagPair (opening closing : string) : regex :=
  {| atoms := [Lit (lit opening); CaptureLazyDot; Lit (lit closing)];
     ignoreCase := false |}.

Definition re_SEARCH := tagPair "<SEARCH>" "</SEARCH>".
Definition re_DEEP := tagPair "<DEEP>" "</DEEP>".
Definition re_SEARCH_deep : regex :=   (* /<SEARCH>deep\s+(.*?)<\/SEARCH>/i *)
  {| atoms := [Lit (lit "<SEARCH>deep"); Spaces1; CaptureLazyDot;
               Lit (lit "</SEARCH>")];
     ignoreCase := true |}.
Definition re_THINK := tagPair "<THINK>" "</THINK>".
Definition re_THINK_open : regex :=     (* /<THINK>/ *)
  {| atoms := [Lit (lit "<THINK>")]; ignoreCase := false |}.
Definition re_IMAGE := tagPair "<IMAGE>" "</IMAGE>".
Definition re_PROJECT := tagPair "<PROJECT>" "</PROJECT>".
Definition re_CANVAS := tagPair "<CANVAS>" "</CANVAS>".
Definition re_STUDY := tagPair "<STUDY>" "</STUDY>".

Definition searchMatch (g : jsstring) := String_match g re_SEARCH.
Definition deepMatch (g : jsstring) :=
  orElse (String_match g re_DEEP) (String_match g re_SEARCH_deep).
Definition thinkMatch (g : jsstring) :=
  orElse (String_match g re_THINK) (String_match g re_THINK_open).
Definition imageMatch (g : jsstring) := String_match g re_IMAGE.
Definition projectMatch (g : jsstring) := String_match g re_PROJECT.
Definition canvasMatch (g : jsstring) := String_match g re_CANVAS.
Definition studyMatch (g : jsstring) := String_match g re_STUDY.

(** The assignments shared by the seven tag branches:
    [currentAction = a; currentPrompt = p;
     finalResponseText = finalResponseText.replace(m[0], ''); continue]. *)
Definition reroute (a : RouterAction) (p : jsstring) (m : MatchResult)
  : M Control :=
  modify (set_currentAction a) ;;
  modify (set_currentPrompt p) ;;
  modify (fun st =>
    set_finalResponseText (replace (match0 m) [] (finalResponseText st)) st) ;;
  ret Continue.

(** The tag detection of the SIMPLE case and what follows it. *)
Definition detectTags (input : AgentInput) : M Control :=
  st <- get ;;
  let g := generatedThisLoop st in
  match deepMatch g with
  | Some m => reroute DEEP_SEARCH (String_of (group1 m)) m
  | None =>
  match searchMatch g with
  | Some m => reroute SEARCH (String_of (group1 m)) m
  | None =>
  match thinkMatch g with
  | Some m =>
      (* thinkMatch[1] ? thinkMatch[1].trim() : prompt *)
      let p := match group1 m with
               | Some c => if truthy c then trim c else prompt input
               | None => prompt input
               end in
      reroute THINK p m
  | None =>
  match imageMatch g with
  | Some m =>
      modify (set_currentAction IMAGE) ;;
      modify (set_currentPrompt (String_of (group1 m))) ;;
      modify (fun st =>
        let r := routing st in
        set_routing
          {| action := action r;
             parameters := {| param_prompt := Some (String_of (group1 m)) |};
             confidence := confidence r; memoryLayers := memoryLayers r;
             quotaOK := quotaOK r; reasoning := reasoning r |} st) ;;
      modify (fun st =>
        set_finalResponseText (replace (match0 m) [] (finalResponseText st)) st) ;;
      ret Continue
  | None =>
  match projectMatch g with
  | Some m => reroute PROJECT (String_of (group1 m)) m
  | None =>
  match canvasMatch g with
  | Some m => reroute CANVAS (String_of (group1 m)) m
  | None =>
  match studyMatch g with
  | Some m => reroute STUDY (String_of (group1 m)) m
  | None =>
      (if 50 <? List.length g then
         modify (fun st =>
           let mp := metadataPayload st in
           set_metadataPayload
             {| payload_groundingMetadata := payload_groundingMetadata mp;
                payload_memoryToCreate :=
                  Some [ {| layer := lit "outer_personal";
                            key := lit "last_topic";
                            value := prompt input |} ] |} st)
       else ret tt) ;;
      return_text input
  end end end end end end end.

(* ----------------------------------------------------------------- *)
(** *** The cases of the switch *)

Section Cases.
Variable env : Env.
Variable input : AgentInput.
Variable memoryContext : jsstring.     (* JSON.stringify(memoryContext) *)
Variable dateTimeContext : jsstring.

Definition noConfig : Config :=
  {| systemInstruction := None; googleSearch := false;
     responseModalities := []; responseMimeType := None |}.

Definition searchRequest (currentPrompt : jsstring) : Request :=
  {| model := lit "gemini-2.0-flash-exp";
     contents := ContentsText (lit "User Query: " ++ currentPrompt);
     config := Some
       {| systemInstruction := Some
            (autonomousInstruction env ++ nl ++ nl ++ dateTimeContext
             ++ nl ++ nl
             ++ lit "Provide a helpful, friendly answer to the user's query using Google Search. Maintain your persona (Bubble). Cite sources.");
          googleSearch := true;
          responseModalities := [lit "TEXT"];
          responseMimeType := None |} |}.

(** The loop over the SEARCH stream; citations are looked at for every
    chunk.  ([searchResultText] is accumulated by the source and never
    read.) *)
Definition streamSearch (searchResponse : Stream) : M unit :=
  for_await searchResponse (fun chunk =>
    match chunk_text chunk with
    | Some t =>
        if truthy t then append_finalResponseText t ;; emit input t
        else ret tt
    | None => ret tt
    end ;;
    captureGrounding chunk).

Definition caseSEARCH : M Control :=
  emit input (nl ++ nl ++ [55357; 56589]%N ++ lit " Searching the web...") ;;
  st <- get ;;
  searchResponse <- await (generateContentStream env
                             (searchRequest (currentPrompt st))) ;;
  streamSearch searchResponse ;;
  return_text input.

Definition caseDEEP_SEARCH : M Control :=
  emit input (nl ++ nl ++ [55357; 56620]%N ++ lit " Deep Researching...") ;;
  st <- get ;;
  let (progress, outcome) := deepResearch env (currentPrompt st) in
  for_of progress (fun msg => emit input (nl ++ lit "*" ++ msg ++ lit "*")) ;;
  result <- await outcome ;;
  let researchText :=
    answer result ++ nl ++ nl ++ lit "**Sources:**" ++ nl
    ++ join nl (sources result) in
  append_finalResponseText (nl ++ nl ++ researchText) ;;
  emit input researchText ;;
  return_text input.

Definition contextBlock (currentPrompt : jsstring) : jsstring :=
  nl ++ autonomousInstruction env ++ nl ++ nl ++ dateTimeContext ++ nl ++ nl
  ++ lit "[MEMORY]" ++ nl ++ memoryContext ++ nl ++ nl
  ++ lit "[TASK]" ++ nl ++ currentPrompt ++ nl.

Definition thinkRequest (currentPrompt : jsstring) : Request :=
  {| model := lit "gemini-2.0-flash-thinking-exp-1219";
     contents := ContentsList
       (geminiHistory (history input)
        ++ [ {| role := RoleUser;
                parts := [TextPart (contextBlock currentPrompt)] |} ]);
     config := None |}.

Definition caseTHINK : M Control :=
  emit input (nl ++ nl ++ [55358; 56800]%N ++ lit " Thinking...") ;;
  await (incrementThinkingCount env (id (user input))) ;;
  st <- get ;;
  response <- await (generateContentStream env
                       (thinkRequest (currentPrompt st))) ;;
  streamText input response ;;
  return_text input.

(** [JSON.stringify({ type: 'image_generation_start', text })] *)
Definition imageStartEvent (text : jsstring) : jsstring :=
  lit "{" ++ dquote ++ lit "type" ++ dquote ++ lit ":"
  ++ dquote ++ lit "image_generation_start" ++ dquote ++ lit ","
  ++ dquote ++ lit "text" ++ dquote ++ lit ":"
  ++ JSON_quote env text ++ lit "}".

(** [routing.parameters?.prompt || currentPrompt] *)
Definition imagePromptOf (st : State) : jsstring :=
  match param_prompt (parameters (routing st)) with
  | Some p => if truthy p then p else currentPrompt st
  | None => currentPrompt st
  end.

(** [profile?.preferred_image_model] *)
Definition imageModelOf : option jsstring :=
  match profile input with
  | Some p => preferred_image_model p
  | None => None
  end.

(** The [errorMsg] of the inner [catch]. *)
Definition imageFailureNote (e : Exn) : jsstring :=
  nl ++ nl ++ lit "(Image generation failed: "
  ++ match e with
     | ErrorObject message => message
     | Thrown _ => lit "Unknown error"
     end
  ++ lit ")".

Definition caseIMAGE : M Control :=
  st <- get ;;
  emit input (imageStartEvent (finalResponseText st)) ;;
  let imagePrompt := imagePromptOf st in
  try_catch
    (imageBase64 <- await (generateImage env imagePrompt (apiKey input)
                             imageModelOf) ;;
     st <- get ;;
     ret (Return {| messages :=
       [ {| project_id := id (project input);
            chat_id := id (chat input);
            sender := lit "ai";
            text := finalResponseText st;
            image_base64 := Some imageBase64;
            imageStatus := Some (lit "complete");
            groundingMetadata :=
              payload_groundingMetadata (metadataPayload st);
            memoryToCreate :=
              payload_memoryToCreate (metadataPayload st) |} ] |}))
    (fun e =>
       let errorMsg := imageFailureNote e in
       append_finalResponseText errorMsg ;;
       emit input errorMsg ;;
       return_text input).

Definition canvasRequest (currentPrompt : jsstring) : Request :=
  {| model := lit "gemini-2.5-flash-exp";
     contents := ContentsText
       (lit "Create a single-file solution for: " ++ currentPrompt
        ++ lit ". " ++ nl ++ spaces 20
        ++ lit "If it's a web page, provide full HTML/CSS/JS in one file. "
        ++ nl ++ spaces 20
        ++ lit "If it's a script, provide the full code. "
        ++ nl ++ spaces 20
        ++ lit "Do not use markdown backticks for the main code block in the final output if possible, or ensure it's clean.");
     config := Some
       {| systemInstruction := Some
            (lit "You are an expert coder. Generate concise, production-ready code.");
          googleSearch := false;
          responseModalities := [];
          responseMimeType := None |} |}.

Definition caseCANVAS : M Control :=
  emit input (nl ++ nl ++ [55357; 56541]%N ++ lit " Opening Canvas...") ;;
  st <- get ;;
  response <- await (generateContentStream env
                       (canvasRequest (currentPrompt st))) ;;
  streamText input response ;;
  return_text input.

Definition projectRequest (currentPrompt : jsstring) : Request :=
  {| model := lit "gemini-2.5-flash-exp";
     contents := ContentsText
       (lit "Build a complete file structure for a project: "
        ++ currentPrompt
        ++ lit ". Return a JSON object with filenames and brief content descriptions.");
     config := Some
       {| systemInstruction := None;
          googleSearch := false;
          responseModalities := [];
          responseMimeType := Some (lit "application/json") |} |}.

Definition casePROJECT : M Control :=
  emit input
    (nl ++ nl ++ [55357; 56550]%N ++ lit " Building project structure...") ;;
  st <- get ;;
  response <- await (generateContent env
                       (projectRequest (currentPrompt st))) ;;
  let projectMsg :=
    nl ++ lit "I've designed the project structure based on your request."
    ++ nl ++ nl ++ String_of response ++ nl ++ nl
    ++ lit "(Switch to Co-Creator mode to fully hydrate and edit these files.)" in
  append_finalResponseText projectMsg ;;
  emit input projectMsg ;;
  return_text input.

Definition studyRequest (currentPrompt : jsstring) : Request :=
  {| model := lit "gemini-2.0-flash-exp";
     contents := ContentsText
       (lit "Create a structured study plan for: " ++ currentPrompt
        ++ lit ". Include learning objectives and key concepts.");
     config := None |}.

Definition caseSTUDY : M Control :=
  emit input
    (nl ++ nl ++ [55357; 56538]%N ++ lit " Creating study plan...") ;;
  st <- get ;;
  response <- await (generateContentStream env
                       (studyRequest (currentPrompt st))) ;;
  streamText input response ;;
  return_text input.

Definition systemPrompt : jsstring :=
  autonomousInstruction env ++ nl ++ spaces 20 ++ nl ++ spaces 20
  ++ lit "[MEMORY]" ++ nl ++ spaces 20 ++ memoryContext ++ nl
  ++ spaces 20 ++ nl ++ spaces 20 ++ dateTimeContext ++ nl ++ spaces 20.

Definition simpleRequest (userParts : list Part) : Request :=
  {| model := lit "gemini-2.0-flash-exp";
     contents := ContentsList
       (geminiHistory (history input)
        ++ [ {| role := RoleUser; parts := userParts |} ]);
     config := Some
       {| systemInstruction := Some systemPrompt;
          googleSearch := false;
          responseModalities := [];
          responseMimeType := None |} |}.

(** The loop over the SIMPLE stream; citations are looked at only for
    chunks that carry text. *)
Definition streamSimple (response : Stream) : M unit :=
  for_await response (fun chunk =>
    match chunk_text chunk with
    | Some t =>
        if truthy t then
          modify (fun st =>
            set_generatedThisLoop (generatedThisLoop st ++ t) st) ;;
          append_finalResponseText t ;;
          emit input t ;;
          captureGrounding chunk
        else ret tt
    | None => ret tt
    end).

(** The SIMPLE case up to the end of its stream loop. *)
Definition simpleTurn : M unit :=
  st <- get ;;
  userParts <-
    match files input with
    | Some fs =>
        if 0 <? List.length fs
        then readFiles env fs [TextPart (currentPrompt st)]
        else ret [TextPart (currentPrompt st)]
    | None => ret [TextPart (currentPrompt st)]
    end ;;
  response <- await (generateContentStream env (simpleRequest userParts)) ;;
  modify (set_generatedThisLoop []) ;;
  streamSimple response.

Definition caseSIMPLE : M Control :=
  simpleTurn ;;
  detectTags input.

Definition iteration : M Control :=
  st <- get ;;
  match currentAction st with
  | SEARCH => caseSEARCH
  | DEEP_SEARCH => caseDEEP_SEARCH
  | THINK => caseTHINK
  | IMAGE => caseIMAGE
  | CANVAS => caseCANVAS
  | PROJECT => casePROJECT
  | STUDY => caseSTUDY
  | SIMPLE => caseSIMPLE
  end.

(** [while (loopCount < MAX_LOOPS) { loopCount++; console.log(...); switch ... }]
    followed by the [return] after the loop.  [fuel] bounds the number of
    iterations the model may run; [None] means it ran out. *)
Fixpoint agentLoop (fuel : nat) : M (option AgentExecutionResult) :=
  st <- get ;;
  if loopCount st <? MAX_LOOPS then
    match fuel with
    | 0 => ret None
    | S fuel' =>
        modify (fun st => set_loopCount (S (loopCount st)) st) ;;
        st <- get ;;
        console_log (LogLoop (loopCount st) (currentAction st)) ;;
        c <- iteration ;;
        match c with
        | Return r => ret (Some r)
        | Continue => agentLoop fuel'
        end
    end
  else
    ret (Some {| messages := [textMessage input st] |}).
End Cases.

(** The body of the [try] block. *)
Definition agentBody (fuel : nat) (env : Env) (input : AgentInput)
  : M (option AgentExecutionResult) :=
  let fileCount := match files input with
                   | Some fs => List.length fs
                   | None => 0
                   end in
  modify (set_routing
            (route (prompt input) (id (user input)) (apiKey input) fileCount)) ;;
  memoryContext <- await (getContext env allLayers) ;;
  let dateTimeContext :=
    lit "[CURRENT DATE & TIME]" ++ nl ++ formatTimestamp env ++ nl in
  modify (set_finalResponseText []) ;;
  modify (set_metadataPayload {| payload_groundingMetadata := None;
                                 payload_memoryToCreate := None |}) ;;
  st <- get ;;
  modify (set_currentAction (action (routing st))) ;;
  modify (set_currentPrompt (prompt input)) ;;
  modify (set_loopCount 0) ;;
  agentLoop env input memoryContext dateTimeContext fuel.

(** The result built by the [catch] block. *)
Definition errorResult (env : Env) (input : AgentInput) (error : Exn)
  : AgentExecutionResult :=
  {| messages :=
       [ {| project_id := id (project input);
            chat_id := id (chat input);
            sender := lit "ai";
            text := lit "An error occurred: " ++ getUserFriendlyError env error;
            image_base64 := None;
            imageStatus := None;
            groundingMetadata := None;
            memoryToCreate := None |} ] |}.

(** [runAutonomousAgent]: the [try] block and its [catch]. *)
Definition runAutonomousAgent (fuel : nat) (env : Env) (input : AgentInput)
  : M (option AgentExecutionResult) :=
  try_catch (agentBody fuel env input)
    (fun error =>
       console_log (LogError error) ;;
       ret (Some (errorResult env input error))).

(** A call of the function: the locals do not exist before it. *)
Definition run (fuel : nat) (env : Env) (input : AgentInput)
  : State * Completion (option AgentExecutionResult) :=
  runAutonomousAgent fuel env input state0.

(* ================================================================= *)
(** ** Vocabulary of the statements *)

(** [agree eq p m]: the text [m] is the literal [p] up to [eq]. *)
Definition agree (eq : char -> char -> bool) (p m : jsstring) : Prop :=
  Forall2 (fun a b => eq a b = true) p m.

(** The texts a list of atoms matches, with the groups it captures. *)
Inductive Matches (ic : bool) : list atom -> jsstring -> list jsstring -> Prop :=
| Matches_nil : Matches ic [] [] []
| Matches_Lit p r m w gs :
    agree (char_eq ic) p m -> Matches ic r w gs ->
    Matches ic (Lit p :: r) (m ++ w) gs
| Matches_Spaces1 r sp w gs :
    sp <> [] -> Forall (fun c => isSpace c = true) sp -> Matches ic r w gs ->
    Matches ic (Spaces1 :: r) (sp ++ w) gs
| Matches_Capture r cap w gs :
    Forall (fun c => isDot c = true) cap -> Matches ic r w gs ->
    Matches ic (CaptureLazyDot :: r) (cap ++ w) (cap :: gs).

(** [includes x s]: [x] occurs in [s]. *)
Definition includes (x s : jsstring) : Prop :=
  exists pre post, s = pre ++ x ++ post.

(** Equality of texts up to ASCII case. *)
Definition eq_ci (a b : jsstring) : Prop := agree (char_eq true) a b.

(** A text that is empty or consists of white space only. *)
Definition blank (s : jsstring) : bool := forallb isSpace s.

(** [keeps R m]: every run of [m] relates the state before to the state
    after by [R], whether it completes or throws. *)
Definition keeps (R : State -> State -> Prop) {A} (m : M A) : Prop :=
  forall st, R st (fst (m st)).

(** [post Q m]: when [m] completes, [Q] holds of the state it leaves and
    the value it yields. *)
Definition post {A} (Q : State -> A -> Prop) (m : M A) : Prop :=
  forall st,
    match snd (m st) with
    | Normal a => Q (fst (m st)) a
    | Throw _ => True
    end.

(** The citation chunks and the memory entries held by [metadataPayload]. *)
Definition captured (st : State) : list GroundingChunk :=
  match payload_groundingMetadata (metadataPayload st) with
  | Some l => l
  | None => []
  end.

Definition memory (st : State) : option (list MemoryEntry) :=
  payload_memoryToCreate (metadataPayload st).

(** What no case of the switch touches: the console and the counter; and
    no case drops a citation. *)
Definition R_loop (st st' : State) : Prop :=
  console st' = console st
  /\ loopCount st' = loopCount st
  /\ incl (captured st) (captured st').

(** What the SIMPLE case leaves alone up to its tag detection. *)
Definition R_turn (st st' : State) : Prop :=
  R_loop st st'
  /\ currentAction st' = currentAction st
  /\ currentPrompt st' = currentPrompt st
  /\ routing st' = routing st
  /\ memory st' = memory st.

(** What the other cases leave alone: they only append text, stream it and
    add citations. *)
Definition R_frame (st st' : State) : Prop :=
  R_turn st st'
  /\ generatedThisLoop st' = generatedThisLoop st
  /\ exists t, finalResponseText st' = finalResponseText st ++ t.

(** The text streamed by the SIMPLE case goes to both accumulators. *)
Definition R_text (st st' : State) : Prop :=
  exists t, generatedThisLoop st' = generatedThisLoop st ++ t
            /\ finalResponseText st' = finalResponseText st ++ t.

(** The match the code consults for each action. *)
Definition matchFor (a : RouterAction) (g : jsstring) : option MatchResult :=
  match a with
  | DEEP_SEARCH => deepMatch g
  | SEARCH => searchMatch g
  | THINK => thinkMatch g
  | IMAGE => imageMatch g
  | PROJECT => projectMatch g
  | CANVAS => canvasMatch g
  | STUDY => studyMatch g
  | SIMPLE => None
  end.

Definition noTag (g : jsstring) : Prop := forall a, matchFor a g = None.

Definition lastTopic (input : AgentInput) : MemoryEntry :=
  {| layer := lit "outer_personal"; key := lit "last_topic";
     value := prompt input |}.

(** The shape of the message of a non-exceptional [return], relative to
    the state at that point. *)
Definition carries (input : AgentInput) (st : State) (m : Message) : Prop :=
  project_id m = id (project input)
  /\ chat_id m = id (chat input)
  /\ sender m = lit "ai"
  /\ text m = finalResponseText st
  /\ groundingMetadata m = payload_groundingMetadata (metadataPayload st)
  /\ memoryToCreate m = memory st.

Definition returns_message (input : AgentInput) (st : State) (c : Control)
  : Prop :=
  match c with
  | Continue => True
  | Return r => exists m, messages r = [m] /\ carries input st m
  end.

(** The stream callback is absent or does not throw. *)
Definition quiet (input : AgentInput) : Prop :=
  forall callback x, onStreamChunk input = Some callback -> callback x = None.

(** The loop lines of the console: iteration number and action. *)
Fixpoint loops (l : list ConsoleEntry) : list (nat * RouterAction) :=
  match l with
  | [] => []
  | LogLoop n a :: l' => (n, a) :: loops l'
  | LogError _ :: l' => loops l'
  end.

(** The locals when the loop is entered. *)
Definition entryState (input : AgentInput) : State :=
  {| routing := route (prompt input) (id (user input)) (apiKey input)
                  match files input with
                  | Some fs => List.length fs
                  | None => 0
                  end;
     finalResponseText := [];
     metadataPayload := {| payload_groundingMetadata := None;
                           payload_memoryToCreate := None |};
     currentAction := SIMPLE;
     currentPrompt := prompt input;
     loopCount := 0;
     generatedThisLoop := [];
     console := [];
     streamed := [] |}.

Definition dateTimeContextOf (env : Env) : jsstring :=
  lit "[CURRENT DATE & TIME]" ++ nl ++ formatTimestamp env ++ nl.

(** The state in which an iteration runs its case: counter incremented,
    loop line logged. *)
Definition entered (st : State) : State :=
  set_console
    (console st ++ [LogLoop (S (loopCount st)) (currentAction st)])
    (set_loopCount (S (loopCount st)) st).

(** [routes input st a p m]: from state [st], the tag detection re-routes
    to action [a] with prompt [p], cuts the text of the match [m] out of
    the response and continues the loop. *)
Definition routes (input : AgentInput) (st : State)
  (a : RouterAction) (p : jsstring) (m : MatchResult) : Prop :=
  let r := detectTags input st in
  snd r = Normal Continue
  /\ currentAction (fst r) = a
  /\ currentPrompt (fst r) = p
  /\ finalResponseText (fst r) = replace (match0 m) [] (finalResponseText st)
  /\ generatedThisLoop (fst r) = generatedThisLoop st
  /\ memory (fst r) = memory st.

(** The state and result of the SIMPLE case when no tag is found. *)
Definition remembered (input : AgentInput) (st : State) : State :=
  if 50 <? List.length (generatedThisLoop st) then
    set_metadataPayload
      {| payload_groundingMetadata :=
           payload_groundingMetadata (metadataPayload st);
         payload_memoryToCreate := Some [lastTopic input] |} st
  else st.

(** The prompt the THINK branch takes from its match. *)
Definition thinkPrompt (input : AgentInput) (m : MatchResult) : jsstring :=
  match group1 m with
  | Some c => if truthy c then trim c else prompt input
  | None => prompt input
  end.

(** How the [try] block can end, with what it leaves in the state.  The
    parameter [fuel] is the number of iterations the model was given. *)
Inductive BodyOutcome (fuel : nat) (input : AgentInput)
  : State -> Completion (option AgentExecutionResult) -> Prop :=
| memory_fetch_threw st e :
    console st = [] -> currentAction st = SIMPLE -> memory st = None ->
    BodyOutcome fuel input st (Throw e)
| out_of_fuel_at_entry st :
    fuel = 0 ->
    console st = [] -> currentAction st = SIMPLE -> memory st = None ->
    BodyOutcome fuel input st (Normal None)
| simple_threw st e :
    console st = [LogLoop 1 SIMPLE] -> currentAction st = SIMPLE ->
    memory st = None ->
    BodyOutcome fuel input st (Throw e)
| simple_returned st :
    console st = [LogLoop 1 SIMPLE] -> currentAction st = SIMPLE ->
    noTag (generatedThisLoop st) ->
    memory st = (if 50 <? List.length (generatedThisLoop st)
                 then Some [lastTopic input] else None) ->
    BodyOutcome fuel input st
      (Normal (Some {| messages := [textMessage input st] |}))
| out_of_fuel_after_tag st :
    fuel = 1 ->
    console st = [LogLoop 1 SIMPLE] -> currentAction st <> SIMPLE ->
    matchFor (currentAction st) (generatedThisLoop st) <> None ->
    memory st = None ->
    BodyOutcome fuel input st (Normal None)
| rerouted st c :
    2 <= fuel ->
    console st = [LogLoop 1 SIMPLE; LogLoop 2 (currentAction st)] ->
    currentAction st <> SIMPLE ->
    matchFor (currentAction st) (generatedThisLoop st) <> None ->
    memory st = None ->
    c <> Normal None ->
    BodyOutcome fuel input st c.

Definition returns_result (input : AgentInput) (st : State)
  (r : option AgentExecutionResult) : Prop :=
  match r with
  | Some r => returns_message input st (Return r)
  | None => True
  end.

(** The order in which the tag branches are tried. *)
Definition priority : list RouterAction :=
  [DEEP_SEARCH; SEARCH; THINK; IMAGE; PROJECT; CANVAS; STUDY].

(** The actions tried before [a]. *)
Fixpoint before (a : RouterAction) (l : list RouterAction)
  : list RouterAction :=
  match l with
  | [] => []
  | b :: l' => if RouterAction_eqb a b then [] else b :: before a l'
  end.

(** The first action of [l] whose pattern matches, with its match. *)
Fixpoint selected (l : list RouterAction) (g : jsstring)
  : option (RouterAction * MatchResult) :=
  match l with
  | [] => None
  | a :: l' =>
      match matchFor a g with
      | Some m => Some (a, m)
      | None => selected l' g
      end
  end.

(** The prompt a branch takes from its match. *)
Definition promptOf (input : AgentInput) (a : RouterAction) (m : MatchResult)
  : jsstring :=
  match a with
  | THINK => thinkPrompt input m
  | _ => String_of (group1 m)
  end.

(** The tag pair of an action, for the six actions that need both tags. *)
Definition tagOf (a : RouterAction) : option (string * string) :=
  match a with
  | SEARCH => Some ("<SEARCH>", "</SEARCH>")
  | DEEP_SEARCH => Some ("<DEEP>", "</DEEP>")
  | IMAGE => Some ("<IMAGE>", "</IMAGE>")
  | PROJECT => Some ("<PROJECT>", "</PROJECT>")
  | CANVAS => Some ("<CANVAS>", "</CANVAS>")
  | STUDY => Some ("<STUDY>", "</STUDY>")
  | THINK | SIMPLE => None
  end%string.

(** [s.includes(x)] *)
Fixpoint includesb (x s : jsstring) : bool :=
  match strip_prefix N.eqb x s with
  | Some _ => true
  | None =>
      match s with
      | [] => false
      | _ :: s' => includesb x s'
      end
  end.

(** What the text must contain for the detection to switch to [a]. *)
Definition tagEvidence (a : RouterAction) (g : jsstring) : Prop :=
  match a with
  | THINK => includes (lit "<THINK>") g
  | DEEP_SEARCH =>
      (exists cap, includes (lit "<DEEP>" ++ cap ++ lit "</DEEP>") g)
      \/ (exists o ws cap c,
            eq_ci (lit "<SEARCH>deep") o
            /\ ws <> [] /\ Forall (fun x => isSpace x = true) ws
            /\ eq_ci (lit "</SEARCH>") c
            /\ includes (o ++ ws ++ cap ++ c) g)
  | SIMPLE => False
  | _ =>
      match tagOf a with
      | Some (o, c) => exists cap, includes (lit o ++ cap ++ lit c) g
      | None => False
      end
  end.

(** The citation chunks a stream chunk carries:
    [chunk.candidates?.[0].groundingMetadata.groundingChunks]. *)
Definition citations (chunk : Chunk) : list GroundingChunk :=
  match candidate0 chunk with
  | Some candidate =>
      match candidate_groundingMetadata candidate with
      | Some gm =>
          match groundingChunks gm with
          | Some gcs => gcs
          | None => []
          end
      | None => []
      end
  | None => []
  end.

(** The text of a chunk, when it is truthy. *)
Definition textOf (chunk : Chunk) : jsstring :=
  match chunk_text chunk with
  | Some t => t
  | None => []
  end.

(* ----------------------------------------------------------------- *)
(** *** Sample collaborators, for the concrete runs below *)

Module Sample.

Definition says (s : string) : Chunk :=
  {| chunk_text := Some (lit s); candidates := None |}.

(** An environment whose conversational model answers [reply]; the search
    model answers "found it", the other models "other". *)
Definition env (reply : list Chunk) (image : Completion jsstring)
  (context : Completion jsstring) : Env :=
  {| autonomousInstruction := lit "You are Bubble.";
     formatTimestamp := lit "Sunday";
     getUserFriendlyError :=
       fun e => match e with ErrorObject m => m | Thrown v => v end;
     getContext := fun _ => context;
     JSON_quote := fun s => dquote ++ s ++ dquote;
     generateContentStream := fun r =>
       if str_eqb (model r) (lit "gemini-2.0-flash-exp") then
         match contents r with
         | ContentsList _ => Normal {| chunks := reply; failure := None |}
         | ContentsText _ =>
             Normal {| chunks := [says "found it"]; failure := None |}
         end
       else Normal {| chunks := [says "other"]; failure := None |};
     generateContent := fun _ => Normal (Some (lit "{}"));
     deepResearch := fun q =>
       ([lit "step"],
        Normal {| answer := lit "answer to " ++ q; sources := [lit "a"] |});
     incrementThinkingCount := fun _ => Normal tt;
     generateImage := fun _ _ _ => image;
     readAsBase64 := fun _ => Normal (lit "AAAA") |}.

Definition input : AgentInput :=
  {| prompt := lit "hello";
     files := None;
     apiKey := lit "k";
     project := {| id := lit "p1" |};
     chat := {| id := lit "c1" |};
     history := [];
     user := {| id := lit "u" |};
     profile := None;
     onStreamChunk := Some (fun _ => None) |}.

Definition ok : Completion jsstring := Normal (lit "{}").

End Sample.

(** Both text accumulators unchanged. *)
Definition R_sametext (st st' : State) : Prop :=
  generatedThisLoop st' = generatedThisLoop st
  /\ finalResponseText st' = finalResponseText st.

(** The state after [onStreamChunk?.(x)] when the callback returns. *)
Definition emitted (input : AgentInput) (x : jsstring) (st : State) : State :=
  match onStreamChunk input with
  | Some _ => set_streamed (streamed st ++ [x]) st
  | None => st
  end.

(* ----------------------------------------------------------------- *)
(** *** Vocabulary of the further properties *)

(** The texts of a stream that the loops act on: [chunk.text] of every
    chunk where it is truthy, in order. *)
Definition texts (response : Stream) : list jsstring :=
  flat_map (fun c => if truthy (textOf c) then [textOf c] else [])
    (chunks response).

(** [userParts] after reading the files [fs] with payloads [datas]: each
    file was put in front of what was there. *)
Definition inlineParts (fs : list File) (datas : list jsstring) : list Part :=
  rev (List.map (fun fd => InlineData (snd fd) (file_type (fst fd)))
         (combine fs datas)).

(** Whether a chunk has a [groundingChunks] array to capture (an empty
    array counts). *)
Definition hasGroundingChunks (chunk : Chunk) : bool :=
  match candidate0 chunk with
  | Some candidate =>
      match candidate_groundingMetadata candidate with
      | Some gm =>
          match groundingChunks gm with
          | Some _ => true
          | None => false
          end
      | None => false
      end
  | None => false
  end.

Definition isSome {A} (o : option A) : bool :=
  match o with
  | Some _ => true
  | None => false
  end.

(** The request of the streaming cases other than SIMPLE. *)
Definition hopRequest (env : Env) (input : AgentInput)
  (memoryContext dateTimeContext : jsstring)
  (a : RouterAction) (currentPrompt : jsstring) : option Request :=
  match a with
  | SEARCH => Some (searchRequest env dateTimeContext currentPrompt)
  | THINK =>
      Some (thinkRequest env input memoryContext dateTimeContext currentPrompt)
  | CANVAS => Some (canvasRequest currentPrompt)
  | STUDY => Some (studyRequest currentPrompt)
  | _ => None
  end.

(** The same input without a stream callback. *)
Definition unhooked (input : AgentInput) : AgentInput :=
  {| prompt := prompt input;
     files := files input;
     apiKey := apiKey input;
     project := project input;
     chat := chat input;
     history := history input;
     user := user input;
     profile := profile input;
     onStreamChunk := None |}.

(** A state with the record of the chunks handed to the callback erased. *)
Definition hush (st : State) : State := set_streamed [] st.

(** [mute m1 m2]: [m2] does on the erased state what [m1] does, up to the
    record of the chunks handed to the callback. *)
Definition mute {A} (m1 m2 : M A) : Prop :=
  forall st,
    fst (m2 (hush st)) = hush (fst (m1 st))
    /\ snd (m2 (hush st)) = snd (m1 st).

(** Whether [metadataPayload.groundingMetadata] has been created. *)
Definition present (st : State) : bool :=
  isSome (payload_groundingMetadata (metadataPayload st)).

(** The chunks of a stream, without its failure. *)
Definition delivered (response : Stream) : Stream :=
  {| chunks := chunks response; failure := None |}.

(** The sample environment with every stream request answered by
    [response]. *)
Definition answering (response : Stream) : Env :=
  let base := Sample.env [] Sample.ok Sample.ok in
  {| autonomousInstruction := autonomousInstruction base;
     formatTimestamp := formatTimestamp base;
     getUserFriendlyError := getUserFriendlyError base;
     getContext := getContext base;
     JSON_quote := JSON_quote base;
     generateContentStream := fun _ => Normal response;
     generateContent := generateContent base;
     deepResearch := deepResearch base;
     incrementThinkingCount := incrementThinkingCount base;
     generateImage := generateImage base;
     readAsBase64 := readAsBase64 base |}.

(* ================================================================= *)
(** ** Facts about strings and patterns *)

Lemma str_eqb_eq (a b : jsstring) : str_eqb a b = true <-> a = b.
Proof.
  revert b; induction a as [|x a IH]; intros [|y b]; simpl;
    try (split; [discriminate | discriminate]); try tauto.
  rewrite andb_true_iff, N.eqb_eq, IH.
  split; [intros [-> ->]; reflexivity | intros H; inversion H; auto].
Qed.

Lemma trimStart_nil (s : jsstring) : trimStart s = [] <-> blank s = true.
Proof.
  unfold blank; induction s as [|c s IH]; simpl; [tauto|].
  destruct (isSpace c); simpl; [exact IH | split; discriminate].
Qed.

Lemma blank_trimStart (s : jsstring) :
  blank (trimStart s) = true -> trimStart s = [].
Proof.
  unfold blank; induction s as [|c s IH]; simpl; [reflexivity|].
  destruct (isSpace c) eqn:E; simpl; [exact IH|].
  rewrite E; discriminate.
Qed.

Lemma blank_rev (s : jsstring) : blank (rev s) = blank s.
Proof.
  unfold blank.
  destruct (forallb isSpace s) eqn:E.
  - rewrite forallb_forall in *; intros x Hx; apply E, in_rev, Hx.
  - destruct (forallb isSpace (rev s)) eqn:E'; [|reflexivity].
    rewrite <- E; symmetry; rewrite forallb_forall in *.
    intros x Hx; apply E'; rewrite <- in_rev; exact Hx.
Qed.

(** [trim] leaves nothing exactly on blank texts. *)
Lemma trim_nil (s : jsstring) : trim s = [] <-> blank s = true.
Proof.
  unfold trim, trimEnd; split; intros H.
  - apply trimStart_nil.
    apply (f_equal (@rev char)) in H; rewrite rev_involutive in H; simpl in H.
    apply trimStart_nil in H; rewrite blank_rev in H.
    apply blank_trimStart, H.
  - apply trimStart_nil in H; rewrite H; reflexivity.
Qed.

Lemma strip_prefix_sound eq p : forall s m rest,
  strip_prefix eq p s = Some (m, rest) -> s = m ++ rest /\ agree eq p m.
Proof.
  induction p as [|a p IH]; simpl; intros s m rest H.
  - inversion H; subst; split; [reflexivity | constructor].
  - destruct s as [|b s]; [discriminate|].
    destruct (eq a b) eqn:E; [|discriminate].
    destruct (strip_prefix eq p s) as [[m' rest']|] eqn:E'; [|discriminate].
    inversion H; subst; destruct (IH _ _ _ E') as [-> Hm].
    split; [reflexivity | constructor; assumption].
Qed.

Lemma strip_prefix_complete eq p m rest :
  agree eq p m -> strip_prefix eq p (m ++ rest) = Some (m, rest).
Proof.
  induction 1 as [|a b p m Hab _ IH]; simpl; [reflexivity|].
  rewrite Hab, IH; reflexivity.
Qed.

Lemma agree_eqb p m : agree N.eqb p m <-> m = p.
Proof.
  split.
  - induction 1 as [|a b p m Hab _ IH]; [reflexivity|].
    apply N.eqb_eq in Hab; subst; reflexivity.
  - intros ->; induction p; constructor; [apply N.eqb_refl | assumption].
Qed.

(** Removing the first occurrence of [pat]: when [pat] does not occur at
    an earlier position, [replace] cuts it out where it stands. *)
Lemma replace_first_occurrence pat post : forall pre,
  (forall p1 p2, pre = p1 ++ p2 -> p2 <> [] ->
     strip_prefix N.eqb pat (p2 ++ pat ++ post) = None) ->
  replace pat [] (pre ++ pat ++ post) = pre ++ post.
Proof.
  induction pre as [|c pre IH]; intros H.
  - simpl app at 1. destruct (pat ++ post) as [|x l] eqn:E.
    + destruct pat; [|discriminate]. simpl in E; subst. reflexivity.
    + rewrite <- E. 
      assert (Hs : strip_prefix N.eqb pat (pat ++ post) = Some (pat, post))
        by (apply strip_prefix_complete, agree_eqb; reflexivity).
      rewrite E in *. simpl. simpl in Hs. rewrite Hs. reflexivity.
  - assert (Hn := H [] (c :: pre) eq_refl ltac:(discriminate)).
    simpl in *. rewrite Hn. f_equal. apply IH.
    intros p1 p2 -> Hp2. apply (H (c :: p1) p2 eq_refl Hp2).
Qed.

Section LoopFacts.
Variable ic : bool.
Variable r : list atom.
Variable k : jsstring -> option (jsstring * list jsstring).

Hypothesis k_sound : forall s m gs,
  k s = Some (m, gs) -> Matches ic r m gs /\ exists rest, s = m ++ rest.

Lemma greedy_spaces_sound : forall s m gs,
  greedy_spaces k s = Some (m, gs) ->
  Matches ic (Spaces1 :: r) m gs /\ exists rest, s = m ++ rest.
Proof.
  induction s as [|c s IH]; simpl; intros m gs H; [discriminate|].
  destruct (isSpace c) eqn:Hc; [|discriminate].
  destruct (greedy_spaces k s) as [[m' gs']|] eqn:Hg.
  - inversion H; subst; clear H.
    destruct (IH _ _ eq_refl) as [HM [rest ->]].
    split; [|exists rest; reflexivity].
    inversion HM; subst.
    change (c :: sp ++ w) with ((c :: sp) ++ w).
    constructor; [discriminate | constructor; assumption | assumption].
  - destruct (k s) as [[m' gs']|] eqn:Hk; [|discriminate].
    inversion H; subst; clear H.
    destruct (k_sound _ _ _ Hk) as [HM [rest ->]].
    split; [|exists rest; reflexivity].
    change (c :: m') with ([c] ++ m').
    constructor; [discriminate | repeat constructor; assumption | assumption].
Qed.

Lemma lazy_dots_sound : forall s cap m gs,
  lazy_dots k s = Some (cap, m, gs) ->
  Forall (fun c => isDot c = true) cap /\ Matches ic r m gs
  /\ exists rest, s = cap ++ m ++ rest.
Proof.
  induction s as [|c s IH]; simpl; intros cap m gs H.
  - destruct (k []) as [[m' gs']|] eqn:Hk; [|discriminate].
    inversion H; subst; destruct (k_sound _ _ _ Hk) as [HM [rest Hr]].
    split; [constructor | split; [assumption | exists rest; exact Hr]].
  - destruct (k (c :: s)) as [[m' gs']|] eqn:Hk.
    + inversion H; subst; destruct (k_sound _ _ _ Hk) as [HM [rest Hr]].
      split; [constructor | split; [assumption | exists rest; exact Hr]].
    + destruct (isDot c) eqn:Hc; [|discriminate].
      destruct (lazy_dots k s) as [[[cap' m'] gs']|] eqn:Hl; [|discriminate].
      inversion H; subst; clear H.
      destruct (IH _ _ _ eq_refl) as [Hcap [HM [rest ->]]].
      split; [constructor; assumption|].
      split; [assumption | exists rest; reflexivity].
Qed.

Lemma greedy_spaces_complete sp tail :
  k tail <> None ->
  sp <> [] -> Forall (fun c => isSpace c = true) sp ->
  greedy_spaces k (sp ++ tail) <> None.
Proof.
  intros Hk Hne Hsp; induction Hsp as [|c sp Hc Hsp IH]; [congruence|].
  simpl; rewrite Hc.
  destruct (greedy_spaces k (sp ++ tail)) as [[m gs']|] eqn:Hg;
    [discriminate|].
  destruct sp as [|c' sp].
  - simpl in *. destruct (k tail) as [[m gs']|]; [discriminate | congruence].
  - exfalso; apply IH; [discriminate | reflexivity].
Qed.

Lemma lazy_dots_complete cap tail :
  k tail <> None ->
  Forall (fun c => isDot c = true) cap ->
  lazy_dots k (cap ++ tail) <> None.
Proof.
  intros Hk Hcap; induction Hcap as [|c cap Hc Hcap IH].
  - simpl app. destruct tail as [|x l]; simpl;
      destruct (k _) as [[m gs']|]; try discriminate; congruence.
  - simpl. destruct (k (c :: cap ++ tail)) as [[m gs']|]; [discriminate|].
    rewrite Hc.
    destruct (lazy_dots k (cap ++ tail)) as [[[cap' m'] gs']|];
      [discriminate | exact IH].
Qed.
End LoopFacts.

(** The matcher only accepts what the declarative reading accepts... *)
Lemma match_here_sound ic : forall r s m gs,
  match_here ic r s = Some (m, gs) ->
  Matches ic r m gs /\ exists rest, s = m ++ rest.
Proof.
  induction r as [|a r IH]; simpl; intros s m gs H.
  - inversion H; subst; split; [constructor | exists s; reflexivity].
  - destruct a.
    + destruct (strip_prefix (char_eq ic) s0 s) as [[m1 rest1]|] eqn:Hs;
        [|discriminate].
      destruct (match_here ic r rest1) as [[m2 gs2]|] eqn:Hm; [|discriminate].
      inversion H; subst; clear H.
      destruct (strip_prefix_sound _ _ _ _ _ Hs) as [-> Hag].
      destruct (IH _ _ _ Hm) as [HM [rest ->]].
      split; [constructor; assumption|].
      exists rest; rewrite app_assoc; reflexivity.
    + eapply greedy_spaces_sound; [exact IH | exact H].
    + destruct (lazy_dots (match_here ic r) s) as [[[cap m'] gs']|] eqn:Hl;
        [|discriminate].
      inversion H; subst; clear H.
      destruct (lazy_dots_sound ic r _ IH _ _ _ _ Hl) as [Hcap [HM [rest ->]]].
      split; [constructor; assumption|].
      exists rest; rewrite app_assoc; reflexivity.
Qed.

(** ... and, by backtracking, finds a match whenever there is one. *)
Lemma match_here_complete ic r w gs :
  Matches ic r w gs -> forall rest, match_here ic r (w ++ rest) <> None.
Proof.
  induction 1 as [|p r m w gs Hag HM IH|r sp w gs Hne Hsp HM IH
                  |r cap w gs Hcap HM IH]; intros rest; simpl.
  - discriminate.
  - rewrite <- app_assoc, (strip_prefix_complete _ _ _ (w ++ rest) Hag).
    specialize (IH rest).
    destruct (match_here ic r (w ++ rest)) as [[m2 gs2]|];
      [discriminate | exact IH].
  - rewrite <- app_assoc.
    apply greedy_spaces_complete; auto.
  - rewrite <- app_assoc.
    pose proof (lazy_dots_complete (match_here ic r) cap (w ++ rest)
                  (IH rest) Hcap) as Hl.
    destruct (lazy_dots (match_here ic r) (cap ++ w ++ rest)) as [[[c m] g]|];
      [discriminate | congruence].
Qed.

Lemma exec_from_sound r : forall s i mr,
  exec_from r s i = Some mr ->
  exists pre post,
    s = pre ++ match0 mr ++ post
    /\ index mr = i + List.length pre
    /\ Matches (ignoreCase r) (atoms r) (match0 mr) (groups mr)
    /\ (forall p1 p2, pre = p1 ++ p2 -> p2 <> [] ->
          match_here (ignoreCase r) (atoms r) (p2 ++ match0 mr ++ post) = None).
Proof.
  induction s as [|c s IH]; intros i mr H; simpl in H.
  - destruct (match_here _ _ []) as [[m gs]|] eqn:Hm; [|discriminate].
    inversion H; subst; clear H; simpl.
    destruct (match_here_sound _ _ _ _ _ Hm) as [HM [rest Hr]].
    exists [], rest; simpl; repeat split; auto.
    intros p1 p2 Hp; destruct p1, p2; try discriminate; congruence.
  - destruct (match_here _ _ (c :: s)) as [[m gs]|] eqn:Hm.
    + inversion H; subst; clear H; simpl.
      destruct (match_here_sound _ _ _ _ _ Hm) as [HM [rest Hr]].
      exists [], rest; simpl; repeat split; auto.
      intros p1 p2 Hp; destruct p1, p2; try discriminate; congruence.
    + destruct (IH _ _ H) as (pre & post & -> & Hi & HM & Hleft).
      exists (c :: pre), post; simpl; repeat split; auto; [lia|].
      intros [|x p1] p2 Hp Hne; simpl in Hp.
      * subst p2; exact Hm.
      * inversion Hp; subst; apply (Hleft p1 p2 eq_refl Hne).
Qed.

Lemma exec_from_complete r w gs post :
  Matches (ignoreCase r) (atoms r) w gs ->
  forall pre i, exec_from r (pre ++ w ++ post) i <> None.
Proof.
  intros HM; induction pre as [|c pre IH]; intros i.
  - simpl app. pose proof (match_here_complete _ _ _ _ HM post) as Hc.
    destruct (w ++ post) as [|x l]; simpl;
      destruct (match_here _ _ _) as [[m g]|]; congruence.
  - simpl. destruct (match_here _ _ _) as [[m g]|]; [discriminate | apply IH].
Qed.

(** What [match] found is where [replace] cuts: the leftmost match is
    also the first occurrence of the matched text. *)
Lemma String_match_replace s r mr :
  String_match s r = Some mr ->
  exists pre post,
    s = pre ++ match0 mr ++ post
    /\ List.length pre = index mr
    /\ Matches (ignoreCase r) (atoms r) (match0 mr) (groups mr)
    /\ replace (match0 mr) [] s = pre ++ post.
Proof.
  intros H; destruct (exec_from_sound _ _ _ _ H) as (pre & post & -> & Hi & HM & Hl).
  exists pre, post; repeat split; auto.
  apply replace_first_occurrence; intros p1 p2 Hp Hne.
  destruct (strip_prefix N.eqb (match0 mr) (p2 ++ match0 mr ++ post))
    as [[m rest]|] eqn:Hs; [exfalso | reflexivity].
  destruct (strip_prefix_sound _ _ _ _ _ Hs) as [Heq Hag].
  apply agree_eqb in Hag; subst m.
  pose proof (match_here_complete _ _ _ _ HM rest) as Hc.
  rewrite <- Heq, (Hl p1 p2 Hp Hne) in Hc; congruence.
Qed.

Lemma String_match_found s r w gs pre post :
  s = pre ++ w ++ post -> Matches (ignoreCase r) (atoms r) w gs ->
  String_match s r <> None.
Proof. intros -> HM; apply (exec_from_complete _ _ _ _ HM). Qed.

(** The shape of a tag pair match. *)
Lemma Matches_tagPair o c w gs :
  Matches false (atoms (tagPair o c)) w gs ->
  exists cap, w = lit o ++ cap ++ lit c /\ gs = [cap]
              /\ Forall (fun x => isDot x = true) cap.
Proof.
  simpl; intros H.
  inversion H as [|p r m w1 gs1 Hag H1| |]; subst; clear H.
  inversion H1 as [| | |r cap w2 gs2 Hcap H2]; subst; clear H1.
  inversion H2 as [|p r m2 w3 gs3 Hag2 H3| |]; subst; clear H2.
  inversion H3; subst; clear H3.
  apply agree_eqb in Hag, Hag2; subst.
  exists cap; rewrite app_nil_r; auto.
Qed.

(* ================================================================= *)
(** ** Rules for [keeps] and [post] *)

Section KeepsRules.
Variable R : State -> State -> Prop.
Hypothesis R_refl : forall st, R st st.
Hypothesis R_trans : forall a b c, R a b -> R b c -> R a c.

Lemma keeps_ret {A} (a : A) : keeps R (ret a).
Proof. intros st; apply R_refl. Qed.

Lemma keeps_throw {A} (e : Exn) : keeps R (@throw A e).
Proof. intros st; apply R_refl. Qed.

Lemma keeps_get : keeps R get.
Proof. intros st; apply R_refl. Qed.

Lemma keeps_await {A} (c : Completion A) : keeps R (await c).
Proof. intros st; apply R_refl. Qed.

Lemma keeps_modify (f : State -> State) :
  (forall st, R st (f st)) -> keeps R (modify f).
Proof. intros H st; apply H. Qed.

Lemma keeps_bind {A B} (m : M A) (f : A -> M B) :
  keeps R m -> (forall a, keeps R (f a)) -> keeps R (bind m f).
Proof.
  intros Hm Hf st; unfold bind.
  specialize (Hm st); destruct (m st) as [st' [a|e]]; simpl in *.
  - eapply R_trans; [exact Hm | apply Hf].
  - exact Hm.
Qed.

Lemma keeps_try_catch {A} (m : M A) (h : Exn -> M A) :
  keeps R m -> (forall e, keeps R (h e)) -> keeps R (try_catch m h).
Proof.
  intros Hm Hh st; unfold try_catch.
  specialize (Hm st); destruct (m st) as [st' [a|e]]; simpl in *.
  - exact Hm.
  - eapply R_trans; [exact Hm | apply Hh].
Qed.

Lemma keeps_for_of {A} (l : list A) (body : A -> M unit) :
  (forall x, keeps R (body x)) -> keeps R (for_of l body).
Proof.
  intros Hb; induction l as [|x l IH]; simpl.
  - apply keeps_ret.
  - apply keeps_bind; [apply Hb | intros _; exact IH].
Qed.

Lemma keeps_for_await (s : Stream) (body : Chunk -> M unit) :
  (forall x, keeps R (body x)) -> keeps R (for_await s body).
Proof.
  intros Hb; unfold for_await; apply keeps_bind.
  - apply keeps_for_of, Hb.
  - intros _; destruct (failure s); [apply keeps_throw | apply keeps_ret].
Qed.

Lemma keeps_readFiles env fs : forall parts, keeps R (readFiles env fs parts).
Proof.
  induction fs as [|f fs IH]; intros parts; simpl.
  - apply keeps_ret.
  - apply keeps_bind; [apply keeps_await | intros a; apply IH].
Qed.
End KeepsRules.

Lemma keeps_weaken (R1 R2 : State -> State -> Prop) {A} (m : M A) :
  (forall st st', R1 st st' -> R2 st st') -> keeps R1 m -> keeps R2 m.
Proof. intros H Hm st; apply H, Hm. Qed.

Lemma post_bind {A B} (Q : State -> B -> Prop) (m : M A) (f : A -> M B) :
  (forall a, post Q (f a)) -> post Q (bind m f).
Proof.
  intros Hf st; unfold bind.
  destruct (m st) as [st' [a|e]]; simpl; [apply Hf | exact I].
Qed.

Lemma post_throw {A} (Q : State -> A -> Prop) e : post Q (throw e).
Proof. intros st; exact I. Qed.

Lemma post_try_catch {A} (Q : State -> A -> Prop) (m : M A) h :
  post Q m -> (forall e, post Q (h e)) -> post Q (try_catch m h).
Proof.
  intros Hm Hh st; unfold try_catch.
  specialize (Hm st); destruct (m st) as [st' [a|e]]; simpl in *;
    [exact Hm | apply Hh].
Qed.

(* ----------------------------------------------------------------- *)
(** *** The three frames are preorders *)

Lemma R_loop_refl st : R_loop st st.
Proof. repeat split; apply incl_refl. Qed.

Lemma R_loop_trans a b c : R_loop a b -> R_loop b c -> R_loop a c.
Proof.
  unfold R_loop; intros (? & ? & I1) (? & ? & I2).
  repeat split; try congruence; eapply incl_tran; eassumption.
Qed.

Lemma R_turn_refl st : R_turn st st.
Proof. split; [apply R_loop_refl | repeat split]. Qed.

Lemma R_turn_trans a b c : R_turn a b -> R_turn b c -> R_turn a c.
Proof.
  unfold R_turn; intros (L1 & ? & ? & ? & ?) (L2 & ? & ? & ? & ?).
  split; [eapply R_loop_trans; eassumption | repeat split; congruence].
Qed.

Lemma R_frame_refl st : R_frame st st.
Proof.
  split; [apply R_turn_refl | split; [reflexivity|]].
  exists []; rewrite app_nil_r; reflexivity.
Qed.

Lemma R_frame_trans a b c : R_frame a b -> R_frame b c -> R_frame a c.
Proof.
  intros (T1 & G1 & t1 & F1) (T2 & G2 & t2 & F2).
  split; [eapply R_turn_trans; eassumption | split; [congruence|]].
  exists (t1 ++ t2); rewrite F2, F1, app_assoc; reflexivity.
Qed.

Lemma R_text_refl st : R_text st st.
Proof. exists []; rewrite !app_nil_r; split; reflexivity. Qed.

Lemma R_text_trans a b c : R_text a b -> R_text b c -> R_text a c.
Proof.
  intros (t1 & G1 & F1) (t2 & G2 & F2).
  exists (t1 ++ t2); rewrite G2, G1, F2, F1, !app_assoc; split; reflexivity.
Qed.

Lemma R_frame_turn st st' : R_frame st st' -> R_turn st st'.
Proof. intros [H _]; exact H. Qed.

Lemma R_turn_loop st st' : R_turn st st' -> R_loop st st'.
Proof. intros [H _]; exact H. Qed.

Create HintDb frames.

#[local] Hint Resolve R_loop_refl R_loop_trans R_turn_refl R_turn_trans
  R_frame_refl R_frame_trans R_text_refl R_text_trans : frames.


Ltac frame_solve :=
  unfold R_frame, R_turn, R_loop, R_text, memory, captured; simpl;
  repeat split;
  try reflexivity;
  try (apply incl_refl);
  try (eexists; reflexivity);
  try (exists []; rewrite ?app_nil_r; split; reflexivity);
  try (exists []; rewrite app_nil_r; reflexivity).

(** One step of the proof that a computation keeps a frame. *)
Ltac keeps_step :=
  match goal with
  | |- keeps _ (bind _ _) => apply keeps_bind; [eauto with frames | | intro]
  | |- keeps _ (ret _) => apply keeps_ret; eauto with frames
  | |- keeps _ (throw _) => apply keeps_throw; eauto with frames
  | |- keeps _ get => apply keeps_get; eauto with frames
  | |- keeps _ (await _) => apply keeps_await; eauto with frames
  | |- keeps _ (readFiles _ _ _) => apply keeps_readFiles; eauto with frames
  | |- keeps _ (for_of _ _) =>
      apply keeps_for_of; [eauto with frames | eauto with frames | intro]
  | |- keeps _ (for_await _ _) =>
      apply keeps_for_await; [eauto with frames | eauto with frames | intro]
  | |- keeps _ (try_catch _ _) =>
      apply keeps_try_catch; [eauto with frames | | intro]
  | |- keeps _ (modify _) => apply keeps_modify; intro; frame_solve
  | |- keeps _ (match ?x with _ => _ end) => destruct x
  | |- keeps _ (let (_, _) := ?x in _) => destruct x
  end.

Ltac keeps_auto := repeat keeps_step.

(* ----------------------------------------------------------------- *)
(** *** Frames of the building blocks *)

Lemma emit_frame input x : keeps R_frame (emit input x).
Proof. unfold emit; keeps_auto. Qed.

Lemma append_frame x : keeps R_frame (append_finalResponseText x).
Proof. unfold append_finalResponseText; keeps_auto. Qed.

Lemma captureGrounding_frame chunk : keeps R_frame (captureGrounding chunk).
Proof.
  unfold captureGrounding; keeps_auto.
  destruct (payload_groundingMetadata (metadataPayload st));
    [apply incl_appl, incl_refl | intros x []].
Qed.

Lemma return_text_frame input : keeps R_frame (return_text input).
Proof. unfold return_text; keeps_auto. Qed.

Lemma streamText_frame input s : keeps R_frame (streamText input s).
Proof.
  unfold streamText; keeps_auto;
    auto using emit_frame, append_frame with frames.
Qed.

#[local] Hint Resolve emit_frame append_frame captureGrounding_frame
  return_text_frame streamText_frame : frames.

Section CaseFrames.
Variable env : Env.
Variable input : AgentInput.
Variable memoryContext dateTimeContext : jsstring.

Lemma caseSEARCH_frame : keeps R_frame (caseSEARCH env input dateTimeContext).
Proof. unfold caseSEARCH, streamSearch; keeps_auto; auto with frames. Qed.

Lemma caseDEEP_SEARCH_frame : keeps R_frame (caseDEEP_SEARCH env input).
Proof. unfold caseDEEP_SEARCH; keeps_auto; auto with frames. Qed.

Lemma caseTHINK_frame :
  keeps R_frame (caseTHINK env input memoryContext dateTimeContext).
Proof. unfold caseTHINK; keeps_auto; auto with frames. Qed.

Lemma caseIMAGE_frame : keeps R_frame (caseIMAGE env input).
Proof. unfold caseIMAGE; keeps_auto; auto with frames. Qed.

Lemma caseCANVAS_frame : keeps R_frame (caseCANVAS env input).
Proof. unfold caseCANVAS; keeps_auto; auto with frames. Qed.

Lemma casePROJECT_frame : keeps R_frame (casePROJECT env input).
Proof. unfold casePROJECT; keeps_auto; auto with frames. Qed.

Lemma caseSTUDY_frame : keeps R_frame (caseSTUDY env input).
Proof. unfold caseSTUDY; keeps_auto; auto with frames. Qed.

(** The SIMPLE turn changes the texts, the stream and the citations only. *)
Lemma simpleTurn_turn :
  keeps R_turn (simpleTurn env input memoryContext dateTimeContext).
Proof.
  unfold simpleTurn, streamSimple; keeps_auto;
    try (eapply keeps_weaken; [exact R_frame_turn | auto with frames]).
Qed.

Lemma detectTags_loop : keeps R_loop (detectTags input).
Proof.
  unfold detectTags, reroute, return_text; keeps_auto.
Qed.

Lemma iteration_loop :
  keeps R_loop (iteration env input memoryContext dateTimeContext).
Proof.
  unfold iteration.
  apply keeps_bind;
    [exact R_loop_trans | apply keeps_get; exact R_loop_refl | intros st].
  destruct (currentAction st).
  1-7: eapply keeps_weaken;
    [intros ? ? H; exact (R_turn_loop _ _ (R_frame_turn _ _ H))|];
    auto using caseSEARCH_frame, caseDEEP_SEARCH_frame, caseTHINK_frame,
      caseIMAGE_frame, caseCANVAS_frame, casePROJECT_frame, caseSTUDY_frame.
  unfold caseSIMPLE; apply keeps_bind; [exact R_loop_trans | |].
  - eapply keeps_weaken; [exact R_turn_loop | apply simpleTurn_turn].
  - intros _; apply detectTags_loop.
Qed.
End CaseFrames.

(* ================================================================= *)
(** ** The loop *)

Section LoopLemmas.
Variable env : Env.
Variable input : AgentInput.
Variable memoryContext dateTimeContext : jsstring.

Abbreviation iter := (iteration env input memoryContext dateTimeContext).
Abbreviation loop := (agentLoop env input memoryContext dateTimeContext).

Lemma agentLoop_exit fuel st :
  MAX_LOOPS <= loopCount st ->
  loop fuel st = (st, Normal (Some {| messages := [textMessage input st] |})).
Proof.
  intros H; destruct fuel; simpl; unfold bind, get; simpl;
    apply Nat.ltb_ge in H; rewrite H; reflexivity.
Qed.

Lemma agentLoop_0 st :
  loopCount st < MAX_LOOPS -> loop 0 st = (st, Normal None).
Proof.
  intros H; simpl; unfold bind, get; simpl.
  apply Nat.ltb_lt in H; rewrite H; reflexivity.
Qed.

Lemma agentLoop_S fuel st :
  loopCount st < MAX_LOOPS ->
  loop (S fuel) st =
    match iter (entered st) with
    | (st', Normal (Return r)) => (st', Normal (Some r))
    | (st', Normal Continue) => loop fuel st'
    | (st', Throw e) => (st', Throw e)
    end.
Proof.
  intros H; simpl; unfold bind at 1, get; simpl.
  apply Nat.ltb_lt in H; rewrite H.
  unfold bind, modify, get, console_log, entered; simpl.
  destruct (iter _) as [st' [[|r]|e]]; reflexivity.
Qed.

(** Each iteration increments the counter and logs one line; nothing
    else writes either. *)
Lemma agentLoop_counts : forall fuel st,
  let st' := fst (loop fuel st) in
  loopCount st <= loopCount st'
  /\ (loopCount st <= MAX_LOOPS -> loopCount st' <= MAX_LOOPS)
  /\ exists l,
       console st' = console st ++ List.map (fun p => LogLoop (fst p) (snd p)) l
       /\ List.map fst l
          = seq (S (loopCount st)) (loopCount st' - loopCount st).
Proof.
  induction fuel as [|fuel IH]; intros st;
    destruct (Nat.lt_ge_cases (loopCount st) MAX_LOOPS) as [Hlt|Hge].
  - rewrite (agentLoop_0 _ Hlt); simpl.
    repeat split; auto. exists []; simpl.
    rewrite app_nil_r, Nat.sub_diag; auto.
  - rewrite (agentLoop_exit _ _ Hge); simpl.
    repeat split; auto. exists []; simpl.
    rewrite app_nil_r, Nat.sub_diag; auto.
  - rewrite (agentLoop_S _ _ Hlt).
    pose proof (iteration_loop env input memoryContext dateTimeContext
                  (entered st)) as (Hc & Hn & _).
    destruct (iter (entered st)) as [st1 [[|r]|e]]; simpl in Hc, Hn.
    + specialize (IH st1); simpl in IH.
      destruct IH as (H1 & H2 & l & Hl & Hs).
      rewrite Hn in *.
      repeat split; [lia | intros _; apply H2; lia |].
      exists ((S (loopCount st), currentAction st) :: l); simpl.
      rewrite Hl, Hc, <- app_assoc; simpl; split; [reflexivity|].
      rewrite Hs.
      replace (loopCount (fst (loop fuel st1)) - loopCount st)
        with (S (loopCount (fst (loop fuel st1)) - S (loopCount st))) by lia.
      reflexivity.
    + simpl. rewrite Hn, Hc.
      repeat split; [lia | intros _; lia |].
      exists [(S (loopCount st), currentAction st)].
      replace (S (loopCount st) - loopCount st) with 1 by lia.
      split; reflexivity.
    + simpl. rewrite Hn, Hc.
      repeat split; [lia | intros _; lia |].
      exists [(S (loopCount st), currentAction st)].
      replace (S (loopCount st) - loopCount st) with 1 by lia.
      split; reflexivity.
  - rewrite (agentLoop_exit _ _ Hge); simpl.
    repeat split; auto. exists []; simpl.
    rewrite app_nil_r, Nat.sub_diag; auto.
Qed.

(** With fuel for the iterations the condition still allows, the loop
    ends by a [return] or an exception. *)
Lemma agentLoop_terminates : forall fuel st,
  MAX_LOOPS - loopCount st <= fuel ->
  snd (loop fuel st) <> Normal None.
Proof.
  induction fuel as [|fuel IH]; intros st Hf;
    destruct (Nat.lt_ge_cases (loopCount st) MAX_LOOPS) as [Hlt|Hge];
    try (rewrite (agentLoop_exit _ _ Hge); simpl; discriminate).
  - lia.
  - rewrite (agentLoop_S _ _ Hlt).
    pose proof (iteration_loop env input memoryContext dateTimeContext
                  (entered st)) as (Hc & Hn & _).
    destruct (iter (entered st)) as [st1 [[|r]|e]]; simpl in Hc, Hn;
      try (simpl; discriminate).
    apply IH; rewrite Hn; lia.
Qed.
End LoopLemmas.

Lemma loops_app l1 l2 : loops (l1 ++ l2) = loops l1 ++ loops l2.
Proof.
  induction l1 as [|[n a|e] l1 IH]; simpl; [reflexivity | f_equal; exact IH | exact IH].
Qed.

Lemma loops_map l : loops (List.map (fun p => LogLoop (fst p) (snd p)) l) = l.
Proof. induction l as [|[n a] l IH]; simpl; [reflexivity | f_equal; exact IH]. Qed.

(** The [try] block: the memory fetch, then the loop from [entryState]. *)
Lemma agentBody_unfold fuel env input :
  agentBody fuel env input state0 =
    match getContext env allLayers with
    | Normal memoryContext =>
        agentLoop env input memoryContext (dateTimeContextOf env) fuel
          (entryState input)
    | Throw e => (set_routing (routing (entryState input)) state0, Throw e)
    end.
Proof.
  unfold agentBody, bind, modify, await, get; simpl.
  destruct (getContext env allLayers); reflexivity.
Qed.

Lemma run_unfold fuel env input :
  run fuel env input =
    match agentBody fuel env input state0 with
    | (st, Normal r) => (st, Normal r)
    | (st, Throw e) =>
        (set_console (console st ++ [LogError e]) st,
         Normal (Some (errorResult env input e)))
    end.
Proof.
  unfold run, runAutonomousAgent, try_catch.
  destruct (agentBody fuel env input state0) as [st [r|e]]; reflexivity.
Qed.

(* ================================================================= *)
(** ** Tag detection *)

Section DetectLemmas.
Variable input : AgentInput.
Variable st : State.
Let g := generatedThisLoop st.

Ltac run_detect :=
  unfold routes, detectTags, reroute, bind, get, modify, ret; simpl;
  fold g.

Lemma detect_DEEP m :
  deepMatch g = Some m ->
  routes input st DEEP_SEARCH (String_of (group1 m)) m.
Proof. intros H; run_detect; rewrite H; simpl; repeat split. Qed.

Lemma detect_SEARCH m :
  deepMatch g = None -> searchMatch g = Some m ->
  routes input st SEARCH (String_of (group1 m)) m.
Proof.
  intros H1 H2; run_detect; rewrite H1, H2; simpl; repeat split.
Qed.

Lemma detect_THINK m :
  deepMatch g = None -> searchMatch g = None -> thinkMatch g = Some m ->
  routes input st THINK (thinkPrompt input m) m.
Proof.
  intros H1 H2 H3; run_detect; rewrite H1, H2, H3; simpl; repeat split.
Qed.

Lemma detect_IMAGE m :
  deepMatch g = None -> searchMatch g = None -> thinkMatch g = None ->
  imageMatch g = Some m ->
  routes input st IMAGE (String_of (group1 m)) m
  /\ param_prompt (parameters (routing (fst (detectTags input st))))
     = Some (String_of (group1 m)).
Proof.
  intros H1 H2 H3 H4; run_detect; rewrite H1, H2, H3, H4; simpl;
    repeat split.
Qed.

Lemma detect_PROJECT m :
  deepMatch g = None -> searchMatch g = None -> thinkMatch g = None ->
  imageMatch g = None -> projectMatch g = Some m ->
  routes input st PROJECT (String_of (group1 m)) m.
Proof.
  intros H1 H2 H3 H4 H5; run_detect; rewrite H1, H2, H3, H4, H5; simpl;
    repeat split.
Qed.

Lemma detect_CANVAS m :
  deepMatch g = None -> searchMatch g = None -> thinkMatch g = None ->
  imageMatch g = None -> projectMatch g = None -> canvasMatch g = Some m ->
  routes input st CANVAS (String_of (group1 m)) m.
Proof.
  intros H1 H2 H3 H4 H5 H6; run_detect;
    rewrite H1, H2, H3, H4, H5, H6; simpl; repeat split.
Qed.

Lemma detect_STUDY m :
  deepMatch g = None -> searchMatch g = None -> thinkMatch g = None ->
  imageMatch g = None -> projectMatch g = None -> canvasMatch g = None ->
  studyMatch g = Some m ->
  routes input st STUDY (String_of (group1 m)) m.
Proof.
  intros H1 H2 H3 H4 H5 H6 H7; run_detect;
    rewrite H1, H2, H3, H4, H5, H6, H7; simpl; repeat split.
Qed.

Lemma detect_none :
  noTag g ->
  detectTags input st =
    (remembered input st,
     Normal (Return {| messages := [textMessage input (remembered input st)] |})).
Proof.
  intros H.
  pose proof (H DEEP_SEARCH) as H1; pose proof (H SEARCH) as H2;
  pose proof (H THINK) as H3; pose proof (H IMAGE) as H4;
  pose proof (H PROJECT) as H5; pose proof (H CANVAS) as H6;
  pose proof (H STUDY) as H7; simpl in *.
  unfold detectTags, bind, get, remembered, return_text; simpl; fold g.
  rewrite H1, H2, H3, H4, H5, H6, H7.
  destruct (50 <? List.length g); reflexivity.
Qed.

(** Either the first matching branch, in the order of the code,
    re-routes, or no pattern matches and the case returns. *)
Lemma detect_cases :
  (exists a p m, a <> SIMPLE /\ matchFor a g = Some m /\ routes input st a p m)
  \/ noTag g.
Proof.
  destruct (deepMatch g) as [m|] eqn:H1.
  { left; exists DEEP_SEARCH, (String_of (group1 m)), m.
    split; [discriminate | split; [exact H1 | apply detect_DEEP; auto]]. }
  destruct (searchMatch g) as [m|] eqn:H2.
  { left; exists SEARCH, (String_of (group1 m)), m.
    split; [discriminate | split; [exact H2 | apply detect_SEARCH; auto]]. }
  destruct (thinkMatch g) as [m|] eqn:H3.
  { left; exists THINK, (thinkPrompt input m), m.
    split; [discriminate | split; [exact H3 | apply detect_THINK; auto]]. }
  destruct (imageMatch g) as [m|] eqn:H4.
  { left; exists IMAGE, (String_of (group1 m)), m.
    split; [discriminate | split; [exact H4 | apply detect_IMAGE; auto]]. }
  destruct (projectMatch g) as [m|] eqn:H5.
  { left; exists PROJECT, (String_of (group1 m)), m.
    split; [discriminate | split; [exact H5 | apply detect_PROJECT; auto]]. }
  destruct (canvasMatch g) as [m|] eqn:H6.
  { left; exists CANVAS, (String_of (group1 m)), m.
    split; [discriminate | split; [exact H6 | apply detect_CANVAS; auto]]. }
  destruct (studyMatch g) as [m|] eqn:H7.
  { left; exists STUDY, (String_of (group1 m)), m.
    split; [discriminate | split; [exact H7 | apply detect_STUDY; auto]]. }
  right; intros []; simpl; assumption || reflexivity.
Qed.
End DetectLemmas.

(* ================================================================= *)
(** ** The shape of returned messages *)

Lemma return_text_post input : post (returns_message input) (return_text input).
Proof.
  intros st; simpl. exists (textMessage input st).
  split; [reflexivity | repeat split].
Qed.

Lemma post_get_ret {A} (Q : State -> A -> Prop) (f : State -> A) :
  (forall st, Q st (f st)) -> post Q (bind get (fun st => ret (f st))).
Proof. intros H st; apply H. Qed.

Ltac post_step :=
  match goal with
  | |- post _ (bind get _) =>
      first [apply post_get_ret; intro | apply post_bind; intro]
  | |- post _ (bind _ _) => apply post_bind; intro
  | |- post _ (try_catch _ _) => apply post_try_catch; [ | intro]
  | |- post _ (return_text _) => apply return_text_post
  | |- post _ (throw _) => apply post_throw
  | |- post _ (match ?x with _ => _ end) => destruct x
  end.

Section PostLemmas.
Variable env : Env.
Variable input : AgentInput.
Variable memoryContext dateTimeContext : jsstring.

Lemma detectTags_post : post (returns_message input) (detectTags input).
Proof.
  intros st.
  destruct (detect_cases input st) as [(a & p & m & _ & _ & H)|H].
  - destruct H as [H _]; rewrite H; exact I.
  - rewrite (detect_none input st H); simpl.
    eexists; split; [reflexivity | repeat split].
Qed.

Lemma iteration_post :
  post (returns_message input)
    (iteration env input memoryContext dateTimeContext).
Proof.
  unfold iteration; apply post_bind; intros st; destruct (currentAction st).
  - unfold caseSEARCH; repeat post_step.
  - unfold caseDEEP_SEARCH; repeat post_step.
  - unfold caseTHINK; repeat post_step.
  - unfold caseIMAGE; repeat post_step.
    simpl; eexists; split; [reflexivity | repeat split].
  - unfold caseCANVAS; repeat post_step.
  - unfold casePROJECT; repeat post_step.
  - unfold caseSTUDY; repeat post_step.
  - unfold caseSIMPLE; apply post_bind; intros _; apply detectTags_post.
Qed.

Lemma agentLoop_post : forall fuel,
  post (returns_result input)
    (agentLoop env input memoryContext dateTimeContext fuel).
Proof.
  induction fuel as [|fuel IH]; intros st;
    destruct (Nat.lt_ge_cases (loopCount st) MAX_LOOPS) as [Hlt|Hge];
    try (rewrite (agentLoop_exit _ _ _ _ _ _ Hge); simpl;
         eexists; split; [reflexivity | repeat split]).
  - rewrite (agentLoop_0 _ _ _ _ _ Hlt); exact I.
  - rewrite (agentLoop_S _ _ _ _ _ _ Hlt).
    pose proof (iteration_post (entered st)) as Hp.
    destruct (iteration _ _ _ _ (entered st)) as [st1 [[|r]|e]]; simpl in *.
    + apply IH.
    + exact Hp.
    + exact I.
Qed.
End PostLemmas.

Lemma agentBody_post fuel env input :
  match snd (agentBody fuel env input state0) with
  | Normal r => returns_result input (fst (agentBody fuel env input state0)) r
  | Throw _ => True
  end.
Proof.
  rewrite agentBody_unfold.
  destruct (getContext env allLayers) as [mem|e]; [|exact I].
  apply agentLoop_post.
Qed.

(* ================================================================= *)
(** ** The run as a whole *)

Section RunLemmas.
Variable env : Env.
Variable input : AgentInput.
Variable memoryContext dateTimeContext : jsstring.

Abbreviation iter' := (iteration env input memoryContext dateTimeContext).

Lemma iteration_eq st :
  iter' st =
    match currentAction st with
    | SEARCH => caseSEARCH env input dateTimeContext
    | DEEP_SEARCH => caseDEEP_SEARCH env input
    | THINK => caseTHINK env input memoryContext dateTimeContext
    | IMAGE => caseIMAGE env input
    | CANVAS => caseCANVAS env input
    | PROJECT => casePROJECT env input
    | STUDY => caseSTUDY env input
    | SIMPLE => caseSIMPLE env input memoryContext dateTimeContext
    end st.
Proof. reflexivity. Qed.

(** Every case but SIMPLE only appends to the response. *)
Lemma iteration_frame st :
  currentAction st <> SIMPLE -> R_frame st (fst (iter' st)).
Proof.
  intros H; rewrite iteration_eq; destruct (currentAction st);
    try congruence;
    first [ apply caseSEARCH_frame | apply caseDEEP_SEARCH_frame
          | apply caseTHINK_frame | apply caseIMAGE_frame
          | apply caseCANVAS_frame | apply casePROJECT_frame
          | apply caseSTUDY_frame ].
Qed.

(** The three ways the SIMPLE case ends. *)
Lemma caseSIMPLE_outcome st :
  let r := caseSIMPLE env input memoryContext dateTimeContext st in
  match snd r with
  | Throw _ => R_turn st (fst r)
  | Normal Continue =>
      R_loop st (fst r)
      /\ currentAction (fst r) <> SIMPLE
      /\ matchFor (currentAction (fst r)) (generatedThisLoop (fst r)) <> None
      /\ memory (fst r) = memory st
  | Normal (Return res) =>
      exists st1, R_turn st st1
                  /\ noTag (generatedThisLoop st1)
                  /\ fst r = remembered input st1
                  /\ res = {| messages := [textMessage input (fst r)] |}
  end.
Proof.
  unfold caseSIMPLE, bind.
  pose proof (simpleTurn_turn env input memoryContext dateTimeContext st)
    as Ht.
  destruct (simpleTurn _ _ _ _ st) as [st1 [[]|e]]; simpl in Ht;
    [|exact Ht].
  destruct (detect_cases input st1) as [(a & p & m & Ha & Hm & H)|H].
  - destruct H as (Hc & Hact & Hp & Hf & Hg & Hmem).
    pose proof (detectTags_loop input st1) as Hl.
    rewrite Hc. rewrite Hact, Hg.
    destruct Ht as (Hl0 & _ & _ & _ & Hmem0).
    split; [eapply R_loop_trans; eassumption|].
    split; [exact Ha|].
    split; [rewrite Hm; discriminate | congruence].
  - rewrite (detect_none input st1 H); simpl.
    exists st1; split; [exact Ht | split; [exact H | split; reflexivity]].
Qed.
End RunLemmas.

Lemma remembered_fields input st :
  console (remembered input st) = console st
  /\ currentAction (remembered input st) = currentAction st
  /\ generatedThisLoop (remembered input st) = generatedThisLoop st
  /\ finalResponseText (remembered input st) = finalResponseText st
  /\ memory (remembered input st)
     = if 50 <? List.length (generatedThisLoop st)
       then Some [lastTopic input] else memory st.
Proof.
  unfold remembered; destruct (50 <? List.length (generatedThisLoop st));
    repeat split.
Qed.

(** Every run of the [try] block ends in one of the ways of
    [BodyOutcome]. *)
Lemma body_outcome fuel env input :
  BodyOutcome fuel input (fst (agentBody fuel env input state0))
    (snd (agentBody fuel env input state0)).
Proof.
  rewrite agentBody_unfold.
  destruct (getContext env allLayers) as [mem|e];
    [|apply memory_fetch_threw; reflexivity].
  set (dtc := dateTimeContextOf env).
  destruct fuel as [|fuel].
  { rewrite agentLoop_0 by (simpl; unfold MAX_LOOPS; lia).
    apply out_of_fuel_at_entry; reflexivity. }
  rewrite agentLoop_S by (simpl; unfold MAX_LOOPS; lia).
  set (st1 := entered (entryState input)).
  rewrite iteration_eq; change (currentAction st1) with SIMPLE; cbv iota.
  pose proof (caseSIMPLE_outcome env input mem dtc st1) as H; cbv zeta in H.
  destruct (caseSIMPLE env input mem dtc st1) as [st2 [[|r]|e]]; simpl in H.
  - (* a tag re-routed *)
    destruct H as ((Hc & Hn & _) & Ha & Hm & Hmem).
    destruct fuel as [|fuel].
    { rewrite agentLoop_0 by (rewrite Hn; simpl; unfold MAX_LOOPS; lia).
      apply out_of_fuel_after_tag; auto. }
    rewrite agentLoop_S by (rewrite Hn; simpl; unfold MAX_LOOPS; lia).
    assert (Ha' : currentAction (entered st2) <> SIMPLE) by exact Ha.
    pose proof (iteration_frame env input mem dtc (entered st2) Ha') as Hf.
    destruct Hf as [[(Hc3 & Hn3 & _) (Ha3 & _ & _ & Hm3)] [Hg3 _]].
    simpl in Hc3, Hn3, Ha3, Hm3, Hg3.
    assert (Hout : forall c, c <> Normal None ->
              BodyOutcome (S (S fuel)) input
                (fst (iteration env input mem dtc (entered st2))) c).
    { intros c Hc'. apply rerouted.
      - lia.
      - rewrite Hc3, Hc, Hn, Ha3; reflexivity.
      - rewrite Ha3; exact Ha.
      - rewrite Ha3, Hg3; exact Hm.
      - rewrite Hm3; exact Hmem.
      - exact Hc'. }
    destruct (iteration env input mem dtc (entered st2)) as [st3 [[|r]|e]];
      simpl in *.
    + rewrite agentLoop_exit by (rewrite Hn3, Hn; simpl; unfold MAX_LOOPS; lia).
      apply Hout; discriminate.
    + apply Hout; discriminate.
    + apply Hout; discriminate.
  - (* no tag: the SIMPLE case returned *)
    destruct H as (st' & Ht & Hno & -> & ->).
    destruct (remembered_fields input st') as (Hc & Ha & Hg & _ & Hmem).
    destruct Ht as ((Hc' & _ & _) & Ha' & _ & _ & Hmem').
    cbn [fst snd]; apply simple_returned.
    + rewrite Hc, Hc'; reflexivity.
    + rewrite Ha, Ha'; reflexivity.
    + rewrite Hg; exact Hno.
    + rewrite Hmem, Hg, Hmem'; reflexivity.
  - (* the SIMPLE case threw *)
    destruct H as ((Hc' & _ & _) & Ha' & _ & _ & Hmem').
    cbn [fst snd];
      apply simple_threw; [rewrite Hc' | rewrite Ha' | rewrite Hmem'];
      reflexivity.
Qed.

(* ================================================================= *)
(** ** Termination and counting *)

Lemma body_counts fuel env input :
  let st := fst (agentBody fuel env input state0) in
  loopCount st <= MAX_LOOPS
  /\ exists l,
       console st = List.map (fun p => LogLoop (fst p) (snd p)) l
       /\ List.map fst l = seq 1 (loopCount st).
Proof.
  rewrite agentBody_unfold.
  destruct (getContext env allLayers) as [mem|e]; simpl.
  - pose proof (agentLoop_counts env input mem (dateTimeContextOf env)
                  fuel (entryState input)) as (_ & H2 & l & Hl & Hs).
    simpl in *. split; [apply H2; unfold MAX_LOOPS; lia|].
    exists l; split; [exact Hl | rewrite Hs, Nat.sub_0_r; reflexivity].
  - split; [unfold MAX_LOOPS; lia | exists []; split; reflexivity].
Qed.

Lemma body_terminates fuel env input :
  snd (agentBody (MAX_LOOPS + fuel) env input state0) <> Normal None.
Proof.
  rewrite agentBody_unfold.
  destruct (getContext env allLayers) as [mem|e]; [|discriminate].
  apply agentLoop_terminates; simpl; lia.
Qed.

(** The function always returns a result: it neither runs forever nor
    lets an exception out. *)
Lemma run_returns fuel env input :
  exists r, snd (run (MAX_LOOPS + fuel) env input) = Normal (Some r).
Proof.
  rewrite run_unfold.
  pose proof (body_terminates fuel env input) as H.
  destruct (agentBody (MAX_LOOPS + fuel) env input state0) as [st [[r|]|e]];
    simpl in *; [exists r; reflexivity | congruence | eexists; reflexivity].
Qed.

(** C2. The re-routing loop of [runAutonomousAgent] runs at most
    [MAX_LOOPS = 2] iterations for every input: the counter is incremented
    and logged once per iteration (the loop lines of the console are
    numbered 1, 2, ... up to the final value of [loopCount]), it never
    exceeds [MAX_LOOPS], and with fuel for [MAX_LOOPS] iterations the
    function returns.  Hence at most one re-invocation after a tag. *)
Theorem C2_at_most_two_iterations fuel env input :
  let st := fst (run fuel env input) in
  MAX_LOOPS = 2
  /\ loopCount st <= MAX_LOOPS
  /\ List.map fst (loops (console st)) = seq 1 (loopCount st)
  /\ List.length (loops (console st)) <= 2
  /\ exists r, snd (run (MAX_LOOPS + fuel) env input) = Normal (Some r).
Proof.
  cbv zeta.
  assert (H : loopCount (fst (run fuel env input)) <= MAX_LOOPS
              /\ List.map fst (loops (console (fst (run fuel env input))))
                 = seq 1 (loopCount (fst (run fuel env input)))).
  { rewrite run_unfold.
    pose proof (body_counts fuel env input) as (Hle & l & Hl & Hs).
    destruct (agentBody fuel env input state0) as [st [r|e]]; simpl in *.
    - split; [exact Hle | rewrite Hl, loops_map; exact Hs].
    - split; [exact Hle|].
      rewrite loops_app, Hl, loops_map; simpl; rewrite app_nil_r; exact Hs. }
  destruct H as [Hle Hs].
  split; [reflexivity | split; [exact Hle | split; [exact Hs | split]]].
  - rewrite <- (length_map fst), Hs, length_seq; exact Hle.
  - apply run_returns.
Qed.

(** Fuel beyond what the loop uses changes nothing. *)
Lemma agentLoop_fuel env input mem dtc : forall fuel k st,
  snd (agentLoop env input mem dtc fuel st) <> Normal None ->
  agentLoop env input mem dtc (fuel + k) st
  = agentLoop env input mem dtc fuel st.
Proof.
  induction fuel as [|fuel IH]; intros k st H;
    destruct (Nat.lt_ge_cases (loopCount st) MAX_LOOPS) as [Hlt|Hge];
    try (rewrite !(agentLoop_exit _ _ _ _ _ _ Hge); reflexivity).
  - rewrite (agentLoop_0 _ _ _ _ _ Hlt) in H; simpl in H; congruence.
  - change (S fuel + k) with (S (fuel + k)).
    rewrite (agentLoop_S _ _ _ _ (fuel + k) _ Hlt).
    rewrite (agentLoop_S _ _ _ _ fuel _ Hlt) in *.
    destruct (iteration env input mem dtc (entered st)) as [st1 [[|r]|e]];
      try reflexivity.
    apply IH, H.
Qed.

Lemma run_fuel fuel env input :
  run (MAX_LOOPS + fuel) env input = run MAX_LOOPS env input.
Proof.
  rewrite !run_unfold.
  replace (agentBody (MAX_LOOPS + fuel) env input state0)
    with (agentBody MAX_LOOPS env input state0); [reflexivity|].
  pose proof (body_terminates 0 env input) as H; rewrite Nat.add_0_r in H.
  rewrite !agentBody_unfold in *.
  destruct (getContext env allLayers) as [mem|e]; [|reflexivity].
  symmetry; apply agentLoop_fuel, H.
Qed.

(* ================================================================= *)
(** ** The router and the first iteration *)

(** The loop lines of the console of a run. *)
Lemma run_loops fuel env input :
  let st := fst (run fuel env input) in
  loops (console st) = []
  \/ loops (console st) = [(1, SIMPLE)]
  \/ exists a,
       loops (console st) = [(1, SIMPLE); (2, a)]
       /\ a <> SIMPLE
       /\ matchFor a (generatedThisLoop st) <> None.
Proof.
  cbv zeta.
  assert (H : forall st c, BodyOutcome fuel input st c ->
            loops (console st) = []
            \/ loops (console st) = [(1, SIMPLE)]
            \/ exists a,
                 loops (console st) = [(1, SIMPLE); (2, a)]
                 /\ a <> SIMPLE
                 /\ matchFor a (generatedThisLoop st) <> None).
  { intros st c Ho; inversion Ho; subst;
      match goal with Hc : console st = _ |- _ => rewrite Hc end; simpl; auto.
    right; right; eexists; repeat split; eauto. }
  rewrite run_unfold.
  pose proof (body_outcome fuel env input) as Ho; apply H in Ho.
  destruct (agentBody fuel env input state0) as [st [r|e]]; simpl in *;
    [exact Ho|].
  rewrite loops_app; simpl; rewrite app_nil_r; exact Ho.
Qed.

(** C6. [route] ignores its arguments and returns the SIMPLE decision with
    empty parameters, confidence 1, quotaOK true and the eight memory
    layers.  Consequently the loop lines of the console of any run are
    empty (the memory fetch threw), or start with iteration 1 in SIMPLE
    mode; a second iteration runs in another mode, and only when the
    pattern of that mode matched the text generated by the SIMPLE
    iteration. *)
Theorem C6_route_defaults_to_SIMPLE :
  (forall query userId apiKey fileCount,
     route query userId apiKey fileCount =
       {| action := SIMPLE;
          parameters := {| param_prompt := None |};
          confidence := 1;
          memoryLayers :=
            [lit "inner_personal"; lit "outer_personal"; lit "interests";
             lit "preferences"; lit "custom"; lit "codebase";
             lit "aesthetic"; lit "project"];
          quotaOK := true;
          reasoning :=
            lit "Defaulting to conversation. Tags will trigger specific actions."
       |})
  /\ (forall fuel env input,
        let st := fst (run fuel env input) in
        loops (console st) = []
        \/ loops (console st) = [(1, SIMPLE)]
        \/ exists a,
             loops (console st) = [(1, SIMPLE); (2, a)]
             /\ a <> SIMPLE
             /\ matchFor a (generatedThisLoop st) <> None).
Proof. split; [reflexivity | exact run_loops]. Qed.

(* ================================================================= *)
(** ** The history sent to the model *)

Lemma hasText_toContent msg :
  hasText (toContent msg) = negb (blank (text msg)).
Proof.
  unfold hasText; simpl.
  destruct (blank (text msg)) eqn:E.
  - apply trim_nil in E; rewrite E; reflexivity.
  - destruct (str_eqb (trim (text msg)) []) eqn:E'; [|reflexivity].
    apply str_eqb_eq, trim_nil in E'; congruence.
Qed.

Lemma filter_map_swap {A B} (f : A -> B) (p : B -> bool) l :
  filter p (List.map f l) = List.map f (filter (fun x => p (f x)) l).
Proof.
  induction l as [|x l IH]; simpl; [reflexivity|].
  destruct (p (f x)); simpl; rewrite IH; reflexivity.
Qed.

(** C9. The history part of the message list sent to the model, in SIMPLE
    and in THINK mode, is the history in its original order without the
    messages whose text is blank (empty or white space only), each message
    mapped to one text part under role [RoleUser] when its sender is 'user'
    and role [RoleModel] otherwise; the list sent is this history followed by
    the current user turn. *)
Theorem C9_history_mapping env input memoryContext dateTimeContext :
  geminiHistory (history input)
  = List.map toContent
      (filter (fun msg => negb (blank (text msg))) (history input))
  /\ (forall msg,
        parts (toContent msg) = [TextPart (text msg)]
        /\ (role (toContent msg) = RoleUser <-> sender msg = lit "user")
        /\ (role (toContent msg) = RoleModel <-> sender msg <> lit "user"))
  /\ (forall userParts,
        contents (simpleRequest env input memoryContext dateTimeContext userParts)
        = ContentsList (geminiHistory (history input)
                        ++ [ {| role := RoleUser; parts := userParts |} ]))
  /\ (forall currentPrompt,
        contents (thinkRequest env input memoryContext dateTimeContext currentPrompt)
        = ContentsList
            (geminiHistory (history input)
             ++ [ {| role := RoleUser;
                     parts := [TextPart (contextBlock env memoryContext
                                           dateTimeContext currentPrompt)] |} ])).
Proof.
  split; [|split; [|split; intros; reflexivity]].
  - unfold geminiHistory; rewrite filter_map_swap.
    f_equal; apply filter_ext; intros msg; apply hasText_toContent.
  - intros msg; split; [reflexivity|].
    unfold toContent; simpl.
    destruct (str_eqb (sender msg) (lit "user")) eqn:E.
    + apply str_eqb_eq in E.
      split; split; intros; try reflexivity; try assumption;
        try discriminate; congruence.
    + assert (Hne : sender msg <> lit "user")
        by (intros Heq; apply str_eqb_eq in Heq; congruence).
      split; split; intros; try reflexivity; try assumption;
        try discriminate; congruence.
Qed.

(* ================================================================= *)
(** ** What the stream loops accumulate *)

Lemma for_of_accumulates {A X} (F : State -> list X) (h : A -> list X)
  (body : A -> M unit) :
  (forall x st, snd (body x st) = Normal tt ->
                F (fst (body x st)) = F st ++ h x) ->
  forall l st, snd (for_of l body st) = Normal tt ->
               F (fst (for_of l body st)) = F st ++ flat_map h l.
Proof.
  intros Hb; induction l as [|x l IH]; intros st H; simpl in *.
  - rewrite app_nil_r; reflexivity.
  - unfold bind in *. specialize (Hb x st).
    destruct (body x st) as [st1 [[]|e]]; simpl in *; [|discriminate].
    rewrite (IH st1 H), Hb, app_assoc; reflexivity.
Qed.

Lemma for_await_accumulates {X} (F : State -> list X) (h : Chunk -> list X)
  (body : Chunk -> M unit) (s : Stream) :
  (forall x st, snd (body x st) = Normal tt ->
                F (fst (body x st)) = F st ++ h x) ->
  forall st, snd (for_await s body st) = Normal tt ->
             F (fst (for_await s body st)) = F st ++ flat_map h (chunks s).
Proof.
  intros Hb st H; unfold for_await, bind in *.
  pose proof (for_of_accumulates F h body Hb (chunks s) st) as Hf.
  destruct (for_of (chunks s) body st) as [st1 [[]|e]]; simpl in *;
    [|discriminate].
  destruct (failure s); simpl in *; [discriminate | auto].
Qed.

Lemma captureGrounding_captured chunk st :
  snd (captureGrounding chunk st) = Normal tt
  /\ captured (fst (captureGrounding chunk st)) = captured st ++ citations chunk.
Proof.
  unfold captureGrounding, citations, captured.
  destruct (candidate0 chunk) as [cand|]; simpl;
    [|rewrite app_nil_r; auto].
  destruct (candidate_groundingMetadata cand) as [gm|]; simpl;
    [|rewrite app_nil_r; auto].
  destruct (groundingChunks gm) as [gcs|]; simpl;
    [|rewrite app_nil_r; auto].
  split; reflexivity.
Qed.

Lemma emit_payload input x st :
  metadataPayload (fst (emit input x st)) = metadataPayload st.
Proof.
  unfold emit; destruct (onStreamChunk input) as [cb|]; [|reflexivity].
  unfold bind, modify; simpl; destruct (cb x); reflexivity.
Qed.

Section CaptureLemmas.
Variable env : Env.
Variable input : AgentInput.
Variable memoryContext dateTimeContext : jsstring.

(** The SIMPLE loop captures the citations of the chunks that carry
    text, in order. *)
Lemma streamSimple_captured response st :
  snd (streamSimple input response st) = Normal tt ->
  captured (fst (streamSimple input response st))
  = captured st
    ++ flat_map (fun c => if truthy (textOf c) then citations c else [])
         (chunks response).
Proof.
  unfold streamSimple; apply for_await_accumulates.
  clear st; intros c st; unfold textOf.
  destruct (chunk_text c) as [t|]; simpl; [|rewrite app_nil_r; auto].
  destruct (truthy t); simpl; [|rewrite app_nil_r; auto].
  unfold bind, modify, append_finalResponseText; simpl.
  match goal with |- context [emit input t ?s] =>
    pose proof (emit_payload input t s) as He;
    destruct (emit input t s) as [st1 [[]|e]] end; simpl in *;
    [|discriminate].
  intros _. destruct (captureGrounding_captured c st1) as [_ Hc].
  rewrite Hc; unfold captured; rewrite He; reflexivity.
Qed.

(** The SEARCH loop captures the citations of every chunk, in order. *)
Lemma streamSearch_captured response st :
  snd (streamSearch input response st) = Normal tt ->
  captured (fst (streamSearch input response st))
  = captured st ++ flat_map citations (chunks response).
Proof.
  unfold streamSearch; apply for_await_accumulates.
  clear st; intros c st.
  set (textPart := match chunk_text c with
                   | Some t =>
                       if truthy t
                       then append_finalResponseText t ;; emit input t
                       else ret tt
                   | None => ret tt
                   end).
  assert (Hp : metadataPayload (fst (textPart st)) = metadataPayload st).
  { unfold textPart. destruct (chunk_text c) as [t|]; [|reflexivity].
    destruct (truthy t); [|reflexivity].
    unfold bind, append_finalResponseText, modify; simpl.
    match goal with |- context [emit input t ?s] =>
      pose proof (emit_payload input t s) as He;
      destruct (emit input t s) as [st2 [[]|e]] end; simpl in *; exact He. }
  unfold bind.
  destruct (textPart st) as [st1 [[]|e]]; simpl in *; [|discriminate].
  intros _. destruct (captureGrounding_captured c st1) as [_ Hc].
  rewrite Hc; unfold captured; rewrite Hp; reflexivity.
Qed.

Lemma agentLoop_keeps_citations : forall fuel st,
  incl (captured st)
    (captured (fst (agentLoop env input memoryContext dateTimeContext fuel st))).
Proof.
  induction fuel as [|fuel IH]; intros st;
    destruct (Nat.lt_ge_cases (loopCount st) MAX_LOOPS) as [Hlt|Hge];
    try (rewrite (agentLoop_exit _ _ _ _ _ _ Hge); apply incl_refl).
  - rewrite (agentLoop_0 _ _ _ _ _ Hlt); apply incl_refl.
  - rewrite (agentLoop_S _ _ _ _ _ _ Hlt).
    pose proof (iteration_loop env input memoryContext dateTimeContext
                  (entered st)) as (_ & _ & Hi).
    change (captured (entered st)) with (captured st) in Hi.
    destruct (iteration _ _ _ _ (entered st)) as [st1 [[|r]|e]];
      simpl in *; try exact Hi.
    eapply incl_tran; [exact Hi | apply IH].
Qed.
End CaptureLemmas.

(* ================================================================= *)
(** ** The returned message *)

(** C5. On every non-exceptional return of [runAutonomousAgent] the result
    holds exactly one message, with the project and chat ids of the input,
    sender 'ai', the accumulated [finalResponseText] as text and the
    [groundingMetadata] of [metadataPayload].  That payload holds what the
    stream loops captured: the SIMPLE loop appends the citation chunks of
    every chunk that carries text, the SEARCH loop those of every chunk,
    and no later step of the loop drops a captured chunk. *)
Theorem C5_returned_message :
  (forall fuel env input r,
     snd (agentBody fuel env input state0) = Normal (Some r) ->
     let st := fst (agentBody fuel env input state0) in
     snd (run fuel env input) = Normal (Some r)
     /\ exists m,
          messages r = [m]
          /\ project_id m = id (project input)
          /\ chat_id m = id (chat input)
          /\ sender m = lit "ai"
          /\ text m = finalResponseText st
          /\ groundingMetadata m
             = payload_groundingMetadata (metadataPayload st))
  /\ (forall input response st,
        snd (streamSimple input response st) = Normal tt ->
        captured (fst (streamSimple input response st))
        = captured st
          ++ flat_map (fun c => if truthy (textOf c) then citations c else [])
               (chunks response))
  /\ (forall input response st,
        snd (streamSearch input response st) = Normal tt ->
        captured (fst (streamSearch input response st))
        = captured st ++ flat_map citations (chunks response))
  /\ (forall env input memoryContext dateTimeContext fuel st,
        incl (captured st)
          (captured
             (fst (agentLoop env input memoryContext dateTimeContext fuel st)))).
Proof.
  split; [|split; [|split]].
  - intros fuel env input r H; cbv zeta.
    pose proof (agentBody_post fuel env input) as Hp.
    rewrite run_unfold.
    destruct (agentBody fuel env input state0) as [st c]; simpl in *; subst c.
    split; [reflexivity|].
    destruct Hp as (m & Hm & H1 & H2 & H3 & H4 & H5 & _).
    exists m; repeat split; assumption.
  - apply streamSimple_captured.
  - apply streamSearch_captured.
  - apply agentLoop_keeps_citations.
Qed.

(* ================================================================= *)
(** ** The memory entry *)

(** C10. The message returned by [runAutonomousAgent] carries either no
    [memoryToCreate] or the single entry
    [{ layer: 'outer_personal', key: 'last_topic', value: prompt }]; it
    carries the entry exactly when the [try] block completed without an
    exception, the only iteration that ran was the SIMPLE one, no tag
    pattern matched the text generated in it, and that text is longer than
    50 code units. *)
Theorem C10_memory_entry_iff fuel env input :
  let st := fst (run (MAX_LOOPS + fuel) env input) in
  let entry := {| layer := lit "outer_personal"; key := lit "last_topic";
                  value := prompt input |} in
  exists m,
    snd (run (MAX_LOOPS + fuel) env input)
    = Normal (Some {| messages := [m] |})
    /\ (memoryToCreate m = None \/ memoryToCreate m = Some [entry])
    /\ (memoryToCreate m = Some [entry]
        <-> (exists r,
               snd (agentBody (MAX_LOOPS + fuel) env input state0) = Normal r)
            /\ loops (console st) = [(1, SIMPLE)]
            /\ noTag (generatedThisLoop st)
            /\ 50 < List.length (generatedThisLoop st)).
Proof.
  cbv zeta; rewrite run_unfold.
  pose proof (body_outcome (MAX_LOOPS + fuel) env input) as Ho.
  pose proof (agentBody_post (MAX_LOOPS + fuel) env input) as Hp.
  destruct (agentBody (MAX_LOOPS + fuel) env input state0) as [st c];
    simpl in Ho, Hp.
  inversion Ho as [st' e Hc Ha Hm | st' Hf | st' e Hc Ha Hm
                   | st' Hc Ha Hno Hm | st' Hf | st' c' Hf Hc Ha Hmf Hm Hne];
    subst; simpl.
  - (* the memory fetch threw *)
    eexists; split; [reflexivity|]; simpl; split; [left; reflexivity|].
    split; [discriminate | intros [[r Hr] _]; discriminate].
  - unfold MAX_LOOPS in Hf; discriminate.
  - (* the SIMPLE iteration threw *)
    eexists; split; [reflexivity|]; simpl; split; [left; reflexivity|].
    split; [discriminate | intros [[r Hr] _]; discriminate].
  - (* the SIMPLE iteration returned *)
    eexists; split; [reflexivity|]; simpl.
    fold (memory st); rewrite Hm, Hc; simpl.
    destruct (50 <? List.length (generatedThisLoop st)) eqn:E.
    + apply Nat.ltb_lt in E.
      split; [right; reflexivity|].
      split; [intros _ | reflexivity].
      split; [eexists; reflexivity | auto].
    + apply Nat.ltb_ge in E.
      split; [left; reflexivity|].
      split; [discriminate | intros (_ & _ & _ & Hlen); lia].
  - unfold MAX_LOOPS in Hf; discriminate.
  - (* a tag re-routed *)
    destruct c as [[r|]|e]; [| congruence |].
    + destruct Hp as (m & Hr & _ & _ & _ & _ & _ & Hmem).
      destruct r as [ms]; simpl in Hr; subst ms.
      exists m; split; [reflexivity|]; cbn [fst snd].
      rewrite Hmem, Hm, Hc; simpl.
      split; [left; reflexivity|].
      split; [discriminate | intros (_ & Hl & _); discriminate].
    + eexists; split; [reflexivity|]; simpl; split; [left; reflexivity|].
      split; [discriminate | intros [[r Hr] _]; discriminate].
Qed.

(* ================================================================= *)
(** ** Exceptions *)

(** C3, as the code has it.  [runAutonomousAgent] never lets an exception
    out; every exception that escapes the body of its [try] block (that
    is, every exception but one thrown by [generateImage] in the IMAGE
    case, which the inner [catch] handles) is logged and turned into a
    result of exactly one message with the project and chat ids of the
    input, sender 'ai' and the text 'An error occurred: ' followed by the
    user-friendly rendering of the exception. *)
Theorem C3_escaped_exception_is_reported fuel env input e :
  snd (agentBody fuel env input state0) = Throw e ->
  snd (run fuel env input)
  = Normal (Some {| messages :=
      [ {| project_id := id (project input);
           chat_id := id (chat input);
           sender := lit "ai";
           text := lit "An error occurred: " ++ getUserFriendlyError env e;
           image_base64 := None;
           imageStatus := None;
           groundingMetadata := None;
           memoryToCreate := None |} ] |})
  /\ (forall fuel' env' input' e',
        snd (run fuel' env' input') <> Throw e').
Proof.
  intros H; split.
  - rewrite run_unfold.
    destruct (agentBody fuel env input state0) as [st c]; simpl in H; subst c.
    reflexivity.
  - intros fuel' env' input' e'; rewrite run_unfold.
    destruct (agentBody fuel' env' input' state0) as [st [r|e0]];
      discriminate.
Qed.

(** A run in which the memory fetch throws. *)
Lemma C3_witness :
  snd (agentBody 2 (Sample.env [] Sample.ok (Throw (ErrorObject (lit "offline"))))
         Sample.input state0)
  = Throw (ErrorObject (lit "offline"))
  /\ snd (run 2 (Sample.env [] Sample.ok (Throw (ErrorObject (lit "offline"))))
            Sample.input)
     = Normal (Some {| messages :=
         [ {| project_id := lit "p1";
              chat_id := lit "c1";
              sender := lit "ai";
              text := lit "An error occurred: offline";
              image_base64 := None;
              imageStatus := None;
              groundingMetadata := None;
              memoryToCreate := None |} ] |}).
Proof.
  assert (H : snd (agentBody 2
                     (Sample.env [] Sample.ok
                        (Throw (ErrorObject (lit "offline"))))
                     Sample.input state0)
              = Throw (ErrorObject (lit "offline")))
    by (vm_compute; reflexivity).
  split; [exact H|].
  exact (proj1 (C3_escaped_exception_is_reported 2 _ _ _ H)).
Defined.

(** The claim as stated fails: an exception thrown by image generation,
    inside the body, is not reported as 'An error occurred: ...'. *)
Lemma C3_counterexample :
  let env := Sample.env [Sample.says "Here: <IMAGE>a cat</IMAGE>"]
               (Throw (ErrorObject (lit "quota"))) Sample.ok in
  generateImage env (lit "a cat") (lit "k") None
  = Throw (ErrorObject (lit "quota"))
  /\ console (fst (run 2 env Sample.input))
     = [LogLoop 1 SIMPLE; LogLoop 2 IMAGE]
  /\ snd (run 2 env Sample.input)
     = Normal (Some {| messages :=
         [ {| project_id := lit "p1";
              chat_id := lit "c1";
              sender := lit "ai";
              text := lit "Here: " ++ nl ++ nl
                      ++ lit "(Image generation failed: quota)";
              image_base64 := None;
              imageStatus := None;
              groundingMetadata := None;
              memoryToCreate := None |} ] |})
  /\ snd (run 2 env Sample.input)
     <> Normal (Some (errorResult env Sample.input
                        (ErrorObject (lit "quota")))).
Proof.
  cbv zeta; split; [reflexivity | split; [|split]].
  - vm_compute; reflexivity.
  - vm_compute; reflexivity.
  - vm_compute; discriminate.
Qed.

(** A run that returns without an exception, as an instance of C5. *)
Lemma C5_witness :
  snd (agentBody 2 (Sample.env [Sample.says "Hi!"] Sample.ok Sample.ok)
         Sample.input state0)
  = Normal (Some {| messages :=
      [ {| project_id := lit "p1"; chat_id := lit "c1"; sender := lit "ai";
           text := lit "Hi!"; image_base64 := None; imageStatus := None;
           groundingMetadata := None; memoryToCreate := None |} ] |})
  /\ snd (run 2 (Sample.env [Sample.says "Hi!"] Sample.ok Sample.ok)
            Sample.input)
     = Normal (Some {| messages :=
         [ {| project_id := lit "p1"; chat_id := lit "c1"; sender := lit "ai";
              text := lit "Hi!"; image_base64 := None; imageStatus := None;
              groundingMetadata := None; memoryToCreate := None |} ] |}).
Proof.
  assert (H : snd (agentBody 2
                     (Sample.env [Sample.says "Hi!"] Sample.ok Sample.ok)
                     Sample.input state0)
              = Normal (Some {| messages :=
                  [ {| project_id := lit "p1"; chat_id := lit "c1";
                       sender := lit "ai"; text := lit "Hi!";
                       image_base64 := None; imageStatus := None;
                       groundingMetadata := None;
                       memoryToCreate := None |} ] |}))
    by (vm_compute; reflexivity).
  split; [exact H|].
  exact (proj1 (proj1 C5_returned_message 2 _ _ _ H)).
Defined.

(* ================================================================= *)
(** ** Tags *)

Lemma agree_app eq p1 p2 m1 m2 :
  agree eq p1 m1 -> agree eq p2 m2 -> agree eq (p1 ++ p2) (m1 ++ m2).
Proof. apply Forall2_app. Qed.

Lemma agree_ci_refl p : agree (char_eq true) p p.
Proof. induction p; constructor; [apply N.eqb_refl | assumption]. Qed.

Lemma includes_inner x y z s : includes (x ++ y ++ z) s -> includes x s.
Proof.
  intros (pre & post & ->); exists pre, (y ++ z ++ post).
  rewrite <- !app_assoc; reflexivity.
Qed.

Lemma includesb_spec x s : includesb x s = true <-> includes x s.
Proof.
  split.
  - induction s as [|c s IH]; simpl.
    + destruct (strip_prefix N.eqb x []) as [[m rest]|] eqn:E;
        [|discriminate].
      destruct (strip_prefix_sound _ _ _ _ _ E) as [Hs Hag].
      apply agree_eqb in Hag; subst m; intros _; exists [], rest; exact Hs.
    + destruct (strip_prefix N.eqb x (c :: s)) as [[m rest]|] eqn:E.
      * destruct (strip_prefix_sound _ _ _ _ _ E) as [Hs Hag].
        apply agree_eqb in Hag; subst m; intros _; exists [], rest; exact Hs.
      * intros H; destruct (IH H) as (pre & post & ->).
        exists (c :: pre), post; reflexivity.
  - intros (pre & post & ->); induction pre as [|c pre IH].
    + simpl app.
      pose proof (strip_prefix_complete N.eqb x x post
                    (proj2 (agree_eqb x x) eq_refl)) as E.
      destruct (x ++ post); simpl in *; rewrite E; reflexivity.
    + simpl. destruct (strip_prefix N.eqb x (c :: pre ++ x ++ post));
        [reflexivity | exact IH].
Qed.

(** The shape of a match of the case-insensitive pattern
    [<SEARCH>deep\s+(.*?)</SEARCH>]. *)
Lemma Matches_SEARCH_deep w gs :
  Matches true (atoms re_SEARCH_deep) w gs ->
  exists o ws cap c,
    w = o ++ ws ++ cap ++ c /\ gs = [cap]
    /\ eq_ci (lit "<SEARCH>deep") o
    /\ ws <> [] /\ Forall (fun x => isSpace x = true) ws
    /\ Forall (fun x => isDot x = true) cap
    /\ eq_ci (lit "</SEARCH>") c.
Proof.
  simpl; intros H.
  inversion H as [|p r o w1 gs1 Hag H1| |]; subst; clear H.
  inversion H1 as [| |r ws w2 gs2 Hne Hws H2|]; subst; clear H1.
  inversion H2 as [| | |r cap w3 gs3 Hcap H3]; subst; clear H2.
  inversion H3 as [|p r c w4 gs4 Hag2 H4| |]; subst; clear H3.
  inversion H4; subst; clear H4.
  exists o, ws, cap, c; rewrite app_nil_r; repeat split; assumption.
Qed.

Lemma Matches_THINK_open w gs :
  Matches false (atoms re_THINK_open) w gs -> w = lit "<THINK>" /\ gs = [].
Proof.
  simpl; intros H.
  inversion H as [|p r o w1 gs1 Hag H1| |]; subst; clear H.
  inversion H1; subst; clear H1.
  apply agree_eqb in Hag; subst; rewrite app_nil_r; auto.
Qed.

(** A match of a tag pair: where it is, and what it captured. *)
Lemma String_match_tagPair g o c m :
  String_match g (tagPair o c) = Some m ->
  exists cap pre post,
    match0 m = lit o ++ cap ++ lit c
    /\ group1 m = Some cap
    /\ Forall (fun x => isDot x = true) cap
    /\ g = pre ++ match0 m ++ post
    /\ List.length pre = index m
    /\ replace (match0 m) [] g = pre ++ post.
Proof.
  intros H.
  destruct (String_match_replace _ _ _ H) as (pre & post & Hg & Hi & HM & Hr).
  destruct (Matches_tagPair _ _ _ _ HM) as (cap & Hm0 & Hgs & Hcap).
  exists cap, pre, post; unfold group1; rewrite Hgs; repeat split; auto.
Qed.

Lemma includes_match g r m : String_match g r = Some m -> includes (match0 m) g.
Proof.
  intros H.
  destruct (String_match_replace _ _ _ H) as (pre & post & Hg & _).
  exists pre, post; exact Hg.
Qed.

Lemma orElse_Some {A} (a b : option A) x :
  orElse a b = Some x -> a = Some x \/ (a = None /\ b = Some x).
Proof. destruct a; simpl; auto. Qed.

(** A match consulted for an action shows the tags of that action in the
    text. *)
Lemma matchFor_evidence a g m : matchFor a g = Some m -> tagEvidence a g.
Proof.
  assert (Hpair : forall o c, String_match g (tagPair o c) = Some m ->
            exists cap, includes (lit o ++ cap ++ lit c) g).
  { intros o c H.
    destruct (String_match_tagPair _ _ _ _ H) as (cap & _ & _ & Hm & _).
    exists cap; rewrite <- Hm; eapply includes_match; exact H. }
  destruct a; cbn [tagEvidence tagOf matchFor]; intros H; try discriminate;
    try (apply Hpair; exact H).
  - (* DEEP_SEARCH *)
    destruct (orElse_Some _ _ _ H) as [H1|[_ H2]];
      [left; apply Hpair; exact H1 | right].
    destruct (String_match_replace _ _ _ H2) as (pre & post & Hg & _ & HM & _).
    destruct (Matches_SEARCH_deep _ _ HM)
      as (o & ws & cap & c & Hw & _ & Ho & Hne & Hws & _ & Hc).
    exists o, ws, cap, c; repeat split; auto.
    rewrite <- Hw; exists pre, post; exact Hg.
  - (* THINK *)
    destruct (orElse_Some _ _ _ H) as [H1|[_ H2]].
    + destruct (Hpair _ _ H1) as (cap & Hi).
      eapply includes_inner; exact Hi.
    + destruct (String_match_replace _ _ _ H2) as (pre & post & Hg & _ & HM & _).
      destruct (Matches_THINK_open _ _ HM) as [Hw _].
      rewrite <- Hw; exists pre, post; exact Hg.
Qed.

Section SelectLemmas.
Variable input : AgentInput.
Variable st : State.
Let g := generatedThisLoop st.

Lemma selected_routes a m :
  selected priority g = Some (a, m) ->
  routes input st a (promptOf input a m) m.
Proof.
  unfold priority; simpl.
  destruct (deepMatch g) as [m1|] eqn:H1.
  { intros H; inversion H; subst; apply detect_DEEP; exact H1. }
  destruct (searchMatch g) as [m2|] eqn:H2.
  { intros H; inversion H; subst; apply detect_SEARCH; assumption. }
  destruct (thinkMatch g) as [m3|] eqn:H3.
  { intros H; inversion H; subst; apply detect_THINK; assumption. }
  destruct (imageMatch g) as [m4|] eqn:H4.
  { intros H; inversion H; subst; apply detect_IMAGE; assumption. }
  destruct (projectMatch g) as [m5|] eqn:H5.
  { intros H; inversion H; subst; apply detect_PROJECT; assumption. }
  destruct (canvasMatch g) as [m6|] eqn:H6.
  { intros H; inversion H; subst; apply detect_CANVAS; assumption. }
  destruct (studyMatch g) as [m7|] eqn:H7.
  { intros H; inversion H; subst; apply detect_STUDY; assumption. }
  discriminate.
Qed.

Lemma selected_first : forall l a m,
  In a l -> matchFor a g = Some m ->
  (forall b, In b (before a l) -> matchFor b g = None) ->
  selected l g = Some (a, m).
Proof.
  induction l as [|b l IH]; intros a m Hin Hm Hb; [destruct Hin|].
  simpl in *.
  destruct (RouterAction_eqb a b) eqn:E.
  - assert (a = b) by (destruct a, b; simpl in E; congruence); subst b.
    rewrite Hm; reflexivity.
  - rewrite (Hb b (or_introl eq_refl)).
    apply IH; auto.
    + destruct Hin as [->|Hin]; [|exact Hin].
      destruct a; simpl in E; discriminate.
    + intros c Hc; apply Hb; right; exact Hc.
Qed.

Lemma first_routes a m :
  In a priority -> matchFor a g = Some m ->
  (forall b, In b (before a priority) -> matchFor b g = None) ->
  routes input st a (promptOf input a m) m.
Proof.
  intros Hin Hm Hb; apply selected_routes, selected_first; assumption.
Qed.

(** A SEARCH tag whose content starts with "deep" and white space is
    also matched by the deep pattern. *)
Lemma search_deep_found m d w rest :
  searchMatch g = Some m ->
  group1 m = Some (d ++ w :: rest) ->
  eq_ci (lit "deep") d -> isSpace w = true ->
  deepMatch g <> None.
Proof.
  intros Hm Hg Hd Hw.
  destruct (String_match_tagPair _ _ _ _ Hm)
    as (cap & pre & post & Hm0 & Hg1 & Hcap & Hs & _).
  rewrite Hg in Hg1; inversion Hg1; subst cap; clear Hg1.
  apply Forall_app in Hcap; destruct Hcap as [_ Hcap].
  inversion Hcap as [|x l _ Hrest]; subst.
  assert (HM : Matches true (atoms re_SEARCH_deep) (match0 m) [rest]).
  { rewrite Hm0; simpl atoms.
    replace (lit "<SEARCH>" ++ (d ++ w :: rest) ++ lit "</SEARCH>")
      with ((lit "<SEARCH>" ++ d) ++ [w] ++ rest ++ lit "</SEARCH>" ++ [])
      by (rewrite app_nil_r, <- !app_assoc; reflexivity).
    change (lit "<SEARCH>deep") with (lit "<SEARCH>" ++ lit "deep").
    constructor; [apply agree_app; [apply agree_ci_refl | exact Hd]|].
    constructor; [discriminate | repeat constructor; exact Hw|].
    constructor; [exact Hrest|].
    constructor; [apply agree_ci_refl | constructor]. }
  unfold deepMatch; destruct (String_match g re_DEEP); [discriminate|].
  simpl; eapply String_match_found; [exact Hs | exact HM].
Qed.
End SelectLemmas.

(** C8. The tag branches are tried in the fixed order DEEP, SEARCH, THINK,
    IMAGE, PROJECT, CANVAS, STUDY: the first action of that order whose
    pattern matches the generated text is the one the detection re-routes
    to, with the prompt taken from its match.  The DEEP patterns are
    [<DEEP>...</DEEP>] and, failing it, the case-insensitive
    [<SEARCH>deep\s+...</SEARCH>], whose capture (the new prompt) starts
    after "deep" and the white space; so a SEARCH tag whose content begins
    with "deep" and white space is routed to DEEP_SEARCH, not SEARCH. *)
Theorem C8_tag_priority input st :
  let g := generatedThisLoop st in
  priority = [DEEP_SEARCH; SEARCH; THINK; IMAGE; PROJECT; CANVAS; STUDY]
  /\ (forall a m,
        selected priority g = Some (a, m) ->
        routes input st a (promptOf input a m) m)
  /\ (forall a m,
        In a priority -> matchFor a g = Some m ->
        (forall b, In b (before a priority) -> matchFor b g = None) ->
        routes input st a (promptOf input a m) m)
  /\ (forall m,
        String_match g re_DEEP = None ->
        String_match g re_SEARCH_deep = Some m ->
        exists o ws cap c,
          match0 m = o ++ ws ++ cap ++ c
          /\ eq_ci (lit "<SEARCH>deep") o
          /\ ws <> [] /\ Forall (fun x => isSpace x = true) ws
          /\ eq_ci (lit "</SEARCH>") c
          /\ routes input st DEEP_SEARCH cap m)
  /\ (forall m d w rest,
        searchMatch g = Some m ->
        group1 m = Some (d ++ w :: rest) ->
        eq_ci (lit "deep") d -> isSpace w = true ->
        snd (detectTags input st) = Normal Continue
        /\ currentAction (fst (detectTags input st)) = DEEP_SEARCH).
Proof.
  cbv zeta; split; [reflexivity|].
  split; [apply selected_routes|].
  split; [apply first_routes|].
  split.
  - intros m H1 H2.
    destruct (String_match_replace _ _ _ H2) as (pre & post & _ & _ & HM & _).
    destruct (Matches_SEARCH_deep _ _ HM)
      as (o & ws & cap & c & Hw & Hgs & Ho & Hne & Hws & _ & Hc).
    assert (Hd : deepMatch (generatedThisLoop st) = Some m)
      by (unfold deepMatch; rewrite H1; exact H2).
    pose proof (detect_DEEP input st m Hd) as Hr.
    unfold group1 in Hr; rewrite Hgs in Hr.
    exists o, ws, cap, c.
    split; [exact Hw | split; [exact Ho | split; [exact Hne|]]].
    split; [exact Hws | split; [exact Hc | exact Hr]].
  - intros m d w rest Hm Hg Hd Hw.
    pose proof (search_deep_found st m d w rest Hm Hg Hd Hw) as Hne.
    destruct (deepMatch (generatedThisLoop st)) as [m'|] eqn:E;
      [|congruence].
    destruct (detect_DEEP input st m' E) as (Hc & Ha & _); auto.
Qed.

(* ================================================================= *)
(** ** The text of the SIMPLE turn *)

Lemma R_sametext_refl st : R_sametext st st.
Proof. split; reflexivity. Qed.

Lemma R_sametext_trans a b c :
  R_sametext a b -> R_sametext b c -> R_sametext a c.
Proof. intros [? ?] [? ?]; split; congruence. Qed.

Lemma emit_sametext input x : keeps R_sametext (emit input x).
Proof.
  intros st; unfold emit; destruct (onStreamChunk input) as [cb|];
    [|apply R_sametext_refl].
  unfold bind, modify; simpl; destruct (cb x); split; reflexivity.
Qed.

Lemma captureGrounding_sametext c : keeps R_sametext (captureGrounding c).
Proof.
  intros st; unfold captureGrounding.
  destruct (candidate0 c) as [cand|]; [|apply R_sametext_refl].
  destruct (candidate_groundingMetadata cand) as [gm|];
    [|apply R_sametext_refl].
  destruct (groundingChunks gm); split; reflexivity.
Qed.

Lemma streamSimple_text input response :
  keeps R_text (streamSimple input response).
Proof.
  unfold streamSimple; apply keeps_for_await;
    [exact R_text_refl | exact R_text_trans |].
  intros c st.
  destruct (chunk_text c) as [t|]; [|apply R_text_refl].
  destruct (truthy t); [|apply R_text_refl].
  unfold bind, modify, append_finalResponseText; simpl.
  match goal with |- context [emit input t ?s] =>
    pose proof (emit_sametext input t s) as [Hg Hf];
    destruct (emit input t s) as [st1 [[]|e]] end; simpl in *.
  - pose proof (captureGrounding_sametext c st1) as [Hg' Hf'].
    exists t; rewrite Hg', Hf', Hg, Hf; split; reflexivity.
  - exists t; rewrite Hg, Hf; split; reflexivity.
Qed.

Lemma readFiles_state env fs : forall parts st,
  fst (readFiles env fs parts st) = st.
Proof.
  induction fs as [|f fs IH]; intros parts st; simpl; [reflexivity|].
  unfold bind, await; destruct (readAsBase64 env f); simpl; [apply IH | auto].
Qed.

(** When the SIMPLE turn completes, the response is what it was before
    followed by the text generated in the turn. *)
Lemma simpleTurn_text env input mem dtc st st1 :
  simpleTurn env input mem dtc st = (st1, Normal tt) ->
  finalResponseText st1 = finalResponseText st ++ generatedThisLoop st1.
Proof.
  unfold simpleTurn. unfold bind at 1, get.
  set (parts := match files input with
                | Some fs =>
                    if 0 <? List.length fs
                    then readFiles env fs [TextPart (currentPrompt st)]
                    else ret [TextPart (currentPrompt st)]
                | None => ret [TextPart (currentPrompt st)]
                end).
  assert (Hp : fst (parts st) = st).
  { unfold parts; destruct (files input) as [fs|]; [|reflexivity].
    destruct (0 <? List.length fs); [apply readFiles_state | reflexivity]. }
  unfold bind at 1.
  destruct (parts st) as [st' [userParts|e]]; simpl in Hp; subst st';
    [|discriminate].
  unfold bind at 1, await.
  destruct (generateContentStream env _) as [response|e]; [|discriminate].
  unfold bind, modify; simpl.
  pose proof (streamSimple_text input response (set_generatedThisLoop [] st))
    as (t & Hg & Hf).
  intros H; rewrite H in Hg, Hf; simpl in *.
  rewrite Hg, Hf; reflexivity.
Qed.

Lemma selected_in g : forall l a m,
  selected l g = Some (a, m) -> In a l /\ matchFor a g = Some m.
Proof.
  induction l as [|b l IH]; intros a m H; simpl in *; [discriminate|].
  destruct (matchFor b g) as [m'|] eqn:E.
  - inversion H; subst; auto.
  - destruct (IH _ _ H); auto.
Qed.

(** A run whose SIMPLE turn completes with a text in which some pattern
    matches: the second iteration runs the selected action on the captured
    prompt, and the matched text is cut out of the response. *)
Lemma run_rerouted env input mem st1 a m fuel :
  getContext env allLayers = Normal mem ->
  simpleTurn env input mem (dateTimeContextOf env)
    (entered (entryState input)) = (st1, Normal tt) ->
  selected priority (generatedThisLoop st1) = Some (a, m) ->
  let st := fst (run (MAX_LOOPS + fuel) env input) in
  generatedThisLoop st = generatedThisLoop st1
  /\ loops (console st) = [(1, SIMPLE); (2, a)]
  /\ currentAction st = a
  /\ currentPrompt st = promptOf input a m
  /\ exists t,
       finalResponseText st
       = replace (match0 m) [] (generatedThisLoop st1) ++ t.
Proof.
  intros Hctx Hturn Hsel; cbv zeta.
  pose proof (simpleTurn_text _ _ _ _ _ _ Hturn) as Htext; simpl in Htext.
  pose proof (simpleTurn_turn env input mem (dateTimeContextOf env)
                (entered (entryState input))) as Ht.
  rewrite Hturn in Ht; destruct Ht as ((Hc1 & Hn1 & _) & _); simpl in Hc1, Hn1.
  destruct (selected_in _ _ _ _ Hsel) as [Hin _].
  assert (Ha : a <> SIMPLE)
    by (intros ->; unfold priority in Hin; simpl in Hin;
        repeat destruct Hin as [Hin|Hin]; try discriminate; exact Hin).
  destruct (selected_routes input st1 a m Hsel)
    as (Hcont & Hact & Hp & Hf & Hg & _).
  pose proof (detectTags_loop input st1) as (Hc2 & Hn2 & _).
  remember (detectTags input st1) as d eqn:Hd; destruct d as [st2 c2].
  cbn [fst snd] in Hcont, Hact, Hp, Hf, Hg, Hc2, Hn2; subst c2.
  assert (Ha2 : currentAction (entered st2) <> SIMPLE)
    by (simpl; rewrite Hact; exact Ha).
  assert (Hrun : exists st3 tail,
            R_frame (entered st2) st3
            /\ loops tail = []
            /\ fst (run (MAX_LOOPS + fuel) env input)
               = set_console (console st3 ++ tail) st3).
  { rewrite run_unfold, agentBody_unfold, Hctx.
    change (MAX_LOOPS + fuel) with (S (S fuel)).
    rewrite agentLoop_S by (simpl; unfold MAX_LOOPS; lia).
    rewrite iteration_eq.
    change (currentAction (entered (entryState input))) with SIMPLE; cbv iota.
    unfold caseSIMPLE, bind; rewrite Hturn, <- Hd.
    rewrite agentLoop_S by (rewrite Hn2, Hn1; unfold MAX_LOOPS; lia).
    pose proof (iteration_frame env input mem (dateTimeContextOf env)
                  (entered st2) Ha2) as Hfr.
    pose proof Hfr as [[(_ & Hn3 & _) _] _]; simpl in Hn3.
    destruct (iteration env input mem (dateTimeContextOf env) (entered st2))
      as [st3 [[|r]|e]]; cbn [fst snd] in *.
    - rewrite agentLoop_exit by (rewrite Hn3, Hn2, Hn1; unfold MAX_LOOPS; lia).
      exists st3, []; repeat split; try apply Hfr.
      destruct st3; simpl; rewrite app_nil_r; reflexivity.
    - exists st3, []; repeat split; try apply Hfr.
      destruct st3; simpl; rewrite app_nil_r; reflexivity.
    - exists st3, [LogError e]; repeat split; apply Hfr. }
  destruct Hrun as (st3 & tail & Hfr & Htail & ->).
  destruct Hfr as [[(Hc3 & _ & _) (Ha3 & Hp3 & _ & _)] [Hg3 (t & Hf3)]].
  simpl in Hc3, Ha3, Hp3, Hg3, Hf3 |- *.
  split; [congruence|].
  split; [rewrite loops_app, Htail, app_nil_r, Hc3, Hc2, Hc1, Hn2, Hn1, Hact;
          reflexivity|].
  split; [congruence | split; [congruence|]].
  exists t; rewrite Hf3, Hf, Htext; reflexivity.
Qed.

(* ================================================================= *)
(** ** Re-routing by a tag pair *)

Lemma tagOf_matchFor a o c g m :
  tagOf a = Some (o, c) ->
  String_match g (tagPair o c) = Some m ->
  In a priority /\ matchFor a g = Some m
  /\ forall input, promptOf input a m = String_of (group1 m).
Proof.
  unfold priority; destruct a; simpl; intros H; inversion H; subst; intros Hm;
    (split; [tauto | split; [|reflexivity]]); try exact Hm.
  unfold deepMatch; replace (String_match g re_DEEP) with (Some m);
    reflexivity.
Qed.

(** C1, as the code has it.  In a run whose SIMPLE iteration completes its
    stream with text [g]: if the pattern of one of the tag pairs SEARCH,
    DEEP, IMAGE, PROJECT, CANVAS, STUDY matches [g] and no pattern tried
    before it (order DEEP, SEARCH, THINK, IMAGE, PROJECT, CANVAS, STUDY)
    matches, then the matched text (opening tag, captured content, closing
    tag) is cut out of the response where it was found, the action becomes
    the mode of the tag, the prompt becomes the captured content, and the
    loop runs its second iteration in that mode. *)
Theorem C1_first_matching_tag_reroutes env input mem st1 a o c m fuel :
  getContext env allLayers = Normal mem ->
  simpleTurn env input mem (dateTimeContextOf env)
    (entered (entryState input)) = (st1, Normal tt) ->
  tagOf a = Some (o, c) ->
  String_match (generatedThisLoop st1) (tagPair o c) = Some m ->
  (forall b, In b (before a priority) ->
             matchFor b (generatedThisLoop st1) = None) ->
  let st := fst (run (MAX_LOOPS + fuel) env input) in
  exists cap pre post t,
    match0 m = lit o ++ cap ++ lit c
    /\ generatedThisLoop st1 = pre ++ match0 m ++ post
    /\ loops (console st) = [(1, SIMPLE); (2, a)]
    /\ currentAction st = a
    /\ currentPrompt st = cap
    /\ finalResponseText st = pre ++ post ++ t.
Proof.
  intros Hctx Hturn Htag Hm Hb; cbv zeta.
  destruct (tagOf_matchFor _ _ _ _ _ Htag Hm) as (Hin & Hmf & Hp).
  pose proof (selected_first st1 priority a m Hin Hmf Hb) as Hsel.
  destruct (run_rerouted env input mem st1 a m fuel Hctx Hturn Hsel)
    as (_ & Hl & Ha & Hpr & t & Hf).
  destruct (String_match_tagPair _ _ _ _ Hm)
    as (cap & pre & post & Hm0 & Hg1 & _ & Hg & _ & Hr).
  exists cap, pre, post, t.
  split; [exact Hm0 | split; [exact Hg | split; [exact Hl|]]].
  split; [exact Ha | split].
  - rewrite Hpr, Hp, Hg1; reflexivity.
  - rewrite Hf, Hr, app_assoc; reflexivity.
Qed.

(** A run whose conversational answer holds a SEARCH tag. *)
Lemma C1_witness :
  let env := Sample.env [Sample.says "Sure <SEAR"; Sample.says "CH>cats</SEARCH> ok"]
               Sample.ok Sample.ok in
  let st := fst (run (MAX_LOOPS + 0) env Sample.input) in
  exists cap pre post t,
    lit "<SEARCH>cats</SEARCH>" = lit "<SEARCH>" ++ cap ++ lit "</SEARCH>"
    /\ lit "Sure <SEARCH>cats</SEARCH> ok"
       = pre ++ lit "<SEARCH>cats</SEARCH>" ++ post
    /\ loops (console st) = [(1, SIMPLE); (2, SEARCH)]
    /\ currentAction st = SEARCH
    /\ currentPrompt st = cap
    /\ finalResponseText st = pre ++ post ++ t.
Proof.
  cbv zeta.
  set (env := Sample.env [Sample.says "Sure <SEAR";
                          Sample.says "CH>cats</SEARCH> ok"]
                Sample.ok Sample.ok).
  set (st1 := fst (simpleTurn env Sample.input (lit "{}")
                     (dateTimeContextOf env) (entered (entryState Sample.input)))).
  assert (Hturn : simpleTurn env Sample.input (lit "{}") (dateTimeContextOf env)
                    (entered (entryState Sample.input)) = (st1, Normal tt))
    by (vm_compute; reflexivity).
  assert (Hm : String_match (generatedThisLoop st1)
                 (tagPair "<SEARCH>" "</SEARCH>")
               = Some {| index := 5; match0 := lit "<SEARCH>cats</SEARCH>";
                         groups := [lit "cats"] |})
    by (vm_compute; reflexivity).
  assert (Hb : forall b, In b (before SEARCH priority) ->
                         matchFor b (generatedThisLoop st1) = None).
  { intros b [<-|[]]; vm_compute; reflexivity. }
  exact (C1_first_matching_tag_reroutes env Sample.input (lit "{}") st1
           SEARCH "<SEARCH>" "</SEARCH>" _ 0 eq_refl Hturn eq_refl Hm Hb).
Defined.

(** The claim as stated fails.  The text holds a SEARCH tag pair, yet the
    run re-routes to DEEP_SEARCH and the prompt is not the captured
    content "deep cats"; and when the text holds an IMAGE and a SEARCH tag
    pair, the run re-routes to SEARCH and the IMAGE tag stays in the
    response. *)
Lemma C1_counterexample :
  let env1 := Sample.env [Sample.says "<SEARCH>deep cats</SEARCH>"]
                Sample.ok Sample.ok in
  let st1 := fst (run 2 env1 Sample.input) in
  let env2 := Sample.env [Sample.says "<IMAGE>a</IMAGE><SEARCH>b</SEARCH>"]
                Sample.ok Sample.ok in
  let st2 := fst (run 2 env2 Sample.input) in
  (generatedThisLoop st1 = lit "<SEARCH>deep cats</SEARCH>"
   /\ searchMatch (generatedThisLoop st1)
      = Some {| index := 0; match0 := lit "<SEARCH>deep cats</SEARCH>";
                groups := [lit "deep cats"] |}
   /\ console st1 = [LogLoop 1 SIMPLE; LogLoop 2 DEEP_SEARCH]
   /\ currentAction st1 <> SEARCH
   /\ currentPrompt st1 = lit "cats"
   /\ currentPrompt st1 <> lit "deep cats")
  /\ (generatedThisLoop st2 = lit "<IMAGE>a</IMAGE><SEARCH>b</SEARCH>"
      /\ imageMatch (generatedThisLoop st2)
         = Some {| index := 0; match0 := lit "<IMAGE>a</IMAGE>";
                   groups := [lit "a"] |}
      /\ console st2 = [LogLoop 1 SIMPLE; LogLoop 2 SEARCH]
      /\ currentAction st2 <> IMAGE
      /\ currentPrompt st2 = lit "b"
      /\ finalResponseText st2 = lit "<IMAGE>a</IMAGE>found it").
Proof.
  cbv zeta; repeat split; try (vm_compute; reflexivity);
    vm_compute; discriminate.
Qed.

(* ================================================================= *)
(** ** What a mode switch requires *)

(** C4, as the code has it.  The tag detection switches the mode only when
    the generated text holds the tags of the new mode: an opening tag
    followed by its closing tag for SEARCH, IMAGE, PROJECT, CANVAS and
    STUDY; for DEEP_SEARCH either [<DEEP>...</DEEP>] or, in any letter
    case, [<SEARCH>deep] and white space followed by [</SEARCH>]; for
    THINK the opening tag [<THINK>] alone.  Otherwise the action is left
    as it is; and in a run every iteration other than SIMPLE ones has the
    tags of its mode in the generated text. *)
Theorem C4_switch_requires_tag :
  (forall input st,
     snd (detectTags input st) = Normal Continue ->
     tagEvidence (currentAction (fst (detectTags input st)))
       (generatedThisLoop st))
  /\ (forall input st,
        snd (detectTags input st) <> Normal Continue ->
        currentAction (fst (detectTags input st)) = currentAction st)
  /\ (forall fuel env input n a,
        In (n, a) (loops (console (fst (run fuel env input)))) ->
        a = SIMPLE
        \/ tagEvidence a (generatedThisLoop (fst (run fuel env input)))).
Proof.
  split; [|split].
  - intros input st H.
    destruct (detect_cases input st) as [(a & p & m & _ & Hm & Hr)|Hno].
    + destruct Hr as (_ & -> & _); eapply matchFor_evidence; exact Hm.
    + rewrite (detect_none input st Hno) in H; discriminate.
  - intros input st H.
    destruct (detect_cases input st) as [(a & p & m & _ & _ & Hr)|Hno].
    + destruct Hr as (Hc & _); congruence.
    + rewrite (detect_none input st Hno); simpl.
      apply (remembered_fields input st).
  - intros fuel env input n a Hin.
    destruct (run_loops fuel env input) as [H|[H|(b & H & Hb & Hm)]];
      rewrite H in Hin; simpl in Hin.
    + destruct Hin.
    + destruct Hin as [Hin|[]]; inversion Hin; auto.
    + destruct Hin as [Hin|[Hin|[]]]; inversion Hin; subst; auto.
      right.
      destruct (matchFor a (generatedThisLoop (fst (run fuel env input))))
        as [m|] eqn:E; [|congruence].
      eapply matchFor_evidence; exact E.
Qed.

(** A run re-routed by a SEARCH tag, as an instance of C4. *)
Lemma C4_witness :
  let env := Sample.env [Sample.says "ok <SEARCH>cats</SEARCH>"]
               Sample.ok Sample.ok in
  In (2, SEARCH) (loops (console (fst (run 2 env Sample.input))))
  /\ (SEARCH = SIMPLE
      \/ tagEvidence SEARCH (generatedThisLoop (fst (run 2 env Sample.input)))).
Proof.
  cbv zeta.
  assert (H : In (2, SEARCH)
                (loops (console (fst (run 2
                   (Sample.env [Sample.says "ok <SEARCH>cats</SEARCH>"]
                      Sample.ok Sample.ok) Sample.input)))))
    by (vm_compute; right; left; reflexivity).
  split; [exact H|].
  exact (proj2 (proj2 C4_switch_requires_tag) 2 _ _ 2 SEARCH H).
Defined.

(** The claim as stated fails: the text holds the opening tag [<THINK>]
    and no closing tag, and the run switches to THINK. *)
Lemma C4_counterexample :
  let env := Sample.env [Sample.says "x<THINK>y"] Sample.ok Sample.ok in
  let st := fst (run 2 env Sample.input) in
  generatedThisLoop st = lit "x<THINK>y"
  /\ console st = [LogLoop 1 SIMPLE; LogLoop 2 THINK]
  /\ currentAction st = THINK
  /\ ~ includes (lit "</THINK>") (generatedThisLoop st).
Proof.
  cbv zeta; repeat split; try (vm_compute; reflexivity).
  intros H; apply includesb_spec in H; vm_compute in H; discriminate.
Qed.

(* ================================================================= *)
(** ** Image generation *)

Lemma emit_quiet input x st :
  quiet input -> emit input x st = (emitted input x st, Normal tt).
Proof.
  intros Hq; unfold emit, emitted.
  destruct (onStreamChunk input) as [cb|] eqn:E; [|reflexivity].
  unfold bind, modify; simpl; rewrite (Hq cb x E); reflexivity.
Qed.

Lemma emitted_fields input x st :
  finalResponseText (emitted input x st) = finalResponseText st
  /\ metadataPayload (emitted input x st) = metadataPayload st
  /\ routing (emitted input x st) = routing st
  /\ currentPrompt (emitted input x st) = currentPrompt st.
Proof.
  unfold emitted; destruct (onStreamChunk input); repeat split.
Qed.

(** The IMAGE case with a callback that does not throw. *)
Lemma caseIMAGE_quiet env input st :
  quiet input ->
  caseIMAGE env input st =
    let st1 := emitted input (imageStartEvent env (finalResponseText st)) st in
    match generateImage env (imagePromptOf st) (apiKey input)
            (imageModelOf input) with
    | Normal imageBase64 =>
        (st1,
         Normal (Return {| messages :=
           [ {| project_id := id (project input);
                chat_id := id (chat input);
                sender := lit "ai";
                text := finalResponseText st1;
                image_base64 := Some imageBase64;
                imageStatus := Some (lit "complete");
                groundingMetadata :=
                  payload_groundingMetadata (metadataPayload st1);
                memoryToCreate :=
                  payload_memoryToCreate (metadataPayload st1) |} ] |}))
    | Throw e =>
        let st2 := emitted input (imageFailureNote e)
                     (set_finalResponseText
                        (finalResponseText st1 ++ imageFailureNote e) st1) in
        (st2, Normal (Return {| messages := [textMessage input st2] |}))
    end.
Proof.
  intros Hq; unfold caseIMAGE, bind at 1, get. unfold bind at 1.
  rewrite (emit_quiet _ _ _ Hq); cbv zeta.
  unfold try_catch, bind at 1, await.
  destruct (generateImage env (imagePromptOf st) (apiKey input)
              (imageModelOf input)) as [b|e]; [reflexivity|].
  unfold bind at 1, append_finalResponseText, modify.
  unfold bind at 1; rewrite (emit_quiet _ _ _ Hq); reflexivity.
Qed.

(** An iteration in IMAGE mode, with a callback that does not throw. *)
Lemma agentLoop_IMAGE env input memoryContext dateTimeContext fuel st :
  currentAction st = IMAGE ->
  loopCount st < MAX_LOOPS ->
  quiet input ->
  exists st' m,
    agentLoop env input memoryContext dateTimeContext (S fuel) st
    = (st', Normal (Some {| messages := [m] |}))
    /\ project_id m = id (project input)
    /\ chat_id m = id (chat input)
    /\ sender m = lit "ai"
    /\ match generateImage env (imagePromptOf st) (apiKey input)
               (imageModelOf input) with
       | Throw e =>
           image_base64 m = None /\ imageStatus m = None
           /\ text m = finalResponseText st ++ imageFailureNote e
       | Normal imageBase64 =>
           image_base64 m = Some imageBase64
           /\ imageStatus m = Some (lit "complete")
           /\ text m = finalResponseText st
       end.
Proof.
  intros Ha Hlt Hq.
  rewrite (agentLoop_S _ _ _ _ _ _ Hlt), iteration_eq.
  change (currentAction (entered st)) with (currentAction st).
  rewrite Ha; cbv iota.
  rewrite (caseIMAGE_quiet _ _ _ Hq); cbv zeta.
  change (imagePromptOf (entered st)) with (imagePromptOf st).
  destruct (emitted_fields input
              (imageStartEvent env (finalResponseText (entered st)))
              (entered st)) as (Hf1 & _).
  destruct (generateImage env (imagePromptOf st) (apiKey input)
              (imageModelOf input)) as [b|e].
  - eexists; eexists; split; [reflexivity|].
    repeat split. exact Hf1.
  - match goal with |- context [emitted input (imageFailureNote e) ?s] =>
      destruct (emitted_fields input (imageFailureNote e) s) as (Hf2 & _);
      remember (emitted input (imageFailureNote e) s) as st2 end.
    exists st2, (textMessage input st2); split; [reflexivity|].
    repeat split.
    simpl in *; rewrite Hf2, Hf1; reflexivity.
Qed.

Lemma selected_IMAGE g m :
  selected priority g = Some (IMAGE, m) ->
  deepMatch g = None /\ searchMatch g = None /\ thinkMatch g = None
  /\ imageMatch g = Some m.
Proof.
  unfold priority; simpl.
  destruct (deepMatch g); [intros H; inversion H|].
  destruct (searchMatch g); [intros H; inversion H|].
  destruct (thinkMatch g); [intros H; inversion H|].
  destruct (imageMatch g); [intros H; inversion H; auto|].
  destruct (projectMatch g); [intros H; inversion H|].
  destruct (canvasMatch g); [intros H; inversion H|].
  destruct (studyMatch g); intros H; inversion H.
Qed.

(** C7. A run that an IMAGE tag re-routed to IMAGE mode, with a stream
    callback that does not throw.  If [generateImage] throws, the function
    returns one message without [image_base64] whose text is the response
    accumulated so far (the text of the SIMPLE iteration without the tag)
    followed by the note '(Image generation failed: ...)'.  If it
    succeeds, the function returns one message with the accumulated text
    unchanged, the image in [image_base64] and [imageStatus] 'complete'. *)
Theorem C7_image_outcomes env input mem st1 m fuel :
  getContext env allLayers = Normal mem ->
  simpleTurn env input mem (dateTimeContextOf env)
    (entered (entryState input)) = (st1, Normal tt) ->
  selected priority (generatedThisLoop st1) = Some (IMAGE, m) ->
  quiet input ->
  let accumulated := replace (match0 m) [] (generatedThisLoop st1) in
  let imagePrompt := String_of (group1 m) in
  exists msg,
    snd (run (MAX_LOOPS + fuel) env input)
    = Normal (Some {| messages := [msg] |})
    /\ project_id msg = id (project input)
    /\ chat_id msg = id (chat input)
    /\ sender msg = lit "ai"
    /\ (forall e,
          generateImage env imagePrompt (apiKey input) (imageModelOf input)
          = Throw e ->
          image_base64 msg = None
          /\ imageStatus msg = None
          /\ text msg = accumulated ++ nl ++ nl
                        ++ lit "(Image generation failed: "
                        ++ match e with
                           | ErrorObject message => message
                           | Thrown _ => lit "Unknown error"
                           end
                        ++ lit ")")
    /\ (forall imageBase64,
          generateImage env imagePrompt (apiKey input) (imageModelOf input)
          = Normal imageBase64 ->
          image_base64 msg = Some imageBase64
          /\ imageStatus msg = Some (lit "complete")
          /\ text msg = accumulated).
Proof.
  intros Hctx Hturn Hsel Hq; cbv zeta.
  pose proof (simpleTurn_text _ _ _ _ _ _ Hturn) as Htext; simpl in Htext.
  pose proof (simpleTurn_turn env input mem (dateTimeContextOf env)
                (entered (entryState input))) as Ht.
  rewrite Hturn in Ht; destruct Ht as ((_ & Hn1 & _) & _); simpl in Hn1.
  destruct (selected_IMAGE _ _ Hsel) as (H1 & H2 & H3 & H4).
  destruct (detect_IMAGE input st1 m H1 H2 H3 H4)
    as ((Hcont & Hact & Hp & Hf & _ & _) & Hparam).
  pose proof (detectTags_loop input st1) as (_ & Hn2 & _).
  remember (detectTags input st1) as d eqn:Hd; destruct d as [st2 c2].
  cbn [fst snd] in Hcont, Hact, Hp, Hf, Hn2, Hparam; subst c2.
  assert (Hlt : loopCount st2 < MAX_LOOPS)
    by (rewrite Hn2, Hn1; unfold MAX_LOOPS; lia).
  destruct (agentLoop_IMAGE env input mem (dateTimeContextOf env) fuel st2
              Hact Hlt Hq) as (st' & msg & Hloop & Hpid & Hcid & Hs & Himg).
  assert (Hprompt : imagePromptOf st2 = String_of (group1 m)).
  { unfold imagePromptOf; rewrite Hparam, Hp.
    destruct (truthy (String_of (group1 m))); reflexivity. }
  rewrite Hprompt, Hf, Htext in Himg.
  exists msg; split.
  - rewrite run_unfold, agentBody_unfold, Hctx.
    change (MAX_LOOPS + fuel) with (S (S fuel)).
    rewrite agentLoop_S by (simpl; unfold MAX_LOOPS; lia).
    rewrite iteration_eq.
    change (currentAction (entered (entryState input))) with SIMPLE; cbv iota.
    unfold caseSIMPLE, bind; rewrite Hturn, <- Hd, Hloop; reflexivity.
  - split; [exact Hpid | split; [exact Hcid | split; [exact Hs|]]].
    split.
    + intros e He; rewrite He in Himg; exact Himg.
    + intros b Hb; rewrite Hb in Himg; exact Himg.
Qed.

(** A run re-routed to IMAGE mode in which the generation fails. *)
Lemma C7_witness :
  let env := Sample.env [Sample.says "Here: <IMAGE>a cat</IMAGE>"]
               (Throw (ErrorObject (lit "quota"))) Sample.ok in
  exists msg,
    snd (run (MAX_LOOPS + 0) env Sample.input)
    = Normal (Some {| messages := [msg] |})
    /\ image_base64 msg = None
    /\ imageStatus msg = None
    /\ text msg = lit "Here: " ++ nl ++ nl
                  ++ lit "(Image generation failed: quota)".
Proof.
  cbv zeta.
  set (env := Sample.env [Sample.says "Here: <IMAGE>a cat</IMAGE>"]
                (Throw (ErrorObject (lit "quota"))) Sample.ok).
  set (st1 := fst (simpleTurn env Sample.input (lit "{}")
                     (dateTimeContextOf env)
                     (entered (entryState Sample.input)))).
  assert (Hturn : simpleTurn env Sample.input (lit "{}") (dateTimeContextOf env)
                    (entered (entryState Sample.input)) = (st1, Normal tt))
    by (vm_compute; reflexivity).
  assert (Hsel : selected priority (generatedThisLoop st1)
                 = Some (IMAGE,
                         {| index := 6; match0 := lit "<IMAGE>a cat</IMAGE>";
                            groups := [lit "a cat"] |}))
    by (vm_compute; reflexivity).
  assert (Hq : quiet Sample.input)
    by (intros cb x H; inversion H; reflexivity).
  destruct (C7_image_outcomes env Sample.input (lit "{}") st1 _ 0
              eq_refl Hturn Hsel Hq) as (msg & Hr & _ & _ & _ & Hthrow & _).
  destruct (Hthrow (ErrorObject (lit "quota")) eq_refl) as (Hi & Hs & Ht).
  exists msg; split; [exact Hr | split; [exact Hi | split; [exact Hs|]]].
  rewrite Ht; vm_compute; reflexivity.
Defined.

(** Two texts on which the order of the branches decides, as instances
    of C8. *)
Lemma C8_witness :
  let st1 := set_generatedThisLoop (lit "<IMAGE>a</IMAGE><SEARCH>b</SEARCH>")
               state0 in
  let st2 := set_generatedThisLoop (lit "<SEARCH>Deep  cats</SEARCH>")
               state0 in
  routes Sample.input st1 SEARCH (lit "b")
    {| index := 16; match0 := lit "<SEARCH>b</SEARCH>"; groups := [lit "b"] |}
  /\ snd (detectTags Sample.input st2) = Normal Continue
  /\ currentAction (fst (detectTags Sample.input st2)) = DEEP_SEARCH.
Proof.
  cbv zeta; split.
  - assert (H : selected priority
                  (generatedThisLoop
                     (set_generatedThisLoop
                        (lit "<IMAGE>a</IMAGE><SEARCH>b</SEARCH>") state0))
                = Some (SEARCH,
                        {| index := 16; match0 := lit "<SEARCH>b</SEARCH>";
                           groups := [lit "b"] |}))
      by (vm_compute; reflexivity).
    exact (proj1 (proj2 (C8_tag_priority Sample.input _)) _ _ H).
  - assert (Hm : searchMatch
                   (generatedThisLoop
                      (set_generatedThisLoop
                         (lit "<SEARCH>Deep  cats</SEARCH>") state0))
                 = Some {| index := 0;
                           match0 := lit "<SEARCH>Deep  cats</SEARCH>";
                           groups := [lit "Deep" ++ 32%N :: lit " cats"] |})
      by (vm_compute; reflexivity).
    assert (Hd : eq_ci (lit "deep") (lit "Deep"))
      by (repeat constructor).
    exact (proj2 (proj2 (proj2 (proj2 (C8_tag_priority Sample.input _))))
             _ (lit "Deep") 32%N (lit " cats") Hm eq_refl Hd eq_refl).
Defined.

(* ================================================================= *)
(** ** Further properties: what the other cases do *)

Lemma return_text_returns input :
  post (fun _ c => c <> Continue) (return_text input).
Proof. intros st; simpl; discriminate. Qed.

Ltac returns_step :=
  match goal with
  | |- post _ (bind get _) =>
      first [apply post_get_ret; intro; discriminate | apply post_bind; intro]
  | |- post _ (bind _ _) => apply post_bind; intro
  | |- post _ (try_catch _ _) => apply post_try_catch; [ | intro]
  | |- post _ (return_text _) => apply return_text_returns
  | |- post _ (throw _) => apply post_throw
  | |- post _ (match ?x with _ => _ end) => destruct x
  end.

(** Every case but SIMPLE ends the call: it returns or throws. *)
Lemma iteration_returns env input mem dtc st :
  currentAction st <> SIMPLE ->
  snd (iteration env input mem dtc st) <> Normal Continue.
Proof.
  intros Ha.
  assert (H : forall m : M Control,
            post (fun _ c => c <> Continue) m -> snd (m st) <> Normal Continue).
  { intros m Hm; specialize (Hm st).
    destruct (snd (m st)) as [c|e]; [congruence | discriminate]. }
  rewrite iteration_eq; destruct (currentAction st); try congruence; apply H.
  - unfold caseSEARCH; repeat returns_step.
  - unfold caseDEEP_SEARCH; repeat returns_step.
  - unfold caseTHINK; repeat returns_step.
  - unfold caseIMAGE; repeat returns_step.
  - unfold caseCANVAS; repeat returns_step.
  - unfold casePROJECT; repeat returns_step.
  - unfold caseSTUDY; repeat returns_step.
Qed.

(** X1. Only the SIMPLE case can continue the loop.  In any other mode an
    iteration returns or throws, so the loop runs exactly one more
    iteration from there: what the second hop generates is never scanned
    for tags, and the [return] after the loop is not reached through it. *)
Theorem X1_only_SIMPLE_continues env input memoryContext dateTimeContext
  fuel st :
  currentAction st <> SIMPLE ->
  loopCount st < MAX_LOOPS ->
  let r := agentLoop env input memoryContext dateTimeContext (S fuel) st in
  snd (iteration env input memoryContext dateTimeContext (entered st))
  <> Normal Continue
  /\ r = (let i := iteration env input memoryContext dateTimeContext
                     (entered st) in
          (fst i, match snd i with
                  | Normal (Return res) => Normal (Some res)
                  | Normal Continue => Normal None
                  | Throw e => Throw e
                  end))
  /\ snd r <> Normal None
  /\ loopCount (fst r) = S (loopCount st)
  /\ console (fst r)
     = console st ++ [LogLoop (S (loopCount st)) (currentAction st)]
  /\ currentAction (fst r) = currentAction st
  /\ generatedThisLoop (fst r) = generatedThisLoop st.
Proof.
  intros Ha Hlt; cbv zeta.
  assert (Ha' : currentAction (entered st) <> SIMPLE) by exact Ha.
  pose proof (iteration_returns env input memoryContext dateTimeContext
                (entered st) Ha') as Hr.
  pose proof (iteration_frame env input memoryContext dateTimeContext
                (entered st) Ha') as [[(Hc & Hn & _) (Hact & _)] [Hg _]].
  rewrite (agentLoop_S _ _ _ _ _ _ Hlt).
  destruct (iteration env input memoryContext dateTimeContext (entered st))
    as [st' [[|res]|e]]; simpl in *; try congruence;
    repeat split; try assumption; try discriminate.
Qed.

Lemma X1_witness :
  let env := Sample.env [] Sample.ok Sample.ok in
  let st := set_currentAction STUDY (entered state0) in
  snd (agentLoop env Sample.input (lit "{}") (dateTimeContextOf env) 1 st)
  <> Normal None
  /\ loopCount (fst (agentLoop env Sample.input (lit "{}")
                       (dateTimeContextOf env) 1 st)) = 2.
Proof.
  cbv zeta.
  assert (Ha : currentAction (set_currentAction STUDY (entered state0))
               <> SIMPLE) by discriminate.
  destruct (X1_only_SIMPLE_continues
              (Sample.env [] Sample.ok Sample.ok) Sample.input (lit "{}")
              (dateTimeContextOf (Sample.env [] Sample.ok Sample.ok)) 0
              (set_currentAction STUDY (entered state0)) Ha (le_n 2))
    as (_ & _ & Hn & Hl & _).
  split; [exact Hn | exact Hl].
Defined.

(* ================================================================= *)
(** ** Further properties: attached files *)

Lemma readFiles_all env : forall fs datas parts st,
  Forall2 (fun f d => readAsBase64 env f = Normal d) fs datas ->
  readFiles env fs parts st = (st, Normal (inlineParts fs datas ++ parts)).
Proof.
  unfold inlineParts.
  induction fs as [|f fs IH]; intros datas parts st H; inversion H; subst.
  - reflexivity.
  - simpl; unfold bind, await.
    match goal with Hd : readAsBase64 env f = _ |- _ => rewrite Hd end.
    rewrite (IH _ _ _ H4), <- app_assoc; reflexivity.
Qed.

Lemma readFiles_first_failure env : forall fs1 datas f fs2 e parts st,
  Forall2 (fun f d => readAsBase64 env f = Normal d) fs1 datas ->
  readAsBase64 env f = Throw e ->
  readFiles env (fs1 ++ f :: fs2) parts st = (st, Throw e).
Proof.
  induction fs1 as [|g fs1 IH]; intros datas f fs2 e parts st H He;
    inversion H; subst; simpl; unfold bind, await.
  - rewrite He; reflexivity.
  - match goal with Hd : readAsBase64 env g = _ |- _ => rewrite Hd end.
    eapply IH; eassumption.
Qed.

(** X2. The files of the input are read in order and each is put in front
    of the parts of the user turn: when all reads succeed the SIMPLE case
    requests the stream for the history followed by one user turn whose
    parts are the files in reverse order and then the prompt; the locals
    are untouched before the stream.  When a read fails, the exception of
    the first failing file is thrown, the files after it are not read and
    no stream is requested. *)
Theorem X2_files_before_prompt env input memoryContext dateTimeContext st fs :
  files input = Some fs ->
  (forall datas,
     Forall2 (fun f d => readAsBase64 env f = Normal d) fs datas ->
     simpleTurn env input memoryContext dateTimeContext st
     = match generateContentStream env
               (simpleRequest env input memoryContext dateTimeContext
                  (inlineParts fs datas ++ [TextPart (currentPrompt st)])) with
       | Normal response =>
           streamSimple input response (set_generatedThisLoop [] st)
       | Throw e => (st, Throw e)
       end)
  /\ (forall fs1 datas f fs2 e,
        fs = fs1 ++ f :: fs2 ->
        Forall2 (fun f d => readAsBase64 env f = Normal d) fs1 datas ->
        readAsBase64 env f = Throw e ->
        simpleTurn env input memoryContext dateTimeContext st = (st, Throw e)).
Proof.
  intros Hf; split.
  - intros datas H.
    unfold simpleTurn; unfold bind at 1, get; rewrite Hf.
    set (userParts := if 0 <? List.length fs
                      then readFiles env fs [TextPart (currentPrompt st)]
                      else ret [TextPart (currentPrompt st)]).
    assert (Hparts :
      userParts st
      = (st, Normal (inlineParts fs datas ++ [TextPart (currentPrompt st)]))).
    { unfold userParts; destruct fs as [|f fs']; [inversion H; reflexivity|].
      simpl Nat.ltb; cbv iota; apply readFiles_all, H. }
    unfold bind at 1; rewrite Hparts.
    unfold bind at 1, await.
    destruct (generateContentStream env _) as [response|e]; reflexivity.
  - intros fs1 datas f fs2 e -> H He.
    unfold simpleTurn; unfold bind at 1, get; rewrite Hf.
    assert (Hlen : (0 <? List.length (fs1 ++ f :: fs2)) = true)
      by (apply Nat.ltb_lt; rewrite length_app; simpl; lia).
    rewrite Hlen; unfold bind at 1.
    rewrite (readFiles_first_failure env fs1 datas f fs2 e _ st H He).
    reflexivity.
Qed.

Lemma X2_witness :
  let f1 := {| file_name := lit "a.png"; file_type := lit "image/png" |} in
  let f2 := {| file_name := lit "b.txt"; file_type := lit "text/plain" |} in
  let env := Sample.env [Sample.says "Hi!"] Sample.ok Sample.ok in
  let input :=
    {| prompt := lit "hello"; files := Some [f1; f2]; apiKey := lit "k";
       project := {| id := lit "p1" |}; chat := {| id := lit "c1" |};
       history := []; user := {| id := lit "u" |}; profile := None;
       onStreamChunk := None |} in
  inlineParts [f1; f2] [lit "AAAA"; lit "AAAA"]
    ++ [TextPart (lit "hello")]
  = [InlineData (lit "AAAA") (lit "text/plain");
     InlineData (lit "AAAA") (lit "image/png"); TextPart (lit "hello")]
  /\ finalResponseText
       (fst (simpleTurn env input (lit "{}") (dateTimeContextOf env)
               (entered (entryState input))))
     = lit "Hi!".
Proof.
  cbv zeta; split; [reflexivity|].
  set (f1 := {| file_name := lit "a.png"; file_type := lit "image/png" |}).
  set (f2 := {| file_name := lit "b.txt"; file_type := lit "text/plain" |}).
  set (env := Sample.env [Sample.says "Hi!"] Sample.ok Sample.ok).
  set (input :=
    {| prompt := lit "hello"; files := Some [f1; f2]; apiKey := lit "k";
       project := {| id := lit "p1" |}; chat := {| id := lit "c1" |};
       history := []; user := {| id := lit "u" |}; profile := None;
       onStreamChunk := None |}).
  assert (Hd : Forall2 (fun f d => readAsBase64 env f = Normal d)
                 [f1; f2] [lit "AAAA"; lit "AAAA"])
    by (repeat constructor).
  rewrite (proj1 (X2_files_before_prompt env input (lit "{}")
                    (dateTimeContextOf env) (entered (entryState input))
                    [f1; f2] eq_refl) _ Hd).
  vm_compute; reflexivity.
Defined.

(* ================================================================= *)
(** ** Further properties: the text of the SIMPLE stream *)

Lemma emit_state input x st : fst (emit input x st) = emitted input x st.
Proof.
  unfold emit, emitted; destruct (onStreamChunk input) as [cb|];
    [|reflexivity].
  unfold bind, modify; simpl; destruct (cb x); reflexivity.
Qed.

Lemma emitted_streamed input x st :
  streamed (emitted input x st)
  = streamed st ++ (if isSome (onStreamChunk input) then [x] else [])
  /\ generatedThisLoop (emitted input x st) = generatedThisLoop st
  /\ finalResponseText (emitted input x st) = finalResponseText st.
Proof.
  unfold emitted; destruct (onStreamChunk input); simpl;
    rewrite ?app_nil_r; repeat split.
Qed.

Lemma captureGrounding_streamed c st :
  streamed (fst (captureGrounding c st)) = streamed st.
Proof.
  unfold captureGrounding.
  destruct (candidate0 c) as [cand|]; [|reflexivity].
  destruct (candidate_groundingMetadata cand) as [gm|]; [|reflexivity].
  destruct (groundingChunks gm); reflexivity.
Qed.

Lemma for_await_completes s body st :
  snd (for_await s body st) = Normal tt -> failure s = None.
Proof.
  unfold for_await, bind.
  destruct (for_of (chunks s) body st) as [st1 [[]|e]]; simpl;
    [|discriminate].
  destruct (failure s); [discriminate | reflexivity].
Qed.

Lemma texts_concat response :
  flat_map (fun c => if truthy (textOf c) then textOf c else [])
    (chunks response)
  = List.concat (texts response).
Proof.
  unfold texts; induction (chunks response) as [|c l IH]; simpl;
    [reflexivity|].
  rewrite List.concat_app, IH.
  destruct (truthy (textOf c)); simpl; rewrite ?app_nil_r; reflexivity.
Qed.

Lemma texts_streamed (p : bool) response :
  flat_map (fun c => if truthy (textOf c)
                     then (if p then [textOf c] else []) else [])
    (chunks response)
  = if p then texts response else [].
Proof.
  unfold texts; induction (chunks response) as [|c l IH]; simpl;
    [destruct p; reflexivity|].
  rewrite IH; destruct p, (truthy (textOf c)); reflexivity.
Qed.

(** One round of the SIMPLE loop that completes. *)
Lemma streamSimple_round input c st :
  let body :=
    match chunk_text c with
    | Some t =>
        if truthy t then
          modify (fun st =>
            set_generatedThisLoop (generatedThisLoop st ++ t) st) ;;
          append_finalResponseText t ;;
          emit input t ;;
          captureGrounding c
        else ret tt
    | None => ret tt
    end in
  snd (body st) = Normal tt ->
  let t := if truthy (textOf c) then textOf c else [] in
  generatedThisLoop (fst (body st)) = generatedThisLoop st ++ t
  /\ finalResponseText (fst (body st)) = finalResponseText st ++ t
  /\ streamed (fst (body st))
     = streamed st
       ++ (if truthy (textOf c)
           then (if isSome (onStreamChunk input) then [textOf c] else [])
           else []).
Proof.
  cbv zeta; unfold textOf.
  destruct (chunk_text c) as [t|]; simpl;
    [|intros _; rewrite !app_nil_r; auto].
  destruct (truthy t); simpl; [|intros _; rewrite !app_nil_r; auto].
  unfold bind, modify, append_finalResponseText; simpl.
  match goal with |- context [emit input t ?s] =>
    pose proof (emit_state input t s) as He;
    destruct (emitted_streamed input t s) as (Hs & Hg & Hf);
    destruct (emit input t s) as [st1 [[]|e]] end;
    simpl in *; [|discriminate].
  intros _.
  destruct (captureGrounding_sametext c st1) as [Hg' Hf'].
  rewrite Hg', Hf', captureGrounding_streamed; subst st1.
  rewrite Hg, Hf, Hs; auto.
Qed.

Lemma streamSimple_texts input response st :
  snd (streamSimple input response st) = Normal tt ->
  generatedThisLoop (fst (streamSimple input response st))
  = generatedThisLoop st ++ List.concat (texts response)
  /\ finalResponseText (fst (streamSimple input response st))
     = finalResponseText st ++ List.concat (texts response).
Proof.
  intros H; unfold streamSimple in *; split.
  - rewrite <- texts_concat.
    apply (for_await_accumulates generatedThisLoop); [|exact H].
    intros c s Hs; apply (streamSimple_round input c s Hs).
  - rewrite <- texts_concat.
    apply (for_await_accumulates finalResponseText); [|exact H].
    intros c s Hs; apply (streamSimple_round input c s Hs).
Qed.

Lemma streamSimple_streamed input response st :
  snd (streamSimple input response st) = Normal tt ->
  streamed (fst (streamSimple input response st))
  = streamed st
    ++ (if isSome (onStreamChunk input) then texts response else []).
Proof.
  intros H; rewrite <- texts_streamed; unfold streamSimple in *.
  apply (for_await_accumulates streamed); [|exact H].
  intros c s Hs; apply (streamSimple_round input c s Hs).
Qed.

(** X3. When the SIMPLE stream loop completes, the stream did not fail
    and the texts of its chunks (those that are truthy, in order) were
    appended both to [generatedThisLoop] and to [finalResponseText], and
    handed one by one to the stream callback when there is one: what the
    callback saw concatenates to what was generated. *)
Theorem X3_simple_stream_text input response st :
  snd (streamSimple input response st) = Normal tt ->
  let st' := fst (streamSimple input response st) in
  failure response = None
  /\ generatedThisLoop st'
     = generatedThisLoop st ++ List.concat (texts response)
  /\ finalResponseText st'
     = finalResponseText st ++ List.concat (texts response)
  /\ streamed st'
     = streamed st
       ++ (if isSome (onStreamChunk input) then texts response else []).
Proof.
  intros H; cbv zeta; unfold streamSimple in *.
  split; [eapply for_await_completes; exact H|].
  split; [|split].
  - rewrite <- texts_concat.
    apply (for_await_accumulates generatedThisLoop); [|exact H].
    intros c s Hs; apply (streamSimple_round input c s Hs).
  - rewrite <- texts_concat.
    apply (for_await_accumulates finalResponseText); [|exact H].
    intros c s Hs; apply (streamSimple_round input c s Hs).
  - rewrite <- texts_streamed.
    apply (for_await_accumulates streamed); [|exact H].
    intros c s Hs; apply (streamSimple_round input c s Hs).
Qed.

Lemma X3_witness :
  let response :=
    {| chunks := [Sample.says "Sure <SEAR";
                  {| chunk_text := None; candidates := None |};
                  Sample.says ""; Sample.says "CH>cats</SEARCH>"];
       failure := None |} in
  let st' := fst (streamSimple Sample.input response state0) in
  generatedThisLoop st' = lit "Sure <SEARCH>cats</SEARCH>"
  /\ streamed st' = [lit "Sure <SEAR"; lit "CH>cats</SEARCH>"].
Proof.
  cbv zeta.
  set (response :=
    {| chunks := [Sample.says "Sure <SEAR";
                  {| chunk_text := None; candidates := None |};
                  Sample.says ""; Sample.says "CH>cats</SEARCH>"];
       failure := None |}).
  assert (H : snd (streamSimple Sample.input response state0) = Normal tt)
    by (vm_compute; reflexivity).
  destruct (X3_simple_stream_text Sample.input response state0 H)
    as (_ & Hg & _ & Hs).
  split; [rewrite Hg | rewrite Hs]; vm_compute; reflexivity.
Defined.

Lemma selected_none g : selected priority g = None -> noTag g.
Proof.
  unfold priority; simpl; intros H a.
  destruct (deepMatch g) eqn:H1; [discriminate|].
  destruct (searchMatch g) eqn:H2; [discriminate|].
  destruct (thinkMatch g) eqn:H3; [discriminate|].
  destruct (imageMatch g) eqn:H4; [discriminate|].
  destruct (projectMatch g) eqn:H5; [discriminate|].
  destruct (canvasMatch g) eqn:H6; [discriminate|].
  destruct (studyMatch g) eqn:H7; [discriminate|].
  destruct a; simpl; auto.
Qed.

(** What the tag detection decides, as a function of the generated text. *)
Lemma detectTags_decision input st :
  match selected priority (generatedThisLoop st) with
  | Some (a, m) =>
      snd (detectTags input st) = Normal Continue
      /\ currentAction (fst (detectTags input st)) = a
      /\ currentPrompt (fst (detectTags input st)) = promptOf input a m
      /\ finalResponseText (fst (detectTags input st))
         = replace (match0 m) [] (finalResponseText st)
  | None =>
      snd (detectTags input st) <> Normal Continue
      /\ currentAction (fst (detectTags input st)) = currentAction st
      /\ currentPrompt (fst (detectTags input st)) = currentPrompt st
      /\ finalResponseText (fst (detectTags input st)) = finalResponseText st
  end.
Proof.
  destruct (selected priority (generatedThisLoop st)) as [[a m]|] eqn:E.
  - destruct (selected_routes input st a m E) as (H1 & H2 & H3 & H4 & _).
    auto.
  - rewrite (detect_none input st (selected_none _ E)); simpl.
    split; [discriminate|].
    unfold remembered; destruct (50 <? _); repeat split.
Qed.

(** X4. The re-routing decision does not depend on how the model's text
    is cut into chunks: two SIMPLE streams whose chunk texts concatenate
    to the same text lead, from the same state, to the same decision
    (continue or return), the same action and prompt, and the same
    response text. *)
Theorem X4_chunking_is_irrelevant input response1 response2 st :
  snd (streamSimple input response1 st) = Normal tt ->
  snd (streamSimple input response2 st) = Normal tt ->
  List.concat (texts response1) = List.concat (texts response2) ->
  let d1 := detectTags input (fst (streamSimple input response1 st)) in
  let d2 := detectTags input (fst (streamSimple input response2 st)) in
  (snd d1 = Normal Continue <-> snd d2 = Normal Continue)
  /\ currentAction (fst d1) = currentAction (fst d2)
  /\ currentPrompt (fst d1) = currentPrompt (fst d2)
  /\ finalResponseText (fst d1) = finalResponseText (fst d2).
Proof.
  intros H1 H2 Heq; cbv zeta.
  destruct (streamSimple_texts input response1 st H1) as (Hg1 & Hf1).
  destruct (streamSimple_texts input response2 st H2) as (Hg2 & Hf2).
  assert (Ht : forall response,
            currentAction (fst (streamSimple input response st))
            = currentAction st
            /\ currentPrompt (fst (streamSimple input response st))
               = currentPrompt st).
  { intros response.
    assert (Hk : keeps R_turn (streamSimple input response)).
    { unfold streamSimple; keeps_auto;
        try (eapply keeps_weaken; [exact R_frame_turn | auto with frames]). }
    destruct (Hk st) as (_ & Ha & Hp & _); auto. }
  destruct (Ht response1) as [Ha1 Hp1]; destruct (Ht response2) as [Ha2 Hp2].
  pose proof (detectTags_decision input (fst (streamSimple input response1 st)))
    as D1.
  pose proof (detectTags_decision input (fst (streamSimple input response2 st)))
    as D2.
  rewrite Hg1 in D1; rewrite Hg2, <- Heq in D2.
  destruct (selected priority (generatedThisLoop st ++ List.concat (texts response1)))
    as [[a m]|].
  - destruct D1 as (C1 & A1 & P1 & F1); destruct D2 as (C2 & A2 & P2 & F2).
    rewrite C1, C2, A1, A2, P1, P2, F1, F2, Hf1, Hf2, Heq.
    repeat split; auto.
  - destruct D1 as (C1 & A1 & P1 & F1); destruct D2 as (C2 & A2 & P2 & F2).
    rewrite A1, A2, P1, P2, F1, F2, Hf1, Hf2, Heq, Ha1, Ha2, Hp1, Hp2.
    repeat split; auto; intros; congruence.
Qed.

Lemma X4_witness :
  let r1 := {| chunks := [Sample.says "<IMA"; Sample.says "GE>cat</IMAGE>"];
               failure := None |} in
  let r2 := {| chunks := [Sample.says "<IMAGE>c"; Sample.says "at</IMAGE>"];
               failure := None |} in
  currentAction
    (fst (detectTags Sample.input (fst (streamSimple Sample.input r1 state0))))
  = currentAction
      (fst (detectTags Sample.input (fst (streamSimple Sample.input r2 state0)))).
Proof.
  cbv zeta.
  refine (proj1 (proj2 (X4_chunking_is_irrelevant Sample.input _ _ state0
                          _ _ _)));
    vm_compute; reflexivity.
Defined.

(* ================================================================= *)
(** ** Further properties: the THINK tag *)

Lemma thinkMatch_shape g m :
  thinkMatch g = Some m ->
  (exists cap,
     match0 m = lit "<THINK>" ++ cap ++ lit "</THINK>"
     /\ group1 m = Some cap)
  \/ (String_match g re_THINK = None
      /\ match0 m = lit "<THINK>" /\ group1 m = None).
Proof.
  intros H; destruct (orElse_Some _ _ _ H) as [H1|[H1 H2]].
  - left. destruct (String_match_tagPair _ _ _ _ H1)
      as (cap & _ & _ & Hm & Hg & _).
    exists cap; auto.
  - right. destruct (String_match_replace _ _ _ H2) as (_ & _ & _ & _ & HM & _).
    destruct (Matches_THINK_open _ _ HM) as [Hw Hgs].
    unfold group1; rewrite Hgs; auto.
Qed.

Lemma orElse_match_replace g r1 r2 m :
  orElse (String_match g r1) (String_match g r2) = Some m ->
  exists pre post,
    g = pre ++ match0 m ++ post /\ replace (match0 m) [] g = pre ++ post.
Proof.
  intros H; destruct (orElse_Some _ _ _ H) as [H1|[_ H1]];
    destruct (String_match_replace _ _ _ H1) as (pre & post & Hg & _ & _ & Hr);
    exists pre, post; auto.
Qed.

(** X5. A run whose SIMPLE iteration completes with a text in which no
    DEEP or SEARCH pattern matches and a THINK tag is found re-routes to
    THINK and cuts the matched text out of the response.  With a closing
    tag the new prompt is the trimmed content, or the original prompt when
    the content is empty (so a content of white space only gives an empty
    prompt); with the opening tag alone only [<THINK>] is cut and the
    prompt is the original one. *)
Theorem X5_think_tag env input mem st1 m fuel :
  getContext env allLayers = Normal mem ->
  simpleTurn env input mem (dateTimeContextOf env)
    (entered (entryState input)) = (st1, Normal tt) ->
  deepMatch (generatedThisLoop st1) = None ->
  searchMatch (generatedThisLoop st1) = None ->
  thinkMatch (generatedThisLoop st1) = Some m ->
  let st := fst (run (MAX_LOOPS + fuel) env input) in
  loops (console st) = [(1, SIMPLE); (2, THINK)]
  /\ currentAction st = THINK
  /\ (exists pre post t,
        generatedThisLoop st1 = pre ++ match0 m ++ post
        /\ finalResponseText st = pre ++ post ++ t)
  /\ ((exists cap,
         match0 m = lit "<THINK>" ++ cap ++ lit "</THINK>"
         /\ currentPrompt st = (if truthy cap then trim cap else prompt input)
         /\ (cap <> [] -> blank cap = true -> currentPrompt st = []))
      \/ (String_match (generatedThisLoop st1) re_THINK = None
          /\ match0 m = lit "<THINK>"
          /\ currentPrompt st = prompt input)).
Proof.
  intros Hctx Hturn H1 H2 H3; cbv zeta.
  assert (Hsel : selected priority (generatedThisLoop st1) = Some (THINK, m)).
  { apply selected_first; [unfold priority; simpl; tauto | exact H3|].
    intros b [<-|[<-|[]]]; assumption. }
  destruct (run_rerouted env input mem st1 THINK m fuel Hctx Hturn Hsel)
    as (_ & Hl & Ha & Hp & t & Hf).
  split; [exact Hl | split; [exact Ha | split]].
  - destruct (orElse_match_replace _ _ _ _ H3) as (pre & post & Hg & Hr).
    exists pre, post, t; split; [exact Hg|].
    rewrite Hf, Hr, app_assoc; reflexivity.
  - unfold promptOf, thinkPrompt in Hp.
    destruct (thinkMatch_shape _ _ H3) as [(cap & Hm & Hg)|(Hn & Hm & Hg)].
    + left; exists cap; rewrite Hg in Hp.
      split; [exact Hm | split; [exact Hp|]].
      intros Hne Hb; rewrite Hp.
      destruct cap; [congruence|]; simpl; apply trim_nil, Hb.
    + right; rewrite Hg in Hp; auto.
Qed.

Lemma X5_witness :
  let env := Sample.env [Sample.says "Hmm <THINK>   </THINK> ok"]
               Sample.ok Sample.ok in
  let st := fst (run (MAX_LOOPS + 0) env Sample.input) in
  loops (console st) = [(1, SIMPLE); (2, THINK)]
  /\ currentAction st = THINK.
Proof.
  cbv zeta.
  set (env := Sample.env [Sample.says "Hmm <THINK>   </THINK> ok"]
                Sample.ok Sample.ok).
  set (st1 := fst (simpleTurn env Sample.input (lit "{}")
                     (dateTimeContextOf env)
                     (entered (entryState Sample.input)))).
  assert (Hturn : simpleTurn env Sample.input (lit "{}") (dateTimeContextOf env)
                    (entered (entryState Sample.input)) = (st1, Normal tt))
    by (vm_compute; reflexivity).
  assert (H1 : deepMatch (generatedThisLoop st1) = None)
    by (vm_compute; reflexivity).
  assert (H2 : searchMatch (generatedThisLoop st1) = None)
    by (vm_compute; reflexivity).
  assert (H3 : thinkMatch (generatedThisLoop st1)
               = Some {| index := 4; match0 := lit "<THINK>   </THINK>";
                         groups := [lit "   "] |})
    by (vm_compute; reflexivity).
  destruct (X5_think_tag env Sample.input (lit "{}") st1 _ 0
              eq_refl Hturn H1 H2 H3) as (Hl & Ha & _).
  split; [exact Hl | exact Ha].
Defined.

(* ================================================================= *)
(** ** Further properties: what the second hop appends *)

Lemma bind_normal {A B} (m : M A) (f : A -> M B) st st' b :
  bind m f st = (st', Normal b) ->
  exists st1 a, m st = (st1, Normal a) /\ f a st1 = (st', Normal b).
Proof.
  unfold bind; destruct (m st) as [st1 [a|e]]; intros H;
    [exists st1, a; auto | discriminate].
Qed.

Lemma emit_normal input x st st' :
  emit input x st = (st', Normal tt) -> st' = emitted input x st.
Proof. intros H; rewrite <- (emit_state input x st), H; reflexivity. Qed.

Lemma streamText_round input c st :
  let body :=
    match chunk_text c with
    | Some t =>
        if truthy t then append_finalResponseText t ;; emit input t
        else ret tt
    | None => ret tt
    end in
  snd (body st) = Normal tt ->
  finalResponseText (fst (body st))
  = finalResponseText st ++ (if truthy (textOf c) then textOf c else []).
Proof.
  cbv zeta; unfold textOf.
  destruct (chunk_text c) as [t|]; simpl;
    [|intros _; rewrite app_nil_r; auto].
  destruct (truthy t); simpl; [|intros _; rewrite app_nil_r; auto].
  unfold bind, append_finalResponseText, modify; simpl.
  match goal with |- context [emit input t ?s] =>
    pose proof (emit_state input t s) as He;
    destruct (emitted_streamed input t s) as (_ & _ & Hf);
    destruct (emit input t s) as [st1 [[]|e]] end;
    simpl in *; [|discriminate].
  intros _; subst st1; exact Hf.
Qed.

Lemma streamText_final input response st :
  snd (streamText input response st) = Normal tt ->
  failure response = None
  /\ finalResponseText (fst (streamText input response st))
     = finalResponseText st ++ List.concat (texts response).
Proof.
  intros H; unfold streamText in *.
  split; [eapply for_await_completes; exact H|].
  rewrite <- texts_concat.
  apply (for_await_accumulates finalResponseText); [|exact H].
  intros c s Hs; apply (streamText_round input c s Hs).
Qed.

Lemma streamSearch_final input response st :
  snd (streamSearch input response st) = Normal tt ->
  failure response = None
  /\ finalResponseText (fst (streamSearch input response st))
     = finalResponseText st ++ List.concat (texts response).
Proof.
  intros H; unfold streamSearch in *.
  split; [eapply for_await_completes; exact H|].
  rewrite <- texts_concat.
  apply (for_await_accumulates finalResponseText); [|exact H].
  intros c s Hs.
  pose proof (streamText_round input c s) as Hr; cbv zeta in Hr.
  match type of Hs with snd (?m s) = _ =>
    destruct (m s) as [s2 r] eqn:E end.
  simpl in Hs; subst r; simpl.
  apply bind_normal in E; destruct E as (s1 & [] & E1 & E2).
  rewrite E1 in Hr; simpl in Hr.
  destruct (captureGrounding_sametext c s1) as [_ Hf].
  rewrite E2 in Hf; simpl in Hf.
  rewrite Hf; apply Hr; reflexivity.
Qed.

Lemma return_text_eq input st :
  return_text input st
  = (st, Normal (Return {| messages := [textMessage input st] |})).
Proof. reflexivity. Qed.

(** The common shape of the streaming cases: a status line, the request
    built from the current prompt, the text loop, the return. *)
Lemma hop_streams input status (call : jsstring -> Completion Stream)
  (loop : Stream -> M unit) st st' r :
  (forall response s,
     snd (loop response s) = Normal tt ->
     failure response = None
     /\ finalResponseText (fst (loop response s))
        = finalResponseText s ++ List.concat (texts response)) ->
  (emit input status ;;
   s <- get ;;
   response <- await (call (currentPrompt s)) ;;
   loop response ;;
   return_text input) st = (st', Normal (Return r)) ->
  exists response,
    call (currentPrompt st) = Normal response
    /\ failure response = None
    /\ r = {| messages := [textMessage input st'] |}
    /\ finalResponseText st'
       = finalResponseText st ++ List.concat (texts response).
Proof.
  intros Hloop H.
  apply bind_normal in H; destruct H as (s1 & [] & He & H).
  apply emit_normal in He; subst s1.
  destruct (emitted_fields input status st) as (Hf & _ & _ & Hp).
  unfold bind at 1, get in H.
  apply bind_normal in H; destruct H as (s2 & response & Hc & H).
  unfold await in Hc; inversion Hc; subst s2; clear Hc.
  apply bind_normal in H; destruct H as (s3 & [] & Hl & H).
  rewrite return_text_eq in H; inversion H; subst; clear H.
  destruct (Hloop response (emitted input status st))
    as [Hfail Hfin]; [rewrite Hl; reflexivity|].
  rewrite Hl in Hfin; simpl in Hfin.
  exists response; rewrite <- Hp.
  repeat split; auto; rewrite Hfin, Hf; reflexivity.
Qed.

(** X6. In SEARCH, THINK, CANVAS and STUDY mode, an iteration that returns
    has obtained a stream for the request of its mode, built from the
    current prompt; the stream did not fail, and the text of the returned
    message is the response accumulated before followed by the chunk texts
    of that stream, unchanged (tags in them are left as they are). *)
Theorem X6_second_hop_appends env input memoryContext dateTimeContext
  a req st st' r :
  currentAction st = a ->
  hopRequest env input memoryContext dateTimeContext a (currentPrompt st)
  = Some req ->
  iteration env input memoryContext dateTimeContext st
  = (st', Normal (Return r)) ->
  exists response m,
    generateContentStream env req = Normal response
    /\ failure response = None
    /\ messages r = [m]
    /\ text m = finalResponseText st ++ List.concat (texts response)
    /\ finalResponseText st' = text m.
Proof.
  intros Ha Hreq Hit; rewrite iteration_eq, Ha in Hit.
  assert (Hfinish : forall response,
            failure response = None ->
            r = {| messages := [textMessage input st'] |} ->
            finalResponseText st'
            = finalResponseText st ++ List.concat (texts response) ->
            generateContentStream env req = Normal response ->
            exists response m,
              generateContentStream env req = Normal response
              /\ failure response = None
              /\ messages r = [m]
              /\ text m = finalResponseText st ++ List.concat (texts response)
              /\ finalResponseText st' = text m).
  { intros response Hf -> Hfin Hc.
    exists response, (textMessage input st'); simpl; auto. }
  destruct a; simpl in Hreq; inversion Hreq; subst req; clear Hreq.
  - (* SEARCH *)
    destruct (hop_streams input _
                (fun p => generateContentStream env
                            (searchRequest env dateTimeContext p))
                (streamSearch input) st st' r
                (streamSearch_final input) Hit)
      as (response & Hc & Hf & Hr & Hfin); eauto.
  - (* THINK *)
    unfold caseTHINK in Hit.
    apply bind_normal in Hit; destruct Hit as (s1 & [] & He & H).
    apply emit_normal in He; subst s1.
    match type of H with context [emitted input ?x st] =>
      destruct (emitted_fields input x st) as (Hf0 & _ & _ & Hp0);
      remember (emitted input x st) as s1 end.
    apply bind_normal in H; destruct H as (s2 & [] & Hi & H).
    unfold await in Hi; inversion Hi; subst s2; clear Hi.
    unfold bind at 1, get in H.
    apply bind_normal in H; destruct H as (s3 & response & Hc & H).
    unfold await in Hc; inversion Hc; subst s3; clear Hc.
    apply bind_normal in H; destruct H as (s4 & [] & Hl & H).
    rewrite return_text_eq in H; inversion H; subst s4 r; clear H.
    destruct (streamText_final input response s1) as [Hfail Hfin];
      [rewrite Hl; reflexivity|].
    rewrite Hl in Hfin; simpl in Hfin.
    apply (Hfinish response); auto.
    + rewrite Hfin, Hf0; reflexivity.
    + rewrite <- Hp0; assumption.
  - (* CANVAS *)
    destruct (hop_streams input _
                (fun p => generateContentStream env (canvasRequest p))
                (streamText input) st st' r
                (streamText_final input) Hit)
      as (response & Hc & Hf & Hr & Hfin); eauto.
  - (* STUDY *)
    destruct (hop_streams input _
                (fun p => generateContentStream env (studyRequest p))
                (streamText input) st st' r
                (streamText_final input) Hit)
      as (response & Hc & Hf & Hr & Hfin); eauto.
Qed.

Lemma X6_witness :
  let env := Sample.env [] Sample.ok Sample.ok in
  let st := set_currentAction STUDY
              (set_finalResponseText (lit "Plan: <IMAGE>x</IMAGE> ")
                 (entered state0)) in
  let out := iteration env Sample.input (lit "{}") (dateTimeContextOf env) st in
  exists response m,
    generateContentStream env (studyRequest (currentPrompt st))
    = Normal response
    /\ failure response = None
    /\ [textMessage Sample.input (fst out)] = [m]
    /\ text m = finalResponseText st ++ List.concat (texts response)
    /\ finalResponseText (fst out) = text m.
Proof.
  cbv zeta.
  set (env := Sample.env [] Sample.ok Sample.ok).
  set (st := set_currentAction STUDY
               (set_finalResponseText (lit "Plan: <IMAGE>x</IMAGE> ")
                  (entered state0))).
  set (out := iteration env Sample.input (lit "{}") (dateTimeContextOf env) st).
  assert (Hout : out
                 = (fst out,
                    Normal (Return {| messages :=
                                        [textMessage Sample.input (fst out)] |})))
    by (vm_compute; reflexivity).
  exact (X6_second_hop_appends env Sample.input (lit "{}")
           (dateTimeContextOf env) STUDY
           (studyRequest (currentPrompt st)) st (fst out)
           {| messages := [textMessage Sample.input (fst out)] |}
           eq_refl eq_refl Hout).
Defined.

(* ================================================================= *)
(** ** Further properties: when the message has a citation field *)

Lemma for_of_any {A} (G : State -> bool) (p : A -> bool) (body : A -> M unit) :
  (forall x st, snd (body x st) = Normal tt ->
                G (fst (body x st)) = G st || p x) ->
  forall l st, snd (for_of l body st) = Normal tt ->
               G (fst (for_of l body st)) = G st || existsb p l.
Proof.
  intros Hb; induction l as [|x l IH]; intros st H; simpl in *.
  - rewrite orb_false_r; reflexivity.
  - unfold bind in *. specialize (Hb x st).
    destruct (body x st) as [st1 [[]|e]]; simpl in *; [|discriminate].
    rewrite (IH st1 H), Hb, orb_assoc; reflexivity.
Qed.

Lemma for_await_any (G : State -> bool) (p : Chunk -> bool)
  (body : Chunk -> M unit) (s : Stream) :
  (forall x st, snd (body x st) = Normal tt ->
                G (fst (body x st)) = G st || p x) ->
  forall st, snd (for_await s body st) = Normal tt ->
             G (fst (for_await s body st)) = G st || existsb p (chunks s).
Proof.
  intros Hb st H; unfold for_await, bind in *.
  pose proof (for_of_any G p body Hb (chunks s) st) as Hf.
  destruct (for_of (chunks s) body st) as [st1 [[]|e]]; simpl in *;
    [|discriminate].
  destruct (failure s); simpl in *; [discriminate | auto].
Qed.

Lemma captureGrounding_present c st :
  present (fst (captureGrounding c st)) = present st || hasGroundingChunks c.
Proof.
  unfold captureGrounding, hasGroundingChunks, present.
  destruct (candidate0 c) as [cand|]; simpl; [|rewrite orb_false_r; auto].
  destruct (candidate_groundingMetadata cand) as [gm|]; simpl;
    [|rewrite orb_false_r; auto].
  destruct (groundingChunks gm); simpl;
    [rewrite orb_true_r | rewrite orb_false_r]; reflexivity.
Qed.

Lemma captureGrounding_memory c st :
  memory (fst (captureGrounding c st)) = memory st.
Proof.
  unfold captureGrounding, memory.
  destruct (candidate0 c) as [cand|]; simpl; [|reflexivity].
  destruct (candidate_groundingMetadata cand) as [gm|]; simpl; [|reflexivity].
  destruct (groundingChunks gm); reflexivity.
Qed.

Lemma payload_present st :
  payload_groundingMetadata (metadataPayload st)
  = if present st then Some (captured st) else None.
Proof.
  unfold present, captured.
  destruct (payload_groundingMetadata (metadataPayload st)); reflexivity.
Qed.

Lemma streamSimple_present input response st :
  snd (streamSimple input response st) = Normal tt ->
  present (fst (streamSimple input response st))
  = present st
    || existsb (fun c => truthy (textOf c) && hasGroundingChunks c)
         (chunks response).
Proof.
  unfold streamSimple; apply for_await_any.
  clear st; intros c st; unfold textOf.
  destruct (chunk_text c) as [t|]; simpl;
    [|intros _; rewrite orb_false_r; reflexivity].
  destruct (truthy t); simpl; [|intros _; rewrite orb_false_r; reflexivity].
  unfold bind, modify, append_finalResponseText; simpl.
  match goal with |- context [emit input t ?s] =>
    pose proof (emit_payload input t s) as Hp;
    destruct (emit input t s) as [s1 [[]|e]] end; simpl in *;
    [|discriminate].
  intros _; rewrite captureGrounding_present; unfold present; rewrite Hp.
  reflexivity.
Qed.

Lemma streamSearch_present input response st :
  snd (streamSearch input response st) = Normal tt ->
  present (fst (streamSearch input response st))
  = present st || existsb hasGroundingChunks (chunks response).
Proof.
  unfold streamSearch; apply for_await_any.
  clear st; intros c st Hs.
  match type of Hs with snd (?m st) = _ =>
    destruct (m st) as [s2 r] eqn:E end.
  simpl in Hs; subst r; simpl.
  apply bind_normal in E; destruct E as (s1 & [] & E1 & E2).
  pose proof (captureGrounding_present c s1) as Hc.
  rewrite E2 in Hc; simpl in Hc; rewrite Hc; f_equal.
  unfold present; f_equal; f_equal.
  destruct (chunk_text c) as [t|]; [|inversion E1; reflexivity].
  destruct (truthy t); [|inversion E1; reflexivity].
  unfold bind, modify, append_finalResponseText in E1; simpl in E1.
  match type of E1 with context [emit input t ?s] =>
    pose proof (emit_payload input t s) as Hp end.
  rewrite E1 in Hp; exact Hp.
Qed.

(** X7. Whether the message carries a [groundingMetadata] field, and not
    only what is in it: after a stream loop that completes the field exists
    exactly when it existed before or some chunk the loop looked at had a
    [groundingChunks] array, an empty array included (the field is then an
    empty list, not absent).  The SIMPLE loop looks only at chunks whose
    text is truthy, the SEARCH loop at every chunk. *)
Theorem X7_citation_field input response st :
  (snd (streamSimple input response st) = Normal tt ->
   payload_groundingMetadata
     (metadataPayload (fst (streamSimple input response st)))
   = if present st
        || existsb (fun c => truthy (textOf c) && hasGroundingChunks c)
             (chunks response)
     then Some (captured st
                ++ flat_map (fun c => if truthy (textOf c) then citations c
                                      else []) (chunks response))
     else None)
  /\ (snd (streamSearch input response st) = Normal tt ->
      payload_groundingMetadata
        (metadataPayload (fst (streamSearch input response st)))
      = if present st || existsb hasGroundingChunks (chunks response)
        then Some (captured st ++ flat_map citations (chunks response))
        else None).
Proof.
  split; intros H; rewrite payload_present.
  - rewrite (streamSimple_present _ _ _ H), (streamSimple_captured _ _ _ H).
    reflexivity.
  - rewrite (streamSearch_present _ _ _ H), (streamSearch_captured _ _ _ H).
    reflexivity.
Qed.

Lemma X7_witness :
  let silent := {| chunk_text := Some (lit "hi");
                   candidates :=
                     Some [{| candidate_groundingMetadata :=
                                Some {| groundingChunks := Some [] |} |}] |} in
  let response := {| chunks := [silent]; failure := None |} in
  payload_groundingMetadata
    (metadataPayload (fst (streamSimple Sample.input response state0)))
  = Some [].
Proof.
  cbv zeta.
  refine (eq_trans (proj1 (X7_citation_field Sample.input _ state0) _) _);
    vm_compute; reflexivity.
Defined.

(* ================================================================= *)
(** ** Further properties: the query of [<SEARCH>deep ...</SEARCH>] *)

Lemma exec_from_here r : forall s i mr,
  exec_from r s i = Some mr ->
  exists s', match_here (ignoreCase r) (atoms r) s'
             = Some (match0 mr, groups mr).
Proof.
  induction s as [|c s IH]; intros i mr H; simpl in H.
  - destruct (match_here _ _ []) as [[m gs]|] eqn:Hm; [|discriminate].
    inversion H; subst; exists []; exact Hm.
  - destruct (match_here _ _ (c :: s)) as [[m gs]|] eqn:Hm.
    + inversion H; subst; exists (c :: s); exact Hm.
    + apply (IH _ _ H).
Qed.

(** A greedy [\s+] in front of a lazy capture leaves no white space for
    the capture to begin with: where the capture would begin with a white
    space character, the greedy loop has taken it. *)
Lemma greedy_before_lazy (k : jsstring -> option (jsstring * list jsstring)) :
  let rest s :=
    match lazy_dots k s with
    | Some (cap, m, gs) => Some (cap ++ m, cap :: gs)
    | None => None
    end in
  forall s m gs,
    greedy_spaces rest s = Some (m, gs) ->
    exists cap gs', gs = cap :: gs' /\ trimStart cap = cap.
Proof.
  cbv zeta; induction s as [|c s IH]; intros m gs H; simpl in H;
    [discriminate|].
  destruct (isSpace c); [|discriminate].
  destruct (greedy_spaces _ s) as [[m1 gs1]|] eqn:Hg.
  - inversion H; subst; apply (IH _ _ eq_refl).
  - destruct (lazy_dots k s) as [[[cap m1] gs1]|] eqn:Hl; [|discriminate].
    inversion H; subst; clear H.
    exists cap, gs1; split; [reflexivity|].
    destruct cap as [|x cap]; [reflexivity|]; simpl.
    destruct (isSpace x) eqn:Hx; [exfalso | reflexivity].
    destruct s as [|y s]; simpl in Hl.
    + destruct (k []) as [[? ?]|]; discriminate.
    + destruct (k (y :: s)) as [[? ?]|]; [discriminate|].
      destruct (isDot y); [|discriminate].
      destruct (lazy_dots k s) as [[[cap' m'] gs']|] eqn:Hl'; [|discriminate].
      inversion Hl; subst; clear Hl.
      simpl in Hg; rewrite Hx, Hl' in Hg.
      destruct (greedy_spaces _ s) as [[? ?]|]; discriminate.
Qed.

(** X8. The query taken from a match of [<SEARCH>deep\s+(.*?)</SEARCH>]
    never begins with white space: the greedy [\s+] takes all of it, and
    backtracking cannot hand any back to the capture.  So when no
    [<DEEP>] pair matches, the prompt of the DEEP_SEARCH iteration is
    free of leading white space although the source does not trim it. *)
Theorem X8_deep_query_starts_unspaced input g m :
  String_match g re_DEEP = None ->
  deepMatch g = Some m ->
  exists cap,
    group1 m = Some cap
    /\ promptOf input DEEP_SEARCH m = cap
    /\ trimStart cap = cap.
Proof.
  unfold deepMatch; intros Hn H; rewrite Hn in H; simpl in H.
  destruct (exec_from_here _ _ _ _ H) as [s' Hh].
  unfold re_SEARCH_deep in Hh; cbn [atoms ignoreCase match_here] in Hh.
  destruct (strip_prefix _ _ s') as [[o rest]|]; [|discriminate].
  destruct (greedy_spaces _ rest) as [[m1 gs1]|] eqn:Hg; [|discriminate].
  inversion Hh as [[Hm Hgs]]; clear Hh.
  destruct (greedy_before_lazy _ _ _ _ Hg) as (cap & gs' & -> & Ht).
  exists cap; unfold promptOf, group1; rewrite <- Hgs; simpl; auto.
Qed.

Lemma X8_witness :
  exists cap,
    group1 {| index := 0; match0 := lit "<search>DEEP   tides </search>";
              groups := [lit "tides "] |} = Some cap
    /\ promptOf Sample.input DEEP_SEARCH
         {| index := 0; match0 := lit "<search>DEEP   tides </search>";
            groups := [lit "tides "] |} = cap
    /\ trimStart cap = cap.
Proof.
  apply (X8_deep_query_starts_unspaced Sample.input
           (lit "<search>DEEP   tides </search>"));
    vm_compute; reflexivity.
Defined.

(* ================================================================= *)
(** ** Further properties: the stream callback does not steer the run *)

Lemma mute_ret {A} (a : A) : mute (ret a) (ret a).
Proof. intros st; split; reflexivity. Qed.

Lemma mute_throw {A} e : mute (@throw A e) (throw e).
Proof. intros st; split; reflexivity. Qed.

Lemma mute_await {A} (c : Completion A) : mute (await c) (await c).
Proof. intros st; split; reflexivity. Qed.

Lemma mute_modify f :
  (forall st, f (hush st) = hush (f st)) -> mute (modify f) (modify f).
Proof. intros H st; unfold modify; simpl; rewrite H; split; reflexivity. Qed.

Lemma mute_bind {A B} (m1 m2 : M A) (f1 f2 : A -> M B) :
  mute m1 m2 -> (forall a, mute (f1 a) (f2 a)) ->
  mute (bind m1 f1) (bind m2 f2).
Proof.
  intros Hm Hf st; unfold bind; destruct (Hm st) as [H1 H2].
  destruct (m1 st) as [s1 r1], (m2 (hush st)) as [s2 r2]; simpl in *; subst.
  destruct r1 as [a|e]; [apply Hf | split; reflexivity].
Qed.

Lemma mute_get_bind {B} (f1 f2 : State -> M B) :
  (forall s, mute (f1 s) (f2 (hush s))) -> mute (bind get f1) (bind get f2).
Proof. intros H st; unfold bind, get; apply H. Qed.

Lemma mute_try_catch {A} (m1 m2 : M A) h1 h2 :
  mute m1 m2 -> (forall e, mute (h1 e) (h2 e)) ->
  mute (try_catch m1 h1) (try_catch m2 h2).
Proof.
  intros Hm Hh st; unfold try_catch; destruct (Hm st) as [H1 H2].
  destruct (m1 st) as [s1 r1], (m2 (hush st)) as [s2 r2]; simpl in *; subst.
  destruct r1 as [a|e]; [split; reflexivity | apply Hh].
Qed.

Lemma mute_for_of {A} (b1 b2 : A -> M unit) :
  (forall x, mute (b1 x) (b2 x)) ->
  forall l, mute (for_of l b1) (for_of l b2).
Proof.
  intros Hb; induction l as [|x l IH]; simpl;
    [apply mute_ret | apply mute_bind; [apply Hb | intros _; exact IH]].
Qed.

Lemma mute_for_await s (b1 b2 : Chunk -> M unit) :
  (forall x, mute (b1 x) (b2 x)) -> mute (for_await s b1) (for_await s b2).
Proof.
  intros Hb; unfold for_await; apply mute_bind;
    [apply mute_for_of, Hb|].
  intros _; destruct (failure s); [apply mute_throw | apply mute_ret].
Qed.

Lemma mute_readFiles env : forall fs parts,
  mute (readFiles env fs parts) (readFiles env fs parts).
Proof.
  induction fs as [|f fs IH]; intros parts; simpl;
    [apply mute_ret | apply mute_bind; [apply mute_await | intros a; apply IH]].
Qed.

Lemma mute_emit input x :
  quiet input -> mute (emit input x) (emit (unhooked input) x).
Proof.
  intros Hq st; unfold emit; simpl.
  destruct (onStreamChunk input) as [cb|] eqn:Hcb; [|split; reflexivity].
  unfold bind, modify; simpl; rewrite (Hq cb x Hcb); split; reflexivity.
Qed.

Ltac mute_step :=
  cbn [hush set_streamed routing finalResponseText metadataPayload
       currentAction currentPrompt loopCount generatedThisLoop console
       unhooked prompt files apiKey project chat history user profile];
  match goal with
  | |- mute (bind get _) (bind get _) => apply mute_get_bind; intros ?s
  | |- mute (bind _ _) (bind _ _) => apply mute_bind; [|intros ?a]
  | |- mute (ret _) (ret _) => apply mute_ret
  | |- mute (throw _) (throw _) => apply mute_throw
  | |- mute (await _) (await _) => apply mute_await
  | |- mute (modify _) (modify _) =>
      apply mute_modify; intros ?st; reflexivity
  | H : quiet ?i |- mute (emit ?i _) (emit _ _) => apply mute_emit; exact H
  | |- mute (for_of _ _) (for_of _ _) => apply mute_for_of; intros ?x
  | |- mute (for_await _ _) (for_await _ _) =>
      apply mute_for_await; intros ?x
  | |- mute (readFiles _ _ _) (readFiles _ _ _) => apply mute_readFiles
  | |- mute (try_catch _ _) (try_catch _ _) =>
      apply mute_try_catch; [|intros ?e]
  | |- mute (match ?x with _ => _ end) _ => destruct x
  | |- mute (if ?x then _ else _) _ => destruct x
  end.

Ltac mute_auto := repeat mute_step.

Section Mute.
Variable env : Env.
Variable input : AgentInput.
Variable memoryContext dateTimeContext : jsstring.
Hypothesis input_quiet : quiet input.

Lemma mute_return_text : mute (return_text input) (return_text (unhooked input)).
Proof. unfold return_text; mute_auto. Qed.

Lemma mute_streamText response :
mute (streamText input response) (streamText (unhooked input) response).
Proof. unfold streamText, append_finalResponseText; mute_auto. Qed.

Lemma mute_detectTags : mute (detectTags input) (detectTags (unhooked input)).
Proof.
unfold detectTags, reroute, return_text; mute_auto.
Qed.

Lemma mute_iteration :
mute (iteration env input memoryContext dateTimeContext)
     (iteration env (unhooked input) memoryContext dateTimeContext).
Proof.
unfold iteration; mute_step; mute_step.
- unfold caseSEARCH, streamSearch, append_finalResponseText, captureGrounding.
  mute_auto; apply mute_return_text.
- unfold caseDEEP_SEARCH, append_finalResponseText.
  mute_auto; apply mute_return_text.
- unfold caseTHINK; mute_auto;
    [apply mute_streamText | apply mute_return_text].
- unfold caseIMAGE, append_finalResponseText.
  mute_auto; apply mute_return_text.
- unfold caseCANVAS; mute_auto;
    [apply mute_streamText | apply mute_return_text].
- unfold casePROJECT, append_finalResponseText.
  mute_auto; apply mute_return_text.
- unfold caseSTUDY; mute_auto;
    [apply mute_streamText | apply mute_return_text].
- unfold caseSIMPLE, simpleTurn, streamSimple, append_finalResponseText,
    captureGrounding.
  mute_auto; apply mute_detectTags.
Qed.

Lemma mute_agentLoop fuel :
mute (agentLoop env input memoryContext dateTimeContext fuel)
     (agentLoop env (unhooked input) memoryContext dateTimeContext fuel).
Proof.
induction fuel as [|fuel IH]; simpl; unfold console_log; mute_auto;
  first [apply mute_iteration | exact IH].
Qed.

End Mute.

Lemma mute_run env input fuel :
  quiet input ->
  mute (runAutonomousAgent fuel env input)
       (runAutonomousAgent fuel env (unhooked input)).
Proof.
  intros Hq; unfold runAutonomousAgent, agentBody, console_log; mute_auto.
  apply mute_agentLoop, Hq.
Qed.


(** X9. A stream callback that does not throw has no influence on the
    run: with the callback removed from the input, the run returns the
    same result (or throws the same exception), writes the same console
    lines and leaves the same locals; the only difference is the record of
    the chunks handed to the callback. *)
Theorem X9_callback_does_not_steer fuel env input :
  quiet input ->
  snd (run fuel env (unhooked input)) = snd (run fuel env input)
  /\ fst (run fuel env (unhooked input)) = hush (fst (run fuel env input)).
Proof.
  intros Hq; destruct (mute_run env input fuel Hq state0) as [H1 H2].
  split; [exact H2 | exact H1].
Qed.

Lemma X9_witness :
  let env := Sample.env [Sample.says "Look <SEARCH>tides</SEARCH>"]
               Sample.ok Sample.ok in
  snd (run 2 env (unhooked Sample.input)) = snd (run 2 env Sample.input).
Proof.
  cbv zeta.
  assert (Hq : quiet Sample.input)
    by (intros cb x H; inversion H; reflexivity).
  exact (proj1 (X9_callback_does_not_steer 2
                  (Sample.env [Sample.says "Look <SEARCH>tides</SEARCH>"]
                     Sample.ok Sample.ok) Sample.input Hq)).
Defined.

(* ================================================================= *)
(** ** Further properties: the report of a deep research *)

Lemma progress_streamed input (wrap : jsstring -> jsstring) progress st st' :
  for_of progress (fun msg => emit input (wrap msg)) st = (st', Normal tt) ->
  streamed st'
  = streamed st
    ++ (if isSome (onStreamChunk input) then List.map wrap progress else [])
  /\ finalResponseText st' = finalResponseText st
  /\ metadataPayload st' = metadataPayload st.
Proof.
  revert st; induction progress as [|msg l IH]; intros st H; simpl in *.
  - inversion H; subst; destruct (isSome _); rewrite app_nil_r; auto.
  - apply bind_normal in H; destruct H as (s1 & [] & He & H).
    apply emit_normal in He; subst s1.
    destruct (IH _ H) as (Hs & Hf & Hp).
    destruct (emitted_streamed input (wrap msg) st) as (Hs1 & _ & Hf1).
    destruct (emitted_fields input (wrap msg) st) as (_ & Hp1 & _).
    rewrite Hs, Hs1, Hf, Hf1, Hp, Hp1.
    destruct (isSome _); simpl; rewrite <- ?app_assoc, ?app_nil_r; auto.
Qed.

(** X10. A DEEP_SEARCH iteration that returns has a research result for
    the current prompt.  The report is the answer, a [**Sources:**]
    heading and the sources one per line; the message text is the response
    so far, two line breaks and the report, with the citation field of the
    payload as it was.  The callback, when there is one, has received the
    status line, every progress message between asterisks on a line of its
    own, and last the report without the two line breaks. *)
Theorem X10_deep_research_report env input memoryContext dateTimeContext
  st st' r :
  currentAction st = DEEP_SEARCH ->
  iteration env input memoryContext dateTimeContext st
  = (st', Normal (Return r)) ->
  exists result,
    snd (deepResearch env (currentPrompt st)) = Normal result
    /\ let report := answer result ++ nl ++ nl ++ lit "**Sources:**" ++ nl
                     ++ join nl (sources result) in
       let progress := fst (deepResearch env (currentPrompt st)) in
       r = {| messages := [textMessage input st'] |}
       /\ finalResponseText st' = finalResponseText st ++ nl ++ nl ++ report
       /\ metadataPayload st' = metadataPayload st
       /\ streamed st'
          = streamed st
            ++ (if isSome (onStreamChunk input)
                then [nl ++ nl ++ [55357; 56620]%N
                      ++ lit " Deep Researching..."]
                     ++ List.map (fun msg => nl ++ lit "*" ++ msg ++ lit "*")
                          progress
                     ++ [report]
                else []).
Proof.
  intros Ha H; rewrite iteration_eq, Ha in H; unfold caseDEEP_SEARCH in H.
  apply bind_normal in H; destruct H as (s1 & [] & He & H).
  apply emit_normal in He.
  match type of He with _ = emitted input ?x st =>
    destruct (emitted_fields input x st) as (Hf1 & Hp1 & _ & Hc1);
    destruct (emitted_streamed input x st) as (Hs1 & _) end.
  rewrite <- He in Hf1, Hp1, Hc1, Hs1; clear He.
  unfold bind at 1, get in H; rewrite Hc1 in H.
  destruct (deepResearch env (currentPrompt st)) as [progress outcome].
  apply bind_normal in H; destruct H as (s2 & [] & Hfor & H).
  destruct (progress_streamed input
              (fun msg => nl ++ lit "*" ++ msg ++ lit "*") progress s1 s2 Hfor)
    as (Hs2 & Hf2 & Hp2); clear Hfor.
  apply bind_normal in H; destruct H as (s3 & result & Haw & H).
  unfold await in Haw; inversion Haw; subst s3 outcome; clear Haw.
  apply bind_normal in H; destruct H as (s4 & [] & Hap & H).
  unfold append_finalResponseText, modify in Hap; inversion Hap; clear Hap.
  apply bind_normal in H; destruct H as (s5 & [] & He & H).
  apply emit_normal in He.
  match type of He with _ = emitted input ?x s4 =>
    destruct (emitted_fields input x s4) as (Hf5 & Hp5 & _);
    destruct (emitted_streamed input x s4) as (Hs5 & _) end.
  rewrite <- He in Hf5, Hp5, Hs5; clear He.
  rewrite return_text_eq in H; inversion H; subst s5 r; clear H.
  exists result; split; [reflexivity|]; cbv zeta; simpl fst.
  subst s4;
    cbn [finalResponseText metadataPayload streamed set_finalResponseText]
      in Hf5, Hp5, Hs5.
  split; [reflexivity | split; [|split]].
  - rewrite Hf5, Hf2, Hf1, <- ?app_assoc; reflexivity.
  - rewrite Hp5, Hp2, Hp1; reflexivity.
  - rewrite Hs5, Hs2, Hs1.
    destruct (isSome _); rewrite <- ?app_assoc, ?app_nil_r; reflexivity.
Qed.

Lemma X10_witness :
  let env := Sample.env [] Sample.ok Sample.ok in
  let st := set_currentPrompt (lit "tides")
              (set_currentAction DEEP_SEARCH (entered state0)) in
  let out := iteration env Sample.input (lit "{}") (dateTimeContextOf env) st in
  exists result,
    snd (deepResearch env (currentPrompt st)) = Normal result
    /\ finalResponseText (fst out)
       = finalResponseText st ++ nl ++ nl
         ++ answer result ++ nl ++ nl ++ lit "**Sources:**" ++ nl
         ++ join nl (sources result).
Proof.
  cbv zeta.
  set (env := Sample.env [] Sample.ok Sample.ok).
  set (st := set_currentPrompt (lit "tides")
               (set_currentAction DEEP_SEARCH (entered state0))).
  set (out := iteration env Sample.input (lit "{}") (dateTimeContextOf env) st).
  assert (Hout : out
                 = (fst out,
                    Normal (Return {| messages :=
                                        [textMessage Sample.input (fst out)] |})))
    by (vm_compute; reflexivity).
  destruct (X10_deep_research_report env Sample.input (lit "{}")
              (dateTimeContextOf env) st (fst out) _ eq_refl Hout)
    as (result & Hr & _ & Hf & _).
  exists result; split; [exact Hr | exact Hf].
Defined.

(* ================================================================= *)
(** ** Further properties: a stream that fails part-way *)

Lemma for_of_normal {A} (body : A -> M unit) :
  (forall x st, snd (body x st) = Normal tt) ->
  forall l st, snd (for_of l body st) = Normal tt.
Proof.
  intros Hb; induction l as [|x l IH]; intros st; simpl; [reflexivity|].
  unfold bind; specialize (Hb x st).
  destruct (body x st) as [s1 [[]|e]]; simpl in *; [apply IH | discriminate].
Qed.

Lemma streamSimple_quiet input response st :
  quiet input ->
  snd (streamSimple input (delivered response) st) = Normal tt.
Proof.
  intros Hq; unfold streamSimple, for_await, bind; simpl.
  match goal with |- context [for_of ?l ?b st] =>
    pose proof (for_of_normal b) as Hn; specialize (fun H => Hn H l st);
    destruct (for_of l b st) as [s1 r] end.
  simpl in Hn; rewrite Hn; [reflexivity|].
  intros c s; destruct (chunk_text c) as [t|]; [|reflexivity].
  destruct (truthy t); [|reflexivity].
  unfold bind, modify, append_finalResponseText; simpl.
  rewrite (emit_quiet input t _ Hq).
  apply (proj1 (captureGrounding_captured c _)).
Qed.

Lemma streamSimple_failed input response e st :
  failure response = Some e ->
  snd (streamSimple input (delivered response) st) = Normal tt ->
  streamSimple input response st
  = (fst (streamSimple input (delivered response) st), Throw e).
Proof.
  intros Hf; unfold streamSimple, for_await, bind; simpl; rewrite Hf.
  match goal with |- context [for_of ?l ?b st] =>
    destruct (for_of l b st) as [s1 [[]|e1]] end; simpl;
    [reflexivity | discriminate].
Qed.

(** X11. When the stream of the first (SIMPLE) request fails after its
    chunks, with no files attached and a callback that does not throw: the
    callback has received the text of every chunk, the run logs the
    iteration and the error, and the result is the error message alone.
    The text accumulated in [finalResponseText] is not part of it, and no
    tag in that text is acted upon. *)
Theorem X11_failed_stream_drops_text env input mem response e fuel :
  quiet input ->
  files input = None ->
  getContext env allLayers = Normal mem ->
  generateContentStream env
    (simpleRequest env input mem (dateTimeContextOf env)
       [TextPart (prompt input)])
  = Normal response ->
  failure response = Some e ->
  let st := fst (run (S fuel) env input) in
  snd (run (S fuel) env input) = Normal (Some (errorResult env input e))
  /\ console st = [LogLoop 1 SIMPLE; LogError e]
  /\ streamed st
     = (if isSome (onStreamChunk input) then texts response else [])
  /\ finalResponseText st = List.concat (texts response)
  /\ currentAction st = SIMPLE.
Proof.
  intros Hq Hfiles Hctx Hgen Hfail; cbv zeta.
  pose proof (streamSimple_quiet input response
                (set_generatedThisLoop [] (entered (entryState input))) Hq)
    as Hn.
  pose proof (streamSimple_failed input response e _ Hfail Hn) as Hthrow.
  pose proof (streamSimple_streamed input (delivered response) _ Hn) as Hs.
  destruct (streamSimple_texts input (delivered response) _ Hn) as [_ Hf].
  assert (Hturn : simpleTurn env input mem (dateTimeContextOf env)
                    (entered (entryState input))
                  = (fst (streamSimple input (delivered response)
                            (set_generatedThisLoop []
                               (entered (entryState input)))),
                     Throw e)).
  { unfold simpleTurn; unfold bind at 1, get; rewrite Hfiles.
    unfold bind at 1, ret; unfold bind at 1, await.
    cbn [currentPrompt entered entryState set_console set_loopCount].
    rewrite Hgen; unfold bind at 1, modify; exact Hthrow. }
  rewrite run_unfold, agentBody_unfold, Hctx.
  rewrite agentLoop_S by (unfold MAX_LOOPS; simpl; lia).
  rewrite iteration_eq.
  cbn [currentAction entered entryState set_console set_loopCount].
  pose proof (simpleTurn_turn env input mem (dateTimeContextOf env)
                (entered (entryState input))) as Ht.
  unfold caseSIMPLE, bind; rewrite Hturn in *.
  destruct Ht as ((Hc & _) & Ha & _).
  cbn [fst snd] in *.
  split; [reflexivity|].
  cbn [console streamed finalResponseText currentAction set_console].
  rewrite Hc, Hs, Hf, Ha; repeat split.
Qed.

Lemma X11_witness :
  let response :=
    {| chunks := [Sample.says "One moment <IMAGE>a cat</IMAGE>"];
       failure := Some (ErrorObject (lit "connection reset")) |} in
  let st := fst (run 2 (answering response) Sample.input) in
  console st = [LogLoop 1 SIMPLE; LogError (ErrorObject (lit "connection reset"))]
  /\ streamed st = [lit "One moment <IMAGE>a cat</IMAGE>"].
Proof.
  cbv zeta.
  set (response :=
         {| chunks := [Sample.says "One moment <IMAGE>a cat</IMAGE>"];
            failure := Some (ErrorObject (lit "connection reset")) |}).
  assert (Hq : quiet Sample.input)
    by (intros cb x H; inversion H; reflexivity).
  destruct (X11_failed_stream_drops_text (answering response) Sample.input
              (lit "{}") response (ErrorObject (lit "connection reset")) 1
              Hq eq_refl eq_refl eq_refl eq_refl)
    as (_ & Hc & Hs & _).
  split; [exact Hc | exact Hs].
Defined.

(* ================================================================= *)
(** ** Further properties: the note of the PROJECT case *)

(** X12. A PROJECT iteration that returns has a response to the project
    request for the current prompt.  One note is appended to the response
    and handed to the callback after the status line, the same text in
    both places; it quotes the text of the response as it came (the word
    [undefined] when the response has no text), and the payload is left
    as it was. *)
Theorem X12_project_note env input memoryContext dateTimeContext st st' r :
  currentAction st = PROJECT ->
  iteration env input memoryContext dateTimeContext st
  = (st', Normal (Return r)) ->
  exists response note,
    generateContent env (projectRequest (currentPrompt st)) = Normal response
    /\ includes (String_of response) note
    /\ (response = None -> includes (lit "undefined") note)
    /\ r = {| messages := [textMessage input st'] |}
    /\ finalResponseText st' = finalResponseText st ++ note
    /\ metadataPayload st' = metadataPayload st
    /\ streamed st'
       = streamed st
         ++ (if isSome (onStreamChunk input)
             then [nl ++ nl ++ [55357; 56550]%N
                   ++ lit " Building project structure..."; note]
             else []).
Proof.
  intros Ha H; rewrite iteration_eq, Ha in H; unfold casePROJECT in H.
  apply bind_normal in H; destruct H as (s1 & [] & He & H).
  apply emit_normal in He.
  match type of He with _ = emitted input ?x st =>
    destruct (emitted_fields input x st) as (Hf1 & Hp1 & _ & Hc1);
    destruct (emitted_streamed input x st) as (Hs1 & _) end.
  rewrite <- He in Hf1, Hp1, Hc1, Hs1; clear He.
  unfold bind at 1, get in H; rewrite Hc1 in H.
  apply bind_normal in H; destruct H as (s3 & response & Haw & H).
  unfold await in Haw; inversion Haw as [[Hs3 Hgen]]; subst s3; clear Haw.
  cbv zeta in H.
  apply bind_normal in H; destruct H as (s4 & [] & Hap & H).
  unfold append_finalResponseText, modify in Hap; inversion Hap; clear Hap.
  apply bind_normal in H; destruct H as (s5 & [] & He & H).
  apply emit_normal in He.
  match type of He with _ = emitted input ?x s4 =>
    destruct (emitted_fields input x s4) as (Hf5 & Hp5 & _);
    destruct (emitted_streamed input x s4) as (Hs5 & _);
    set (note := x) in * end.
  rewrite <- He in Hf5, Hp5, Hs5; clear He.
  rewrite return_text_eq in H; inversion H; subst s5 r; clear H.
  subst s4;
    cbn [finalResponseText metadataPayload streamed set_finalResponseText]
      in Hf5, Hp5, Hs5.
  assert (Hin : includes (String_of response) note).
  { exists (nl ++ lit "I've designed the project structure based on your request."
            ++ nl ++ nl),
           (nl ++ nl
            ++ lit "(Switch to Co-Creator mode to fully hydrate and edit these files.)").
    unfold note; rewrite <- !app_assoc; reflexivity. }
  exists response, note.
  split; [exact Hgen | split; [exact Hin | split; [|split; [reflexivity|]]]].
  - intros ->; exact Hin.
  - split; [rewrite Hf5, Hf1; reflexivity | split].
    + rewrite Hp5, Hp1; reflexivity.
    + rewrite Hs5, Hs1.
      destruct (isSome _); rewrite <- ?app_assoc, ?app_nil_r; reflexivity.
Qed.

Lemma X12_witness :
  let env := Sample.env [] Sample.ok Sample.ok in
  let st := set_currentPrompt (lit "a blog")
              (set_currentAction PROJECT (entered state0)) in
  let out := iteration env Sample.input (lit "{}") (dateTimeContextOf env) st in
  exists response note,
    generateContent env (projectRequest (currentPrompt st)) = Normal response
    /\ includes (String_of response) note
    /\ finalResponseText (fst out) = finalResponseText st ++ note.
Proof.
  cbv zeta.
  set (env := Sample.env [] Sample.ok Sample.ok).
  set (st := set_currentPrompt (lit "a blog")
               (set_currentAction PROJECT (entered state0))).
  set (out := iteration env Sample.input (lit "{}") (dateTimeContextOf env) st).
  assert (Hout : out
                 = (fst out,
                    Normal (Return {| messages :=
                                        [textMessage Sample.input (fst out)] |})))
    by (vm_compute; reflexivity).
  destruct (X12_project_note env Sample.input (lit "{}")
              (dateTimeContextOf env) st (fst out) _ eq_refl Hout)
    as (response & note & Hg & Hi & _ & _ & Hf & _).
  exists response, note; split; [exact Hg | split; [exact Hi | exact Hf]].
Defined.
